(** * Authorization core of the document-chat application

    A shallow embedding of the role hierarchy and capability resolver
    (contexts/PermissionsContext), of the row-level-security policies and
    helper functions of the SQL migrations, and of the invitation and
    folder handlers of the pages, followed by the properties of the
    authorization model.

    Tables are lists of rows.  SQL conditions are evaluated in SQL's
    three-valued logic; a policy or a WHERE clause keeps a row only when
    its condition is TRUE.  Times are milliseconds since the epoch. *)

From Stdlib Require Import ZArith Lia.
From stdpp Require Import base decidable option list strings pretty.

Local Open Scope Z_scope.

(** ** SQL's three-valued logic *)

Module Sql.

(** [None] is NULL. *)
Definition tri := option bool.

Definition eq {A} `{EqDecision A} (a b : option A) : tri :=
  match a, b with
  | Some x, Some y => Some (bool_decide (x = y))
  | _, _ => None
  end.

Definition or (a b : tri) : tri :=
  match a, b with
  | Some true, _ | _, Some true => Some true
  | Some false, Some false => Some false
  | _, _ => None
  end.

Definition and (a b : tri) : tri :=
  match a, b with
  | Some false, _ | _, Some false => Some false
  | Some true, Some true => Some true
  | _, _ => None
  end.

(** A row passes USING / WHERE only when the condition is TRUE. *)
Definition holds (a : tri) : bool :=
  match a with Some true => true | _ => false end.

(** [SELECT ... WHERE cond]. *)
Definition select {A} (cond : A -> tri) (rows : list A) : list A :=
  filter (fun r => holds (cond r) = true) rows.

(** [EXISTS (SELECT 1 FROM rows WHERE cond)]: never NULL. *)
Definition exists_ {A} (rows : list A) (cond : A -> tri) : tri :=
  Some (bool_decide (select cond rows <> [])).

Definition lit (b : bool) : tri := Some b.

End Sql.

Infix "OR" := Sql.or (at level 50, left associativity).
Infix "AND" := Sql.and (at level 40, left associativity).

(** ** Schema *)

Definition uuid := string.
Definition timestamp := Z.

(** [CREATE TYPE app_role AS ENUM ('super_admin','admin','editor','reader')],
    and the non-null part of the client's [AppRole]. *)
Inductive app_role := super_admin | admin | editor | reader.

Global Instance app_role_eq_dec : EqDecision app_role.
Proof. solve_decision. Defined.

(** [CREATE TYPE folder_access_level AS ENUM ('private','team','custom')]. *)
Inductive folder_access_level := private | team | custom.

Global Instance folder_access_level_eq_dec : EqDecision folder_access_level.
Proof. solve_decision. Defined.

(** Rows of [user_roles] ([ur]), [profiles] ([p]), [folders] ([f]),
    [folder_permissions] ([fp]), [documents] ([doc]) and [invitations]
    ([inv]).  Nullable columns are options. *)
Record user_role := {
  ur_user_id : uuid;
  ur_role : app_role;
}.

Record profile := {
  p_id : uuid;
  p_email : option string;
  p_full_name : option string;
  p_is_active : bool;
}.

Record folder := {
  f_id : uuid;
  f_name : string;
  f_user_id : option uuid;
  f_access_level : folder_access_level;
  f_created_by : option uuid;
}.

Record folder_permission := {
  fp_folder_id : uuid;
  fp_user_id : uuid;
}.

Record document := {
  doc_id : uuid;
  doc_name : string;
  doc_user_id : uuid;
  doc_folder_id : option uuid;
}.

Record invitation := {
  inv_id : uuid;
  inv_email : string;
  inv_role : app_role;
  inv_token : string;
  inv_invited_by : option uuid;
  inv_accepted_at : option timestamp;
  inv_expires_at : timestamp;
  inv_created_at : timestamp;
}.

(** An account made by the authentication service's [signUp]. *)
Record auth_user := {
  au_id : uuid;
  au_email : string;
  au_full_name : string;
}.

Global Instance user_role_eq_dec : EqDecision user_role.
Proof. solve_decision. Defined.
Global Instance profile_eq_dec : EqDecision profile.
Proof. solve_decision. Defined.
Global Instance folder_eq_dec : EqDecision folder.
Proof. solve_decision. Defined.
Global Instance folder_permission_eq_dec : EqDecision folder_permission.
Proof. solve_decision. Defined.
Global Instance document_eq_dec : EqDecision document.
Proof. solve_decision. Defined.
Global Instance invitation_eq_dec : EqDecision invitation.
Proof. solve_decision. Defined.
Global Instance auth_user_eq_dec : EqDecision auth_user.
Proof. solve_decision. Defined.

Record database := {
  user_roles : list user_role;
  profiles : list profile;
  folders : list folder;
  folder_permissions : list folder_permission;
  documents : list document;
  invitations : list invitation;
  auth_users : list auth_user;
}.

(** The client library's [.maybeSingle()]: the row when the query has
    exactly one, no data when it has none, and an error (with no data)
    when it has several. *)
Inductive single (A : Type) := NoRow | OneRow (r : A) | ManyRows.
Arguments NoRow {A}.
Arguments OneRow {A} r.
Arguments ManyRows {A}.

Definition maybeSingle {A} (rows : list A) : single A :=
  match rows with
  | [] => NoRow
  | [r] => OneRow r
  | _ => ManyRows
  end.

(** The [data] field of the response. *)
Definition data {A} (s : single A) : option A :=
  match s with OneRow r => Some r | _ => None end.

(** ** Role helpers of the migrations *)

Section RoleFunctions.
Variable db : database.

(** [has_role(_user_id, _role)]. *)
Definition has_role (_user_id : option uuid) (_role : app_role) : Sql.tri :=
  Sql.exists_ (user_roles db) (fun ur =>
    Sql.eq (Some (ur_user_id ur)) _user_id AND Sql.eq (Some (ur_role ur)) (Some _role)).

(** [role IN (...)]. *)
Definition role_in (r : app_role) (l : list app_role) : Sql.tri :=
  Sql.lit (bool_decide (r ∈ l)).

(** [has_role_or_higher], as first created. *)
Definition has_role_or_higher_v1 (_user_id : option uuid) (_min_role : app_role) : Sql.tri :=
  Sql.exists_ (user_roles db) (fun ur =>
    Sql.eq (Some (ur_user_id ur)) _user_id AND
    (Sql.eq (Some (ur_role ur)) (Some super_admin)
     OR (Sql.eq (Some _min_role) (Some admin) AND role_in (ur_role ur) [super_admin; admin])
     OR (Sql.eq (Some _min_role) (Some editor) AND role_in (ur_role ur) [super_admin; admin; editor])
     OR Sql.eq (Some _min_role) (Some reader))).

(** [has_role_or_higher], as replaced by the later migration. *)
Definition has_role_or_higher (_user_id : option uuid) (_min_role : app_role) : Sql.tri :=
  Sql.exists_ (user_roles db) (fun ur =>
    Sql.eq (Some (ur_user_id ur)) _user_id AND
    match _min_role with
    | reader => role_in (ur_role ur) [reader; editor; admin; super_admin]
    | editor => role_in (ur_role ur) [editor; admin; super_admin]
    | admin => role_in (ur_role ur) [admin; super_admin]
    | super_admin => Sql.eq (Some (ur_role ur)) (Some super_admin)
    end).

End RoleFunctions.

(** ** The capability resolver (PermissionsContext) *)

Definition AppRole := option app_role.

Definition roleHierarchy (r : app_role) : Z :=
  match r with
  | super_admin => 4
  | admin => 3
  | editor => 2
  | reader => 1
  end.

Definition hasRole (role minRole : AppRole) : bool :=
  match role, minRole with
  | Some r, Some m => roleHierarchy r >=? roleHierarchy m
  | _, _ => false
  end.

(** [role === 'x']. *)
Definition role_is (role : AppRole) (x : app_role) : bool :=
  bool_decide (role = Some x).

Record PermissionsContextType := {
  role : AppRole;
  canManageUsers : bool;
  canViewUsers : bool;
  canCreateFolders : bool;
  canDeleteFolders : bool;
  canRenameFolders : bool;
  canUploadDocuments : bool;
  canDeleteDocuments : bool;
  canRenameDocuments : bool;
  canUseChat : bool;
  canExportConversations : bool;
  canViewAllConversations : bool;
  canAccessSettings : bool;
  canManageBilling : bool;
}.

(** The context value computed by [PermissionsProvider] from its [role]
    state. *)
Definition PermissionsProvider (role : AppRole) : PermissionsContextType := {|
  role := role;
  canManageUsers := role_is role super_admin;
  canViewUsers := role_is role super_admin || role_is role admin;
  canCreateFolders := hasRole role (Some editor);
  canDeleteFolders := hasRole role (Some admin);
  canRenameFolders := hasRole role (Some editor);
  canUploadDocuments := hasRole role (Some editor);
  canDeleteDocuments := hasRole role (Some admin);
  canRenameDocuments := hasRole role (Some editor);
  canUseChat := bool_decide (role <> None);
  canExportConversations := hasRole role (Some editor);
  canViewAllConversations := hasRole role (Some admin);
  canAccessSettings := hasRole role (Some admin);
  canManageBilling := role_is role super_admin;
|}.

(** [fetchRole]: no signed-in user gives no role; otherwise the user's
    row of [user_roles] is read with [maybeSingle], and an error or a
    missing row gives no role.  (The policy "Users can view own role"
    lets every user read the rows that carry their own id.) *)
Definition fetchRole (db : database) (user : option uuid) : AppRole :=
  match user with
  | None => None
  | Some id =>
      ur_role <$> data (maybeSingle
        (Sql.select (fun ur => Sql.eq (Some (ur_user_id ur)) (Some id)) (user_roles db)))
  end.

(** The thirteen capabilities, by name. *)
Inductive capability :=
  | CanManageUsers | CanViewUsers
  | CanCreateFolders | CanDeleteFolders | CanRenameFolders
  | CanUploadDocuments | CanDeleteDocuments | CanRenameDocuments
  | CanUseChat | CanExportConversations | CanViewAllConversations
  | CanAccessSettings | CanManageBilling.

Definition granted (p : PermissionsContextType) (c : capability) : bool :=
  match c with
  | CanManageUsers => canManageUsers p
  | CanViewUsers => canViewUsers p
  | CanCreateFolders => canCreateFolders p
  | CanDeleteFolders => canDeleteFolders p
  | CanRenameFolders => canRenameFolders p
  | CanUploadDocuments => canUploadDocuments p
  | CanDeleteDocuments => canDeleteDocuments p
  | CanRenameDocuments => canRenameDocuments p
  | CanUseChat => canUseChat p
  | CanExportConversations => canExportConversations p
  | CanViewAllConversations => canViewAllConversations p
  | CanAccessSettings => canAccessSettings p
  | CanManageBilling => canManageBilling p
  end.

(** The two capabilities decided by [role === 'super_admin']. *)
Definition exact_match (c : capability) : bool :=
  match c with
  | CanManageUsers | CanManageBilling => true
  | _ => false
  end.

(** The order reader < editor < admin < super_admin. *)
Definition role_lt (r1 r2 : app_role) : Prop := roleHierarchy r1 < roleHierarchy r2.

(** ** Row-level-security policies

    [uid] is [auth.uid()], NULL for a request without a signed-in user.
    Several permissive policies for one command combine with OR.  The
    functions declared SECURITY DEFINER ([has_role], [can_view_folder])
    read whole tables; a sub-select written in a policy runs as the
    requester and reads the rows of the table it names that the requester
    may read. *)

Section Policies.
Variable db : database.
Variable uid : option uuid.

(** [EXISTS (SELECT 1 FROM folder_permissions fp
     WHERE fp.folder_id = _folder_id AND fp.user_id = _user_id)]. *)
Definition has_folder_permission (_folder_id : uuid) (_user_id : option uuid) : Sql.tri :=
  Sql.exists_ (folder_permissions db) (fun fp =>
    Sql.eq (Some (fp_folder_id fp)) (Some _folder_id) AND Sql.eq (Some (fp_user_id fp)) _user_id).

(** [can_view_folder(_user_id, _folder_id, _folder_user_id, _access_level, _created_by)]. *)
Definition can_view_folder (_user_id : option uuid) (_folder_id : uuid)
    (_folder_user_id : option uuid) (_access_level : folder_access_level)
    (_created_by : option uuid) : Sql.tri :=
  Sql.eq _folder_user_id _user_id
  OR has_role db _user_id super_admin
  OR Sql.eq (Some _access_level) (Some team)
  OR (Sql.eq (Some _access_level) (Some private) AND Sql.eq _created_by _user_id)
  OR (Sql.eq (Some _access_level) (Some custom) AND has_folder_permission _folder_id _user_id).

(** Policy "Users can view accessible folders" ON folders FOR SELECT.
    The grants its sub-select looks for carry the requester's id, and
    those the requester may always read ("Users can view own folder
    permissions"). *)
Definition folders_select_policy (f : folder) : Sql.tri :=
  Sql.eq (f_user_id f) uid
  OR has_role db uid super_admin
  OR Sql.eq (Some (f_access_level f)) (Some team)
  OR (Sql.eq (Some (f_access_level f)) (Some private) AND Sql.eq (f_created_by f) uid)
  OR (Sql.eq (Some (f_access_level f)) (Some custom) AND has_folder_permission (f_id f) uid).

(** Whether the folder row is visible to the requester. *)
Definition canView (f : folder) : bool := Sql.holds (folders_select_policy f).

(** Policy "Admins can delete folders" ON folders FOR DELETE. *)
Definition folders_delete_policy (f : folder) : Sql.tri :=
  has_role db uid super_admin OR has_role db uid admin.

(** Policies ON folder_permissions: three FOR ALL, one FOR SELECT. *)
Definition fp_super_admin_policy (fp : folder_permission) : Sql.tri :=
  has_role db uid super_admin.

Definition fp_admin_policy (fp : folder_permission) : Sql.tri :=
  has_role db uid admin.

(** "Folder creators can manage permissions": the sub-select reads the
    folders that pass the read policy of [folders] for the requester. *)
Definition fp_creator_policy (fp : folder_permission) : Sql.tri :=
  Sql.exists_ (Sql.select folders_select_policy (folders db)) (fun f =>
    Sql.eq (Some (f_id f)) (Some (fp_folder_id fp)) AND Sql.eq (f_created_by f) uid).

Definition fp_own_select_policy (fp : folder_permission) : Sql.tri :=
  Sql.eq (Some (fp_user_id fp)) uid.

(** What INSERT and DELETE on [folder_permissions] are checked against. *)
Definition folder_permissions_manage_policy (fp : folder_permission) : Sql.tri :=
  fp_super_admin_policy fp OR fp_admin_policy fp OR fp_creator_policy fp.

Definition folder_permissions_select_policy (fp : folder_permission) : Sql.tri :=
  folder_permissions_manage_policy fp OR fp_own_select_policy fp.

(** Policies ON invitations: "Super admins can manage invitations" FOR
    ALL and "Anyone can view invitation by token for accepting" FOR
    SELECT USING (true). *)
Definition invitations_manage_policy (i : invitation) : Sql.tri :=
  has_role db uid super_admin.

Definition invitations_view_policy (i : invitation) : Sql.tri :=
  Sql.lit true.

Definition invitations_select_policy (i : invitation) : Sql.tri :=
  invitations_manage_policy i OR invitations_view_policy i.

Definition select_invitations : list invitation :=
  Sql.select invitations_select_policy (invitations db).

(** Policy "Users can view profiles based on role" ON profiles FOR SELECT. *)
Definition profiles_select_policy (p : profile) : Sql.tri :=
  Sql.eq uid (Some (p_id p))
  OR has_role db uid super_admin
  OR has_role db uid admin.

Definition select_profiles : list profile :=
  Sql.select profiles_select_policy (profiles db).

End Policies.

(** ** Writes *)

Definition with_user_roles (db : database) (l : list user_role) : database :=
  {| user_roles := l; profiles := profiles db; folders := folders db;
     folder_permissions := folder_permissions db; documents := documents db;
     invitations := invitations db; auth_users := auth_users db |}.

Definition with_folder_permissions (db : database) (l : list folder_permission) : database :=
  {| user_roles := user_roles db; profiles := profiles db; folders := folders db;
     folder_permissions := l; documents := documents db;
     invitations := invitations db; auth_users := auth_users db |}.

Definition with_invitations (db : database) (l : list invitation) : database :=
  {| user_roles := user_roles db; profiles := profiles db; folders := folders db;
     folder_permissions := folder_permissions db; documents := documents db;
     invitations := l; auth_users := auth_users db |}.

Definition with_auth_users (db : database) (l : list auth_user) : database :=
  {| user_roles := user_roles db; profiles := profiles db; folders := folders db;
     folder_permissions := folder_permissions db; documents := documents db;
     invitations := invitations db; auth_users := l |}.

(** [folder_id UUID REFERENCES folders(id)] and
    [user_id UUID REFERENCES auth.users(id)] on [folder_permissions]. *)
Definition fp_references_resolve (db : database) (fp : folder_permission) : Prop :=
  fp_folder_id fp ∈ f_id <$> folders db /\ fp_user_id fp ∈ au_id <$> auth_users db.

(** [INSERT INTO folder_permissions]: an error (no change) when a new row
    fails the policy, refers to a folder or a user that is not stored, or
    breaks UNIQUE (folder_id, user_id). *)
Definition insert_folder_permissions (db : database) (uid : option uuid)
    (rows : list folder_permission) : option database :=
  if bool_decide (Forall (fun fp => Sql.holds (folder_permissions_manage_policy db uid fp) = true) rows)
     && bool_decide (Forall (fp_references_resolve db) rows)
     && bool_decide (NoDup (folder_permissions db ++ rows))
  then Some (with_folder_permissions db (folder_permissions db ++ rows))
  else None.

(** [DELETE FROM folder_permissions WHERE folder_id = _folder_id]: the rows
    the policy hides from the requester stay.  (The statement reads the
    rows it deletes; the read policies of the table are the manage
    policies and one more, so they refuse no row that the manage policies
    let through.) *)
Definition delete_folder_permissions (db : database) (uid : option uuid)
    (_folder_id : uuid) : database :=
  with_folder_permissions db
    (filter (fun fp => ~ (fp_folder_id fp = _folder_id
                          /\ Sql.holds (folder_permissions_manage_policy db uid fp) = true))
            (folder_permissions db)).


(** [DELETE FROM folders WHERE id = folderId].  The statement reads the
    rows it deletes, so the rows that go are those that pass the read
    policy and the delete policy; [folder_permissions.folder_id] is
    declared ON DELETE CASCADE, so the grants of a deleted folder go with
    it. *)
Definition deleted_folders (db : database) (uid : option uuid) (folderId : uuid) : list folder :=
  Sql.select (fun f => Sql.eq (Some (f_id f)) (Some folderId)
                       AND folders_select_policy db uid f
                       AND folders_delete_policy db uid f)
             (folders db).

(** [{ ...d, folder_id: null }]. *)
Definition clear_folder_id (d : document) : document :=
  {| doc_id := doc_id d; doc_name := doc_name d; doc_user_id := doc_user_id d;
     doc_folder_id := None |}.

(** Modelled from the spec: the declaration of [documents.folder_id] is
    not among the migrations at hand; the documents page says the column
    is ON DELETE SET NULL, and the specification says documents of a
    deleted folder lose their folder reference rather than being deleted. *)
Definition documents_on_folder_delete (gone : list uuid) (d : document) : document :=
  match doc_folder_id d with
  | Some id =>
      if bool_decide (id ∈ gone) then clear_folder_id d else d
  | None => d
  end.

Definition delete_folder (db : database) (uid : option uuid) (folderId : uuid) : database :=
  let deleted := deleted_folders db uid folderId in
  let gone := f_id <$> deleted in
  {| user_roles := user_roles db;
     profiles := profiles db;
     folders := filter (fun f => f ∉ deleted) (folders db);
     folder_permissions := filter (fun fp => fp_folder_id fp ∉ gone) (folder_permissions db);
     documents := documents_on_folder_delete gone <$> documents db;
     invitations := invitations db;
     auth_users := auth_users db |}.

(** ** The documents page: [handleDeleteFolder] *)

Record documents_page := {
  pg_documents : list document;
  pg_folders : list folder;
  pg_currentFolderId : option uuid;
}.

Inductive delete_folder_result :=
  | DeleteNotAuthorized
  | DeleteUnknownFolder
  | DeleteError
  | FolderDeleted (name : string).

(** [store_error] is the [error] of the delete request (the store could
    not be reached); a delete that the policy filters out is no error. *)
Definition handleDeleteFolder (perms : PermissionsContextType) (uid : option uuid)
    (store_error : bool) (db : database) (pg : documents_page) (folderId : uuid)
    : database * documents_page * delete_folder_result :=
  if negb (canDeleteFolders perms) then (db, pg, DeleteNotAuthorized)
  else
    match List.find (fun f => bool_decide (f_id f = folderId)) (pg_folders pg) with
    | None => (db, pg, DeleteUnknownFolder)
    | Some f =>
        if store_error then (db, pg, DeleteError)
        else
          (delete_folder db uid folderId,
           {| pg_folders := filter (fun f => f_id f <> folderId) (pg_folders pg);
              pg_documents :=
                (fun d => if bool_decide (doc_folder_id d = Some folderId)
                          then clear_folder_id d else d) <$> pg_documents pg;
              pg_currentFolderId :=
                if bool_decide (pg_currentFolderId pg = Some folderId) then None
                else pg_currentFolderId pg |},
           FolderDeleted (f_name f))
    end.

(** ** Invitations: creation (InviteUserDialog) *)

(** [now() + interval '7 days'], the default of [expires_at]. *)
Definition seven_days : Z := 7 * 24 * 60 * 60 * 1000.

(** [INSERT INTO invitations]: an error when the row fails the only
    policy that covers INSERT, or breaks PRIMARY KEY (id) or UNIQUE (token). *)
Definition insert_invitation (db : database) (uid : option uuid) (i : invitation)
    : option database :=
  if Sql.holds (invitations_manage_policy db uid i)
     && bool_decide (inv_id i ∉ (inv_id <$> invitations db))
     && bool_decide (inv_token i ∉ (inv_token <$> invitations db))
  then Some (with_invitations db (invitations db ++ [i]))
  else None.

(** [DELETE FROM invitations WHERE id = _id], under the same policy (the
    read policy, which the statement is subject to as well, lets every
    row through). *)
Definition delete_invitation (db : database) (uid : option uuid) (_id : uuid) : database :=
  with_invitations db
    (filter (fun i => ~ (inv_id i = _id /\ Sql.holds (invitations_manage_policy db uid i) = true))
            (invitations db)).

Module InviteUserDialog.

(** The first issue of a failed parse: 'Email invalide', 'Email trop
    long', or the enum's own message. *)
Inductive schema_error := EmailInvalide | EmailTropLong | InvalidEnumValue.

(** How [handleSubmit] ends.  [EmailDejaEnregistre] ('Cet email est deja
    enregistre') and [InvitationDejaEnAttente] ('Une invitation est deja
    en attente pour cet email') are the two duplicate outcomes, the
    Conflict of the specification. *)
Inductive result :=
  | Invalid (e : schema_error)
  | EmailDejaEnregistre
  | InvitationDejaEnAttente
  | InsertFailed
  | InvitationCreee (token : string).

Section Dialog.
(** zod's [z.string().email()] test. *)
Variable is_email : string -> bool.

(** [z.enum(['admin', 'editor', 'reader'])]. *)
Definition role_enum (role : string) : option app_role :=
  if bool_decide (role = "admin") then Some admin
  else if bool_decide (role = "editor") then Some editor
  else if bool_decide (role = "reader") then Some reader
  else None.

(** [inviteSchema.safeParse({ email, role })], with the first issue on
    failure. *)
Definition inviteSchema (email role : string) : schema_error + app_role :=
  if negb (is_email email) then inl EmailInvalide
  else if bool_decide (255 < String.length email)%nat then inl EmailTropLong
  else match role_enum role with
       | None => inl InvalidEnumValue
       | Some r => inr r
       end.

(** The profiles with this email that the requester can read. *)
Definition existing_profiles (db : database) (user : option uuid) (email : string)
    : list profile :=
  Sql.select (fun p => Sql.eq (p_email p) (Some email)) (select_profiles db user).

(** The invitations for this email with [accepted_at IS NULL]. *)
Definition existing_invites (db : database) (user : option uuid) (email : string)
    : list invitation :=
  Sql.select (fun i => Sql.eq (Some (inv_email i)) (Some email)
                       AND Sql.lit (bool_decide (inv_accepted_at i = None)))
             (select_invitations db user).

(** [handleSubmit].  [now], [new_id] and [new_token] are the column
    defaults the store fills in: the clock, [gen_random_uuid()] and
    [encode(gen_random_bytes(32), 'hex')]. *)
Definition handleSubmit (user : option uuid) (email role : string)
    (now : timestamp) (new_id : uuid) (new_token : string) (db : database)
    : database * result :=
  match inviteSchema email role with
  | inl e => (db, Invalid e)
  | inr r =>
      match data (maybeSingle (existing_profiles db user email)) with
      | Some _ => (db, EmailDejaEnregistre)
      | None =>
          match data (maybeSingle (existing_invites db user email)) with
          | Some _ => (db, InvitationDejaEnAttente)
          | None =>
              match insert_invitation db user
                      {| inv_id := new_id; inv_email := email; inv_role := r;
                         inv_token := new_token; inv_invited_by := user;
                         inv_accepted_at := None;
                         inv_expires_at := now + seven_days;
                         inv_created_at := now |} with
              | Some db' => (db', InvitationCreee new_token)
              | None => (db, InsertFailed)
              end
          end
      end
  end.

End Dialog.

End InviteUserDialog.

(** ** Invitations: acceptance (AcceptInvite) *)

Module AcceptInvite.

(** What the page shows after loading: 'Lien d'invitation invalide',
    'Invitation introuvable ou invalide', 'Cette invitation a deja ete
    utilisee', 'Cette invitation a expire', or the form. *)
Inductive load_result :=
  | LienInvalide
  | Introuvable
  | DejaUtilisee
  | Expiree
  | Loaded (i : invitation).

(** [fetchInvitation]: the checks made when the page is displayed. *)
Definition fetchInvitation (db : database) (uid : option uuid) (token : string)
    (now : timestamp) : load_result :=
  match data (maybeSingle
                (Sql.select (fun i => Sql.eq (Some (inv_token i)) (Some token))
                            (select_invitations db uid))) with
  | None => Introuvable
  | Some i =>
      match inv_accepted_at i with
      | Some _ => DejaUtilisee
      | None => if inv_expires_at i <? now then Expiree else Loaded i
      end
  end.

(** The effect run on mount: a missing or empty [token] parameter is an
    invalid link. *)
Definition load (db : database) (uid : option uuid) (token : option string)
    (now : timestamp) : load_result :=
  match token with
  | None => LienInvalide
  | Some t => if bool_decide (t = "") then LienInvalide else fetchInvitation db uid t now
  end.

(** The [invitation] state of the page after loading. *)
Definition form_invitation (r : load_result) : option invitation :=
  match r with Loaded i => Some i | _ => None end.

Inductive form_error :=
  | NomTropCourt | NomTropLong | MotDePasseTropCourt | MotsDePasseDifferents.

(** [signupSchema.safeParse], with the first issue on failure. *)
Definition signupSchema (fullName password confirmPassword : string) : option form_error :=
  if bool_decide (String.length fullName < 2)%nat then Some NomTropCourt
  else if bool_decide (100 < String.length fullName)%nat then Some NomTropLong
  else if bool_decide (String.length password < 8)%nat then Some MotDePasseTropCourt
  else if bool_decide (password <> confirmPassword) then Some MotsDePasseDifferents
  else None.

(** Answers of the services to the three requests of [handleSubmit]:
    the authentication service's [signUp], the store's [roleError] for
    the insert into [user_roles], and whether the store applies the
    update of [accepted_at] (its result is not read; the only policy that
    covers UPDATE on [invitations] is the super_admin one, so the store
    applies it for a super_admin's session only). *)
Inductive signup_response := SignUpError | SignUpNoUser | SignUpUser (id : uuid).

Record responses := {
  signUp : signup_response;
  roleError : bool;
  stamp_applied : bool;
}.

Inductive result :=
  | FormError (e : form_error)
  | NoInvitation
  | SignUpFailed
  | RoleFailed
  | CompteCree.

Definition stamp (id : uuid) (now : timestamp) (i : invitation) : invitation :=
  if bool_decide (inv_id i = id)
  then {| inv_id := inv_id i; inv_email := inv_email i; inv_role := inv_role i;
          inv_token := inv_token i; inv_invited_by := inv_invited_by i;
          inv_accepted_at := Some now;
          inv_expires_at := inv_expires_at i; inv_created_at := inv_created_at i |}
  else i.

(** [handleSubmit], on the [invitation] state the page holds. *)
Definition handleSubmit (invitation : option invitation)
    (fullName password confirmPassword : string) (env : responses)
    (now : timestamp) (db : database) : database * result :=
  match signupSchema fullName password confirmPassword with
  | Some e => (db, FormError e)
  | None =>
      match invitation with
      | None => (db, NoInvitation)
      | Some inv =>
          match signUp env with
          | SignUpError | SignUpNoUser => (db, SignUpFailed)
          | SignUpUser id =>
              let db1 := with_auth_users db
                (auth_users db ++ [{| au_id := id; au_email := inv_email inv;
                                      au_full_name := fullName |}]) in
              if roleError env then (db1, RoleFailed)
              else
                let db2 := with_user_roles db1
                  (user_roles db1 ++ [{| ur_user_id := id; ur_role := inv_role inv |}]) in
                let db3 :=
                  if stamp_applied env
                  then with_invitations db2 (stamp (inv_id inv) now <$> invitations db2)
                  else db2 in
                (db3, CompteCree)
          end
      end
  end.

End AcceptInvite.

(** ** The invitation flow as a transition system

    A state is the store together with what the open pages hold: the
    invitations shown by acceptance pages, the submissions of the
    invitation dialog that are under way, and the acceptances that are
    under way.  Every transition is one request to the store or to the
    authentication service, so requests of different pages interleave. *)

(** A submission of the invitation dialog between its requests: the form
    was valid and the read of the profiles, then the read of the
    invitations, came back without data. *)
Inductive submission :=
  | ProfilesRead (user : option uuid) (email : string) (r : app_role)
  | InvitesRead (user : option uuid) (email : string) (r : app_role).

(** An acceptance between its requests: the sign-up returned the account
    [id], then the role insertion returned without error. *)
Inductive acceptance :=
  | SignedUp (inv : invitation) (id : uuid)
  | RoleInserted (inv : invitation) (id : uuid).

Record world := {
  w_db : database;
  w_forms : list invitation;
  w_submissions : list submission;
  w_acceptances : list acceptance;
}.

(** The row an invitation dialog asks the store to insert. *)
Definition new_invitation (user : option uuid) (email : string) (r : app_role)
    (now : timestamp) (new_id : uuid) (new_token : string) : invitation :=
  {| inv_id := new_id; inv_email := email; inv_role := r; inv_token := new_token;
     inv_invited_by := user; inv_accepted_at := None;
     inv_expires_at := now + seven_days; inv_created_at := now |}.

Section Flow.
Variable is_email : string -> bool.

Inductive step : world -> world -> Prop :=
  (* InviteUserDialog.handleSubmit: the read of the profiles *)
  | step_read_profiles w user email role r :
      InviteUserDialog.inviteSchema is_email email role = inr r ->
      data (maybeSingle (InviteUserDialog.existing_profiles (w_db w) user email)) = None ->
      step w {| w_db := w_db w; w_forms := w_forms w;
                w_submissions := ProfilesRead user email r :: w_submissions w;
                w_acceptances := w_acceptances w |}
  (* the read of the unaccepted invitations *)
  | step_read_invites w user email r l1 l2 :
      w_submissions w = l1 ++ ProfilesRead user email r :: l2 ->
      data (maybeSingle (InviteUserDialog.existing_invites (w_db w) user email)) = None ->
      step w {| w_db := w_db w; w_forms := w_forms w;
                w_submissions := l1 ++ InvitesRead user email r :: l2;
                w_acceptances := w_acceptances w |}
  (* the insert *)
  | step_insert w user email r now new_id new_token l1 l2 :
      w_submissions w = l1 ++ InvitesRead user email r :: l2 ->
      step w {| w_db := match insert_invitation (w_db w) user
                                (new_invitation user email r now new_id new_token) with
                        | Some db' => db'
                        | None => w_db w
                        end;
                w_forms := w_forms w;
                w_submissions := l1 ++ l2;
                w_acceptances := w_acceptances w |}
  (* a submission ends without its next request: a read came back with a
     row, or the dialog was closed *)
  | step_end_submission w s l1 l2 :
      w_submissions w = l1 ++ s :: l2 ->
      step w {| w_db := w_db w; w_forms := w_forms w;
                w_submissions := l1 ++ l2;
                w_acceptances := w_acceptances w |}
  (* the team page's handleDeleteInvitation *)
  | step_revoke w user id :
      step w {| w_db := delete_invitation (w_db w) user id; w_forms := w_forms w;
                w_submissions := w_submissions w;
                w_acceptances := w_acceptances w |}
  (* the acceptance page loads an invitation *)
  | step_open w uid token now i :
      AcceptInvite.load (w_db w) uid token now = AcceptInvite.Loaded i ->
      step w {| w_db := w_db w; w_forms := i :: w_forms w;
                w_submissions := w_submissions w;
                w_acceptances := w_acceptances w |}
  (* AcceptInvite.handleSubmit: the sign-up *)
  | step_sign_up w i fullName password confirmPassword id :
      i ∈ w_forms w ->
      AcceptInvite.signupSchema fullName password confirmPassword = None ->
      step w {| w_db := with_auth_users (w_db w)
                          (auth_users (w_db w)
                           ++ [{| au_id := id; au_email := inv_email i;
                                  au_full_name := fullName |}]);
                w_forms := w_forms w;
                w_submissions := w_submissions w;
                w_acceptances := SignedUp i id :: w_acceptances w |}
  (* the insert of the role *)
  | step_insert_role w i id l1 l2 :
      w_acceptances w = l1 ++ SignedUp i id :: l2 ->
      step w {| w_db := with_user_roles (w_db w)
                          (user_roles (w_db w)
                           ++ [{| ur_user_id := id; ur_role := inv_role i |}]);
                w_forms := w_forms w;
                w_submissions := w_submissions w;
                w_acceptances := l1 ++ RoleInserted i id :: l2 |}
  (* an acceptance ends without its next request: the role insertion was
     refused, or the page was closed *)
  | step_end_acceptance w a l1 l2 :
      w_acceptances w = l1 ++ a :: l2 ->
      step w {| w_db := w_db w; w_forms := w_forms w;
                w_submissions := w_submissions w;
                w_acceptances := l1 ++ l2 |}
  (* the update of accepted_at, applied by the store or not *)
  | step_stamp w i id now (applied : bool) l1 l2 :
      w_acceptances w = l1 ++ RoleInserted i id :: l2 ->
      step w {| w_db := if applied
                        then with_invitations (w_db w)
                               (AcceptInvite.stamp (inv_id i) now <$> invitations (w_db w))
                        else w_db w;
                w_forms := w_forms w;
                w_submissions := w_submissions w;
                w_acceptances := l1 ++ l2 |}.

(** The states reached from a store [db0] that holds no invitation. *)
Inductive reachable (db0 : database) : world -> Prop :=
  | reachable_init :
      invitations db0 = [] ->
      reachable db0 {| w_db := db0; w_forms := []; w_submissions := [];
                       w_acceptances := [] |}
  | reachable_step w w' :
      reachable db0 w -> step w w' -> reachable db0 w'.

End Flow.

(** The roles an invitation may carry. *)
Definition invitable (r : app_role) : Prop := r = admin \/ r = editor \/ r = reader.

(** ** Vocabulary of the statements *)

(** The user has a row of [user_roles] with this role. *)
Definition holds_role (db : database) (u : uuid) (r : app_role) : Prop :=
  {| ur_user_id := u; ur_role := r |} ∈ user_roles db.

(** The user has no row of [user_roles]. *)
Definition no_role (db : database) (u : uuid) : Prop :=
  Forall (fun ur => ur_user_id ur <> u) (user_roles db).

(** The user's profile is deactivated. *)
Definition inactive (db : database) (u : uuid) : Prop :=
  Exists (fun p => p_id p = u /\ p_is_active p = false) (profiles db).

(** A grant for (folder, user) is recorded. *)
Definition has_grant (db : database) (folderId u : uuid) : Prop :=
  {| fp_folder_id := folderId; fp_user_id := u |} ∈ folder_permissions db.

(** The user created a folder with this id. *)
Definition created_folder (db : database) (folderId u : uuid) : Prop :=
  Exists (fun f => f_id f = folderId /\ f_created_by f = Some u) (folders db).

(** The user created a folder with this id and the folder passes the read
    policy for the user. *)
Definition created_visible_folder (db : database) (folderId u : uuid) : Prop :=
  Exists (fun f => f_id f = folderId /\ f_created_by f = Some u
                   /\ canView db (Some u) f = true) (folders db).

(** Every stored folder with this id passes the read policy for the
    requester. *)
Definition may_view_folder (db : database) (uid : option uuid) (folderId : uuid) : Prop :=
  Forall (fun f => f_id f = folderId -> canView db uid f = true) (folders db).

(** Every stored folder with this id belongs to the user. *)
Definition owns_folder (db : database) (folderId u : uuid) : Prop :=
  Forall (fun f => f_id f = folderId -> f_user_id f = Some u) (folders db).

(** The requester passes "Admins can delete folders". *)
Definition may_delete_folders (db : database) (uid : option uuid) : Prop :=
  exists u, uid = Some u /\ (holds_role db u super_admin \/ holds_role db u admin).

(** The capabilities the client derives for a signed-in user. *)
Definition capabilities_of (db : database) (u : uuid) : PermissionsContextType :=
  PermissionsProvider (fetchRole db (Some u)).

(** Every document with a folder reference points to a stored folder. *)
Definition references_resolve (db : database) : Prop :=
  Forall (fun d => forall id, doc_folder_id d = Some id -> id ∈ f_id <$> folders db)
         (documents db).

(** The store after an administrator's edit of the profiles. *)
Definition with_profiles (db : database) (l : list profile) : database :=
  {| user_roles := user_roles db; profiles := l; folders := folders db;
     folder_permissions := folder_permissions db; documents := documents db;
     invitations := invitations db; auth_users := auth_users db |}.

(** The profiles that carry this e-mail. *)
Definition accounts_with (db : database) (email : string) : list profile :=
  filter (fun p => p_email p = Some email) (profiles db).

(** The invitations for this e-mail that nobody accepted, expired or not. *)
Definition unaccepted_for (db : database) (email : string) : list invitation :=
  filter (fun i => inv_email i = email /\ inv_accepted_at i = None) (invitations db).

Definition submission_role (s : submission) : app_role :=
  match s with ProfilesRead _ _ r | InvitesRead _ _ r => r end.

Definition acceptance_invitation (a : acceptance) : invitation :=
  match a with SignedUp i _ | RoleInserted i _ => i end.

(** What the invitation flow keeps true: stored invitations, the ones
    held by open pages and the ones of the submissions and acceptances
    under way carry an invitable role, and every role record is one of the
    initial store or carries an invitable role. *)
Definition flow_invariant (db0 : database) (w : world) : Prop :=
  Forall (fun i => invitable (inv_role i)) (invitations (w_db w))
  /\ Forall (fun i => invitable (inv_role i)) (w_forms w)
  /\ Forall (fun ur => ur ∈ user_roles db0 \/ invitable (ur_role ur)) (user_roles (w_db w))
  /\ Forall (fun s => invitable (submission_role s)) (w_submissions w)
  /\ Forall (fun a => invitable (inv_role (acceptance_invitation a))) (w_acceptances w).

(** ** A small installation, for the examples *)

Module Demo.

Definition team_folder : folder :=
  {| f_id := "f-team"; f_name := "Handbook"; f_user_id := Some "erin";
     f_access_level := team; f_created_by := Some "erin" |}.

(** Folders made before [created_by] existed have it NULL. *)
Definition old_private_folder : folder :=
  {| f_id := "f-old"; f_name := "Archive"; f_user_id := Some "bob";
     f_access_level := private; f_created_by := None |}.

Definition old_custom_folder : folder :=
  {| f_id := "f-cust"; f_name := "Contracts"; f_user_id := Some "rick";
     f_access_level := custom; f_created_by := None |}.

Definition erin_folder : folder :=
  {| f_id := "f-erin"; f_name := "Drafts"; f_user_id := Some "erin";
     f_access_level := custom; f_created_by := Some "erin" |}.

(** A private folder made by erin through the documents page. *)
Definition erin_private_folder : folder :=
  {| f_id := "f-priv"; f_name := "Plans"; f_user_id := Some "erin";
     f_access_level := private; f_created_by := Some "erin" |}.

Definition zoe_invitation : invitation :=
  {| inv_id := "i-zoe"; inv_email := "zoe@example.com"; inv_role := editor;
     inv_token := "t-zoe"; inv_invited_by := Some "root";
     inv_accepted_at := None;
     inv_expires_at := 1000 + seven_days; inv_created_at := 1000 |}.

Definition db : database :=
  {| user_roles :=
       [ {| ur_user_id := "root"; ur_role := super_admin |};
         {| ur_user_id := "bob"; ur_role := admin |};
         {| ur_user_id := "dave"; ur_role := admin |};
         {| ur_user_id := "erin"; ur_role := editor |};
         {| ur_user_id := "rick"; ur_role := reader |} ];
     profiles :=
       [ {| p_id := "root"; p_email := Some "root@example.com";
            p_full_name := Some "Root"; p_is_active := true |};
         {| p_id := "bob"; p_email := Some "bob@example.com";
            p_full_name := Some "Bob"; p_is_active := true |};
         {| p_id := "dave"; p_email := Some "dave@example.com";
            p_full_name := Some "Dave"; p_is_active := false |};
         {| p_id := "erin"; p_email := Some "erin@example.com";
            p_full_name := Some "Erin"; p_is_active := true |};
         {| p_id := "rick"; p_email := Some "rick@example.com";
            p_full_name := Some "Rick"; p_is_active := true |};
         {| p_id := "carol"; p_email := Some "carol@example.com";
            p_full_name := Some "Carol"; p_is_active := true |} ];
     folders := [team_folder; old_private_folder; old_custom_folder; erin_folder];
     folder_permissions := [ {| fp_folder_id := "f-erin"; fp_user_id := "rick" |} ];
     documents :=
       [ {| doc_id := "d1"; doc_name := "rules.pdf"; doc_user_id := "erin";
            doc_folder_id := Some "f-team" |};
         {| doc_id := "d2"; doc_name := "draft.txt"; doc_user_id := "erin";
            doc_folder_id := Some "f-erin" |};
         {| doc_id := "d3"; doc_name := "notes.md"; doc_user_id := "erin";
            doc_folder_id := None |} ];
     invitations := [zoe_invitation];
     auth_users :=
       [ {| au_id := "root"; au_email := "root@example.com"; au_full_name := "Root" |};
         {| au_id := "bob"; au_email := "bob@example.com"; au_full_name := "Bob" |};
         {| au_id := "dave"; au_email := "dave@example.com"; au_full_name := "Dave" |};
         {| au_id := "erin"; au_email := "erin@example.com"; au_full_name := "Erin" |};
         {| au_id := "rick"; au_email := "rick@example.com"; au_full_name := "Rick" |};
         {| au_id := "carol"; au_email := "carol@example.com"; au_full_name := "Carol" |} ] |}.

(** A stand-in for the e-mail test of the form validation. *)
Definition is_email (s : string) : bool :=
  match String.index 0 "@" s with Some _ => true | None => false end.

(** All three requests of the acceptance succeed. *)
Definition all_good (id : uuid) : AcceptInvite.responses :=
  {| AcceptInvite.signUp := AcceptInvite.SignUpUser id;
     AcceptInvite.roleError := false;
     AcceptInvite.stamp_applied := true |}.

(** Eight days after the invitation for zoe was made. *)
Definition day8 : timestamp := 1000 + 8 * 24 * 60 * 60 * 1000.
Definition day1 : timestamp := 1000 + 1 * 24 * 60 * 60 * 1000.

(** A store with no invitation yet. *)
Definition db0 : database := with_invitations db [].

(** amy is invited as admin, opens her link and accepts. *)
Definition amy_invitation : invitation :=
  new_invitation (Some "root") "amy@example.com" admin 1000 "i-amy" "t-amy".

Definition invited : world :=
  {| w_db := fst (InviteUserDialog.handleSubmit is_email (Some "root")
                    "amy@example.com" "admin" 1000 "i-amy" "t-amy" db0);
     w_forms := []; w_submissions := []; w_acceptances := [] |}.

Definition opened : world :=
  {| w_db := w_db invited; w_forms := [amy_invitation];
     w_submissions := []; w_acceptances := [] |}.

Definition accepted : world :=
  {| w_db := fst (AcceptInvite.handleSubmit (Some amy_invitation)
                    "Amy Ames" "correct horse" "correct horse" (all_good "amy")
                    day1 (w_db opened));
     w_forms := w_forms opened; w_submissions := []; w_acceptances := [] |}.

(** The documents page, opened on erin's folder. *)
Definition page : documents_page :=
  {| pg_documents := documents db; pg_folders := folders db;
     pg_currentFolderId := Some "f-erin" |}.

End Demo.

(** * The rest of the authorization code *)

(** ** More of the migrations *)

(** [get_user_role(_user_id)]: the role of the first row found, NULL when
    the user has none. *)
Definition get_user_role (db : database) (_user_id : option uuid) : option app_role :=
  ur_role <$> head (Sql.select (fun ur => Sql.eq (Some (ur_user_id ur)) _user_id)
                               (user_roles db)).

(** [UNIQUE (user_id)] on [user_roles]. *)
Definition unique_user_roles (db : database) : Prop :=
  NoDup (ur_user_id <$> user_roles db).

(** [can_access_folder(_user_id, _folder_id)]. *)
Definition can_access_folder (db : database) (_user_id : option uuid) (_folder_id : uuid)
    : Sql.tri :=
  Sql.exists_ (folders db) (fun f =>
    Sql.eq (Some (f_id f)) (Some _folder_id)
    AND Sql.eq (f_user_id f) _user_id
    AND (has_role db _user_id super_admin
         OR Sql.eq (Some (f_access_level f)) (Some team)
         OR (Sql.eq (Some (f_access_level f)) (Some private)
             AND (Sql.eq (f_created_by f) _user_id OR has_role db _user_id super_admin))
         OR (Sql.eq (Some (f_access_level f)) (Some custom)
             AND has_folder_permission db _folder_id _user_id))).

(** Policies ON user_roles: "Super admins can manage all roles" FOR ALL,
    "Users can view own role" and "Admins can view all roles" FOR SELECT. *)
Definition user_roles_manage_policy (db : database) (uid : option uuid) (ur : user_role)
    : Sql.tri :=
  has_role db uid super_admin.

Definition user_roles_own_policy (db : database) (uid : option uuid) (ur : user_role)
    : Sql.tri :=
  Sql.eq uid (Some (ur_user_id ur)).

Definition user_roles_admin_policy (db : database) (uid : option uuid) (ur : user_role)
    : Sql.tri :=
  has_role db uid admin.

Definition user_roles_select_policy (db : database) (uid : option uuid) (ur : user_role)
    : Sql.tri :=
  user_roles_manage_policy db uid ur OR user_roles_own_policy db uid ur
  OR user_roles_admin_policy db uid ur.

Definition select_user_roles (db : database) (uid : option uuid) : list user_role :=
  Sql.select (user_roles_select_policy db uid) (user_roles db).

(** ** The resolver as a table of thresholds *)

(** The least role that the resolver's rule for a capability lets through. *)
Definition threshold (c : capability) : app_role :=
  match c with
  | CanManageUsers | CanManageBilling => super_admin
  | CanViewUsers | CanDeleteFolders | CanDeleteDocuments
  | CanViewAllConversations | CanAccessSettings => admin
  | CanCreateFolders | CanRenameFolders | CanUploadDocuments
  | CanRenameDocuments | CanExportConversations => editor
  | CanUseChat => reader
  end.

(** ** The sidebar and the guards of the team and settings pages *)

Module Sidebar.

Record nav_item := {
  label : string;
  href : string;
  show : bool;
}.

Definition navItems (p : PermissionsContextType) : list nav_item :=
  [ {| label := "Dashboard"; href := "/dashboard"; show := true |};
    {| label := "Documents"; href := "/documents"; show := true |};
    {| label := "Chatbot"; href := "/chat"; show := true |};
    {| label := "Équipe"; href := "/team"; show := canManageUsers p |};
    {| label := "Paramètres"; href := "/settings"; show := canAccessSettings p |} ].

Definition visibleItems (p : PermissionsContextType) : list nav_item :=
  filter (fun item => show item = true) (navItems p).

End Sidebar.

(** The effect of the team page: [!permLoading && !canManageUsers] sends
    the visitor to the dashboard. *)
Definition team_redirects (permLoading : bool) (p : PermissionsContextType) : bool :=
  negb permLoading && negb (canManageUsers p).

(** The effect of the settings page:
    [!permLoading && !canAccessSettings && role !== null]. *)
Definition settings_redirects (permLoading : bool) (p : PermissionsContextType) : bool :=
  negb permLoading && negb (canAccessSettings p) && bool_decide (role p <> None).

(** ** Invitations on the team page *)

(** [UNIQUE (token)] and [PRIMARY KEY (id)] on [invitations]. *)
Definition unique_tokens (db : database) : Prop :=
  NoDup (inv_token <$> invitations db).

Definition unique_invitation_ids (db : database) : Prop :=
  NoDup (inv_id <$> invitations db).

(** [handleDeleteInvitation] of the team page, on the list the page
    shows.  [store_error] is the [error] of the request; the last
    component tells whether the page announces the removal. *)
Definition handleDeleteInvitation (uid : option uuid) (store_error : bool)
    (db : database) (shown : list invitation) (id : uuid)
    : database * list invitation * bool :=
  if store_error then (db, shown, false)
  else (delete_invitation db uid id, filter (fun i => inv_id i <> id) shown, true).

(** ** The access dialog of a folder (FolderAccessDialog) *)

Definition with_folders (db : database) (l : list folder) : database :=
  {| user_roles := user_roles db; profiles := profiles db; folders := l;
     folder_permissions := folder_permissions db; documents := documents db;
     invitations := invitations db; auth_users := auth_users db |}.

Module FolderAccessDialog.

(** The store's answer to [UPDATE folders SET access_level]: the policies
    for UPDATE on [folders] are not among the migrations here, so whether
    the request fails ([updateError]) and whether the row is changed
    ([level_applied]) are inputs.  The store changes only a row that the
    requester may also read. *)
Record responses := {
  updateError : bool;
  level_applied : bool;
}.

(** 'Acces mis a jour', or the error toast. *)
Inductive result := AccesMisAJour | Erreur.

Definition set_access_level (folderId : uuid) (accessLevel : folder_access_level)
    (f : folder) : folder :=
  if bool_decide (f_id f = folderId)
  then {| f_id := f_id f; f_name := f_name f; f_user_id := f_user_id f;
          f_access_level := accessLevel; f_created_by := f_created_by f |}
  else f.

(** [selectedUsers.map(userId => ({ folder_id: folderId, user_id: userId }))]. *)
Definition grant_rows (folderId : uuid) (selectedUsers : list uuid)
    : list folder_permission :=
  (fun userId => {| fp_folder_id := folderId; fp_user_id := userId |}) <$> selectedUsers.

(** [handleSave]. *)
Definition handleSave (uid : option uuid) (folderId : uuid)
    (accessLevel : folder_access_level) (selectedUsers : list uuid)
    (env : responses) (db : database) : database * result :=
  if updateError env then (db, Erreur)
  else
    let db1 :=
      if level_applied env
      then with_folders db (set_access_level folderId accessLevel <$> folders db)
      else db in
    match accessLevel with
    | custom =>
        let db2 := delete_folder_permissions db1 uid folderId in
        match selectedUsers with
        | [] => (db2, AccesMisAJour)
        | _ =>
            match insert_folder_permissions db2 uid (grant_rows folderId selectedUsers) with
            | Some db3 => (db3, AccesMisAJour)
            | None => (db2, Erreur)
            end
        end
    | _ => (delete_folder_permissions db1 uid folderId, AccesMisAJour)
    end.

(** The grants a requester can read. *)
Definition select_folder_permissions (db : database) (uid : option uuid)
    : list folder_permission :=
  Sql.select (folder_permissions_select_policy db uid) (folder_permissions db).

(** [fetchData]: the users offered, and the users ticked when the dialog
    opens. *)
Definition fetch_users (db : database) (uid : option uuid) : list profile :=
  Sql.select (fun p => Sql.eq (Some (p_is_active p)) (Some true)) (select_profiles db uid).

Definition fetch_selectedUsers (db : database) (uid : option uuid) (folderId : uuid)
    (currentAccessLevel : folder_access_level) : list uuid :=
  match currentAccessLevel with
  | custom =>
      fp_user_id <$> Sql.select (fun fp => Sql.eq (Some (fp_folder_id fp)) (Some folderId))
                                (select_folder_permissions db uid)
  | _ => []
  end.

End FolderAccessDialog.

(** The store after the first request of a save. *)
Definition after_level (db : database) (folderId : uuid)
    (env : FolderAccessDialog.responses) (lv : folder_access_level) : database :=
  if FolderAccessDialog.level_applied env
  then with_folders db (FolderAccessDialog.set_access_level folderId lv <$> folders db)
  else db.

(** The requester is one of those the FOR ALL policies of
    [folder_permissions] name for the grants of this folder: a super_admin,
    an admin, or the creator of the folder. *)
Definition may_manage_grants (db : database) (uid : option uuid) (folderId : uuid) : Prop :=
  exists u, uid = Some u
            /\ (holds_role db u super_admin \/ holds_role db u admin
                \/ created_folder db folderId u).

(** A super_admin, an admin, or the creator of the folder who also owns
    it: the requesters who pass the policies of [folder_permissions] for
    the grants of this folder whatever its level and its grants are. *)
Definition entitled_at_every_level (db : database) (uid : option uuid) (folderId : uuid)
    : Prop :=
  exists u, uid = Some u
            /\ (holds_role db u super_admin \/ holds_role db u admin
                \/ (created_folder db folderId u /\ owns_folder db folderId u)).

(** Grants are recorded for custom folders only. *)
Definition grants_only_for_custom (db : database) : Prop :=
  forall fp f, fp ∈ folder_permissions db -> f ∈ folders db ->
               f_id f = fp_folder_id fp -> f_access_level f = custom.

(** ** The documents page: what is listed *)

(** [documents.filter(d => d.folder_id === currentFolderId)]. *)
Definition currentDocuments (pg : documents_page) : list document :=
  filter (fun d => doc_folder_id d = pg_currentFolderId pg) (pg_documents pg).

(** [documents.filter(d => d.folder_id === folder.id).length], the count
    on a folder card. *)
Definition documentCount (pg : documents_page) (f : folder) : nat :=
  length (filter (fun d => doc_folder_id d = Some (f_id f)) (pg_documents pg)).

(** ** The team page *)

Module Team.

Record TeamMember := {
  tm_user_id : uuid;
  tm_email : option string;
  tm_full_name : option string;
  tm_role : string;
  tm_is_active : bool;
}.

Global Instance TeamMember_eq_dec : EqDecision TeamMember.
Proof. solve_decision. Defined.

(** The labels of the enumeration [app_role]. *)
Definition role_name (r : app_role) : string :=
  match r with
  | super_admin => "super_admin"
  | admin => "admin"
  | editor => "editor"
  | reader => "reader"
  end.

(** The store reading a text as an [app_role]; a text outside the
    enumeration is an error. *)
Definition role_of_name (s : string) : option app_role :=
  if bool_decide (s = "super_admin") then Some super_admin
  else if bool_decide (s = "admin") then Some admin
  else if bool_decide (s = "editor") then Some editor
  else if bool_decide (s = "reader") then Some reader
  else None.

(** [new Map(roles.map(r => [r.user_id, r.role])).get(id)]: of several
    entries for one key the last stays. *)
Definition rolesMap_get (roles : list user_role) (id : uuid) : option app_role :=
  ur_role <$> last (filter (fun r => ur_user_id r = id) roles).

(** [fetchData]: the members shown, one per readable profile, with the
    role read from [user_roles] or 'reader' when none is found. *)
Definition fetch_members (db : database) (uid : option uuid) : list TeamMember :=
  (fun p =>
     {| tm_user_id := p_id p;
        tm_email := p_email p;
        tm_full_name := p_full_name p;
        tm_role := match rolesMap_get (select_user_roles db uid) (p_id p) with
                   | Some r => role_name r
                   | None => "reader"
                   end;
        tm_is_active := p_is_active p |}) <$> select_profiles db uid.

(** The actions menu of a row is offered when
    [member.user_id !== user?.id && member.role !== 'super_admin']. *)
Definition actions_offered (me : option uuid) (m : TeamMember) : bool :=
  bool_decide (Some (tm_user_id m) <> me) && bool_decide (tm_role m <> "super_admin").

(** The values of the role selector of the edit dialog. *)
Definition role_options : list string := ["admin"; "editor"; "reader"].

Record page := {
  members : list TeamMember;
  editRoleUserId : option uuid;
  newRole : string;
}.

(** [UPDATE user_roles SET role = r WHERE user_id = _user_id], on the
    rows the FOR ALL policy lets the requester change (the read policies
    include that policy, and the new row is checked against the same
    condition, which does not look at the row). *)
Definition update_user_role (db : database) (uid : option uuid) (_user_id : uuid)
    (r : app_role) : database :=
  with_user_roles db
    ((fun ur =>
        if bool_decide (ur_user_id ur = _user_id
                        /\ Sql.holds (user_roles_manage_policy db uid ur) = true)
        then {| ur_user_id := ur_user_id ur; ur_role := r |}
        else ur) <$> user_roles db).

(** The toast of [handleChangeRole]: 'Role modifie' or the error. *)
Inductive toast := RoleModifie | ErreurRole.

(** [handleChangeRole]. *)
Definition handleChangeRole (uid : option uuid) (db : database) (pg : page)
    : database * page * option toast :=
  match editRoleUserId pg with
  | None => (db, pg, None)
  | Some id =>
      if bool_decide (id = "") || bool_decide (newRole pg = "") then (db, pg, None)
      else
        match role_of_name (newRole pg) with
        | None =>
            (db, {| members := members pg; editRoleUserId := None; newRole := "" |},
             Some ErreurRole)
        | Some r =>
            (update_user_role db uid id r,
             {| members :=
                  (fun m => if bool_decide (tm_user_id m = id)
                            then {| tm_user_id := tm_user_id m; tm_email := tm_email m;
                                    tm_full_name := tm_full_name m;
                                    tm_role := newRole pg;
                                    tm_is_active := tm_is_active m |}
                            else m) <$> members pg;
                editRoleUserId := None; newRole := "" |},
             Some RoleModifie)
        end
  end.

(** Opening the edit dialog from a row, then picking [choice] in the
    selector, or keeping the shown role. *)
Definition edit_dialog (pg : page) (m : TeamMember) (choice : option string) : page :=
  {| members := members pg;
     editRoleUserId := Some (tm_user_id m);
     newRole := match choice with Some c => c | None => tm_role m end |}.

End Team.

(** ** The edge functions in front of the n8n webhooks *)

(** A text stands for its sequence of code units: [String.length] is the
    [length] of the source and [substring 0 n] its [slice(0, n)]. *)
Definition slice0 (n : nat) (s : string) : string := String.substring 0 n s.

(** [s.startsWith(p)]. *)
Definition startsWith (s p : string) : bool := String.prefix p s.

Module N8nChat.

(** A parsed JSON value, as [req.json()] and [response.json()] give it. Of a
    number only its being a number is read. *)
Unset Elimination Schemes.
Inductive json :=
| JNull
| JBool (b : bool)
| JNumber (n : Z)
| JString (s : string)
| JArray (items : list json)
| JObject (fields : list (string * json)).
Set Elimination Schemes.

Definition MAX_MESSAGE_LENGTH : nat := 4000.
Definition MAX_HISTORY_MESSAGES : nat := 50.

(** Reading a member [v.k]; [None] is [undefined]. Only objects carry the
    members read here (text, conversation_history, role, content), and of
    several members of one name the parser keeps the last. *)
Definition member (k : string) (v : json) : option json :=
  match v with
  | JObject fields => snd <$> last (filter (fun f => fst f = k) fields)
  | _ => None
  end.

Record message := { msg_role : string; msg_content : string }.

Record request := {
  method : string;
  authorization : option string;   (* req.headers.get('Authorization') *)
  body : option json;              (* req.json(), None when it throws *)
}.

(** What is sent to the webhook. *)
Record payload := {
  text : string;
  user_id : uuid;
  conversation_history : list message;
}.

(** The preflight answer, an error answer with its status, or the
    webhook's data with status 200. *)
Inductive response :=
| Preflight
| Failure (status : Z)
| Success (data : json).

(** The filter and the map over one entry of the history: an entry that
    passes the filter is mapped to its role and its sliced content. *)
Definition validMessage (msg : json) : option message :=
  match member "role" msg, member "content" msg with
  | Some (JString r), Some (JString c) =>
      if bool_decide (String.length c <= MAX_MESSAGE_LENGTH)%nat
      then Some {| msg_role := r; msg_content := slice0 MAX_MESSAGE_LENGTH c |}
      else None
  | _, _ => None
  end.

(** [slice(-MAX_HISTORY_MESSAGES)], the filter and the map, or [] when the
    history is not an array. *)
Definition validatedHistory (conversation_history : option json) : list message :=
  match conversation_history with
  | Some (JArray items) =>
      omap validMessage (drop (length items - MAX_HISTORY_MESSAGES) items)
  | _ => []
  end.

Section Serve.
(** The auth service reading the header: the user, or [None] on an error
    or when there is no user. *)
Variable getUser : string -> option uuid.
(** The webhook: its JSON data when it answers ok, else [None]. *)
Variable webhook : payload -> option json.

(** The handler: the answer, and what was sent to the webhook if anything. *)
Definition serve (req : request) : response * option payload :=
  if bool_decide (method req = "OPTIONS") then (Preflight, None)
  else
    match authorization req with
    | None => (Failure 401, None)
    | Some authHeader =>
        if bool_decide (authHeader = "") then (Failure 401, None)
        else
          match getUser authHeader with
          | None => (Failure 401, None)
          | Some user =>
              match body req with
              | None => (Failure 500, None)
              | Some JNull => (Failure 500, None)
              | Some b =>
                  match member "text" b with
                  | Some (JString t) =>
                      if bool_decide (t = "") then (Failure 400, None)
                      else if bool_decide (MAX_MESSAGE_LENGTH < String.length t)%nat
                      then (Failure 400, None)
                      else
                        let p := {| text := t; user_id := user;
                                    conversation_history :=
                                      validatedHistory (member "conversation_history" b) |} in
                        match webhook p with
                        | None => (Failure 500, Some p)
                        | Some data => (Success data, Some p)
                        end
                  | _ => (Failure 400, None)
                  end
              end
          end
    end.

End Serve.

End N8nChat.

Module N8nUpload.

Record file := { size : Z; name : string }.

(** A form entry is a file or a text. *)
Inductive entry := EFile (f : file) | EString (s : string).

Definition MAX_FILE_SIZE : Z := 50 * 1024 * 1024.

(** [formData.get(k)]: the first entry of that name, [None] for null. *)
Definition get (k : string) (fd : list (string * entry)) : option entry :=
  snd <$> head (filter (fun f => fst f = k) fd).

Record request := {
  method : string;
  authorization : option string;
  formData : option (list (string * entry));   (* None when req.formData() throws *)
}.

(** The form sent to the webhook. *)
Record payload := {
  data : entry;
  user_id : uuid;
  file_path : string;
  file_name : entry;
}.

Inductive response := Preflight | Failure (status : Z) | Success.

Definition truthy (e : entry) : bool :=
  match e with
  | EFile _ => true
  | EString s => negb (bool_decide (s = ""))
  end.

Section Serve.
Variable getUser : string -> option uuid.
(** The webhook: the status of its answer, or [None] when [fetch] throws. *)
Variable webhook : payload -> option Z.

Definition serve (req : request) : response * option payload :=
  if bool_decide (method req = "OPTIONS") then (Preflight, None)
  else
    match authorization req with
    | None => (Failure 401, None)
    | Some authHeader =>
        if bool_decide (authHeader = "") then (Failure 401, None)
        else
          match getUser authHeader with
          | None => (Failure 401, None)
          | Some user =>
              match formData req with
              | None => (Failure 500, None)
              | Some fd =>
                  match get "data" fd, get "file_path" fd, get "file_name" fd with
                  | Some file, Some filePath, Some fileName =>
                      if negb (truthy file && truthy filePath && truthy fileName)
                      then (Failure 400, None)
                      else if match file with
                              | EFile f => bool_decide (MAX_FILE_SIZE < size f)
                              | EString _ => false   (* undefined > MAX_FILE_SIZE *)
                              end
                      then (Failure 400, None)
                      else
                        match filePath with
                        | EFile _ => (Failure 500, None)   (* startsWith is no function *)
                        | EString path =>
                            if negb (startsWith path user) then (Failure 403, None)
                            else
                              let p := {| data := file; user_id := user;
                                          file_path := path; file_name := fileName |} in
                              match webhook p with
                              | None => (Failure 500, Some p)
                              | Some _ => (Success, Some p)
                              end
                        end
                  | _, _, _ => (Failure 400, None)
                  end
              end
          end
    end.

End Serve.

(** [UploadButton.handleFileSelect]: the storage path of a file picked at
    time [now], and the form sent to the function for it. *)
Definition filePath (user : uuid) (now : N) (f : file) : string :=
  user +:+ "/" +:+ pretty now +:+ "_" +:+ name f.

Definition upload_form (user : uuid) (now : N) (f : file) : list (string * entry) :=
  [("data", EFile f); ("file_path", EString (filePath user now f));
   ("file_name", EString (name f))].

End N8nUpload.

(** [createConversation]: the title given to a conversation from its
    first message. *)
Definition conversation_title (firstMessage : string) : string :=
  slice0 50 firstMessage +:+ (if bool_decide (50 < String.length firstMessage)%nat
                              then "..." else "").

(** ** More demonstration data *)

Module Demo2.

(** The store answers both requests of a save without error, and the
    level update is applied. *)
Definition save_ok : FolderAccessDialog.responses :=
  {| FolderAccessDialog.updateError := false;
     FolderAccessDialog.level_applied := true |}.

(** erin as the team page of root lists her. *)
Definition erin_member : Team.TeamMember :=
  {| Team.tm_user_id := "erin"; Team.tm_email := Some "erin@example.com";
     Team.tm_full_name := Some "Erin"; Team.tm_role := "editor";
     Team.tm_is_active := true |}.

Definition team_page : Team.page :=
  {| Team.members := Team.fetch_members Demo.db (Some "root");
     Team.editRoleUserId := None; Team.newRole := "" |}.

(** An auth service that knows one session. *)
Definition getUser (h : string) : option uuid :=
  if bool_decide (h = "Bearer erin-session") then Some "erin" else None.

Definition chat_webhook (p : N8nChat.payload) : option N8nChat.json :=
  Some (N8nChat.JObject [("output", N8nChat.JString "Bonjour")]).

(** A chat request of erin that names root as its user and carries a
    history with one message and one stray entry. *)
Definition chat_request : N8nChat.request :=
  {| N8nChat.method := "POST";
     N8nChat.authorization := Some "Bearer erin-session";
     N8nChat.body :=
       Some (N8nChat.JObject
               [("text", N8nChat.JString "Et ensuite ?");
                ("user_id", N8nChat.JString "root");
                ("conversation_history",
                 N8nChat.JArray
                   [N8nChat.JObject [("role", N8nChat.JString "user");
                                     ("content", N8nChat.JString "Bonjour")];
                    N8nChat.JNull])]) |}.

Definition chat_payload : N8nChat.payload :=
  {| N8nChat.text := "Et ensuite ?"; N8nChat.user_id := "erin";
     N8nChat.conversation_history :=
       [{| N8nChat.msg_role := "user"; N8nChat.msg_content := "Bonjour" |}] |}.

(** The ingestion webhook answers with an error status. *)
Definition upload_webhook (p : N8nUpload.payload) : option Z := Some 500.

Definition rules_pdf : N8nUpload.file :=
  {| N8nUpload.size := 120000; N8nUpload.name := "rules.pdf" |}.

Definition upload_request : N8nUpload.request :=
  {| N8nUpload.method := "POST";
     N8nUpload.authorization := Some "Bearer erin-session";
     N8nUpload.formData := Some (N8nUpload.upload_form "erin" 1700000000000 rules_pdf) |}.

Definition upload_payload : N8nUpload.payload :=
  {| N8nUpload.data := N8nUpload.EFile rules_pdf; N8nUpload.user_id := "erin";
     N8nUpload.file_path := N8nUpload.filePath "erin" 1700000000000 rules_pdf;
     N8nUpload.file_name := N8nUpload.EString "rules.pdf" |}.

End Demo2.

(** Closed decidable facts are settled by evaluation. *)
Ltac by_evaluation := apply (bool_decide_unpack _); vm_compute; exact I.

(** The branch of a handler that returns the store as it was, with an
    outcome other than the one excluded. *)
Ltac store_unchanged :=
  left; split; [reflexivity | intros ? ?H; simpl in *; discriminate].

(** * Properties *)

(** ** Three-valued logic and queries *)

Section SqlFacts.

Lemma holds_or a b : Sql.holds (a OR b) = Sql.holds a || Sql.holds b.
Proof. by destruct a as [[]|], b as [[]|]. Qed.

Lemma holds_and a b : Sql.holds (a AND b) = Sql.holds a && Sql.holds b.
Proof. by destruct a as [[]|], b as [[]|]. Qed.

Lemma holds_lit b : Sql.holds (Sql.lit b) = b.
Proof. by destruct b. Qed.

Lemma holds_eq {A} `{EqDecision A} (a b : option A) :
  Sql.holds (Sql.eq a b) = true <-> exists x, a = Some x /\ b = Some x.
Proof.
  destruct a as [x|], b as [y|]; simpl.
  - case_bool_decide; subst; split; try done.
    + eauto.
    + intros (z & ? & ?); congruence.
  - split; [done | intros (z & ? & ?); congruence].
  - split; [done | intros (z & ? & ?); congruence].
  - split; [done | intros (z & ? & ?); congruence].
Qed.

Lemma holds_eq_Some {A} `{EqDecision A} (x : A) (b : option A) :
  Sql.holds (Sql.eq (Some x) b) = true <-> b = Some x.
Proof.
  rewrite holds_eq. split.
  - intros (z & [= <-] & ->); done.
  - intros ->; eauto.
Qed.

Lemma holds_eq_Some_r {A} `{EqDecision A} (a : option A) (y : A) :
  Sql.holds (Sql.eq a (Some y)) = true <-> a = Some y.
Proof.
  rewrite holds_eq. split.
  - intros (z & -> & [= <-]); done.
  - intros ->; eauto.
Qed.

Lemma holds_eq_None_r {A} `{EqDecision A} (a : option A) :
  Sql.holds (Sql.eq a None) = false.
Proof. by destruct a. Qed.

Lemma elem_of_select {A} (cond : A -> Sql.tri) rows r :
  r ∈ Sql.select cond rows <-> r ∈ rows /\ Sql.holds (cond r) = true.
Proof. unfold Sql.select. rewrite list_elem_of_filter. tauto. Qed.

Lemma holds_exists {A} (rows : list A) cond :
  Sql.holds (Sql.exists_ rows cond) = true
  <-> exists r, r ∈ rows /\ Sql.holds (cond r) = true.
Proof.
  unfold Sql.exists_; simpl. case_bool_decide as Hne; split; try done.
  - intros _. destruct (Sql.select cond rows) as [|r l] eqn:E; [done|].
    exists r. apply elem_of_select. rewrite E. left.
  - intros (r & Hr & Hc).
    assert (r ∈ Sql.select cond rows) as Hin by (apply elem_of_select; done).
    rewrite Hne in Hin. by apply elem_of_nil in Hin.
Qed.

Lemma filter_keeps_all {A} (P : A -> Prop) `{forall x, Decision (P x)} (l : list A) :
  (forall x, x ∈ l -> P x) -> filter P l = l.
Proof.
  induction l as [|x l IH]; intros Hall; [done|].
  rewrite filter_cons_True by (apply Hall; left).
  rewrite IH; [done|]. intros y Hy. apply Hall. by right.
Qed.

Lemma select_all {A} (cond : A -> Sql.tri) rows :
  (forall r, Sql.holds (cond r) = true) -> Sql.select cond rows = rows.
Proof.
  intros Hall. unfold Sql.select. induction rows as [|r rows IH]; [done|].
  rewrite filter_cons_True by apply Hall. by rewrite IH.
Qed.

Lemma select_none {A} (cond : A -> Sql.tri) rows :
  Forall (fun r => Sql.holds (cond r) = false) rows -> Sql.select cond rows = [].
Proof.
  unfold Sql.select. induction 1 as [|r rows Hr _ IH]; [done|].
  rewrite filter_cons_False; [done | congruence].
Qed.

End SqlFacts.

(** ** Roles in the store *)

Section RoleFacts.
Variable db : database.

Lemma has_role_holds (u : uuid) (r : app_role) :
  Sql.holds (has_role db (Some u) r) = true <-> holds_role db u r.
Proof.
  unfold has_role, holds_role. rewrite holds_exists. split.
  - intros ([u' r'] & Hin & Hc). rewrite holds_and in Hc.
    apply andb_true_iff in Hc as [H1 H2].
    apply holds_eq_Some in H1. apply holds_eq_Some in H2.
    simpl in *. congruence.
  - intros Hin. eexists; split; [exact Hin|].
    rewrite holds_and. apply andb_true_iff.
    split; apply holds_eq_Some; done.
Qed.

(** Without a signed-in user no role test passes. *)
Lemma has_role_anonymous (r : app_role) : Sql.holds (has_role db None r) = false.
Proof.
  apply not_true_is_false. unfold has_role. rewrite holds_exists.
  intros (ur & _ & Hc). rewrite holds_and, holds_eq_None_r in Hc. done.
Qed.

Lemma has_role_no_role (u : uuid) (r : app_role) :
  no_role db u -> Sql.holds (has_role db (Some u) r) = false.
Proof.
  intros Hno. apply not_true_is_false. rewrite has_role_holds.
  unfold holds_role. intros Hin.
  unfold no_role in Hno. rewrite Forall_forall in Hno.
  by apply (Hno _ Hin).
Qed.

Lemma fetchRole_no_role (u : uuid) : no_role db u -> fetchRole db (Some u) = None.
Proof.
  intros Hno. unfold fetchRole. rewrite select_none; [done|].
  eapply Forall_impl; [exact Hno|]. intros ur Hne.
  apply not_true_is_false. intros H%holds_eq_Some. congruence.
Qed.

(** A user with a single role record gets that role. *)
Lemma fetchRole_single (u : uuid) (r : app_role) :
  Sql.select (fun ur => Sql.eq (Some (ur_user_id ur)) (Some u)) (user_roles db)
  = [{| ur_user_id := u; ur_role := r |}] ->
  fetchRole db (Some u) = Some r.
Proof. unfold fetchRole. by intros ->. Qed.

(** Both versions of [has_role_or_higher] compare along [roleHierarchy]. *)
Lemma has_role_or_higher_hierarchy (u : uuid) (m : app_role) :
  Sql.holds (has_role_or_higher db (Some u) m) = true
  <-> exists r, holds_role db u r /\ hasRole (Some r) (Some m) = true.
Proof.
  unfold has_role_or_higher, holds_role. rewrite holds_exists. split.
  - intros ([u' r] & Hin & Hc). rewrite holds_and in Hc.
    apply andb_true_iff in Hc as [H1 H2]. apply holds_eq_Some in H1.
    simpl in *. simplify_eq. exists r. split; [done|].
    by destruct m, r.
  - intros (r & Hin & Hge). eexists; split; [exact Hin|].
    rewrite holds_and. apply andb_true_iff. split.
    + by apply holds_eq_Some.
    + by destruct m, r.
Qed.

Lemma has_role_or_higher_v1_hierarchy (u : uuid) (m : app_role) :
  Sql.holds (has_role_or_higher_v1 db (Some u) m) = true
  <-> exists r, holds_role db u r /\ hasRole (Some r) (Some m) = true.
Proof.
  unfold has_role_or_higher_v1, holds_role. rewrite holds_exists. split.
  - intros ([u' r] & Hin & Hc). rewrite holds_and in Hc.
    apply andb_true_iff in Hc as [H1 H2]. apply holds_eq_Some in H1.
    simpl in *. simplify_eq. exists r. split; [done|].
    by destruct m, r.
  - intros (r & Hin & Hge). eexists; split; [exact Hin|].
    rewrite holds_and. apply andb_true_iff. split.
    + by apply holds_eq_Some.
    + by destruct m, r.
Qed.

End RoleFacts.

(** ** Capabilities *)

Section CapabilityFacts.

Lemma hasRole_hierarchy (r m : app_role) :
  hasRole (Some r) (Some m) = true <-> roleHierarchy m <= roleHierarchy r.
Proof. unfold hasRole. rewrite Z.geb_le. done. Qed.

Lemma hasRole_none (m : AppRole) : hasRole None m = false.
Proof. done. Qed.

(** A threshold test that passes for a role passes for every higher one. *)
Lemma hasRole_monotone (r1 r2 : app_role) (m : AppRole) :
  role_lt r1 r2 -> hasRole (Some r1) m = true -> hasRole (Some r2) m = true.
Proof.
  unfold role_lt. destruct m as [m|]; [|done].
  rewrite !hasRole_hierarchy. lia.
Qed.

Lemma role_lt_not_top (r1 r2 : app_role) : role_lt r1 r2 -> r1 <> super_admin.
Proof. unfold role_lt. intros Hlt ->. destruct r2; simpl in Hlt; lia. Qed.

(** Without a role nothing is granted. *)
Lemma nothing_granted_without_role (c : capability) :
  granted (PermissionsProvider None) c = false.
Proof. by destruct c. Qed.

(** C5. For roles r1 < r2 in reader < editor < admin < super_admin, every
    capability other than the two exact-match ones that the resolver
    grants to r1 it grants to r2; the two exact-match capabilities
    (manage users, manage billing) are refused to every role other than
    super_admin. *)
Theorem capabilities_monotone (r1 r2 : app_role) :
  role_lt r1 r2 ->
  (forall c, exact_match c = false ->
     granted (PermissionsProvider (Some r1)) c = true ->
     granted (PermissionsProvider (Some r2)) c = true)
  /\ (forall c r, exact_match c = true -> r <> super_admin ->
        granted (PermissionsProvider (Some r)) c = false).
Proof.
  intros Hlt. split.
  - intros c Hc Hg.
    destruct c; try discriminate Hc;
      try (by eapply hasRole_monotone);
      destruct r1, r2; try reflexivity; try discriminate Hg;
      unfold role_lt in Hlt; simpl in Hlt; lia.
  - intros c r Hc Hr. by destruct c, r.
Qed.

Lemma capabilities_monotone_reader_admin :
  (forall c, exact_match c = false ->
     granted (PermissionsProvider (Some reader)) c = true ->
     granted (PermissionsProvider (Some admin)) c = true)
  /\ (forall c r, exact_match c = true -> r <> super_admin ->
        granted (PermissionsProvider (Some r)) c = false).
Proof. apply (capabilities_monotone reader admin). unfold role_lt; simpl; lia. Defined.

End CapabilityFacts.

(** ** Folder visibility *)

Section VisibilityFacts.
Variable db : database.

Lemma has_folder_permission_holds (folderId u : uuid) :
  Sql.holds (has_folder_permission db folderId (Some u)) = true <-> has_grant db folderId u.
Proof.
  unfold has_folder_permission, has_grant. rewrite holds_exists. split.
  - intros ([fid u'] & Hin & Hc). rewrite holds_and in Hc.
    apply andb_true_iff in Hc as [H1 H2].
    apply holds_eq_Some in H1. apply holds_eq_Some in H2.
    simpl in *. congruence.
  - intros Hin. eexists; split; [exact Hin|].
    rewrite holds_and. apply andb_true_iff.
    split; apply holds_eq_Some; done.
Qed.

(** The policy on [folders] is [can_view_folder] at the row's columns. *)
Lemma folders_select_policy_can_view_folder uid (f : folder) :
  folders_select_policy db uid f
  = can_view_folder db uid (f_id f) (f_user_id f) (f_access_level f) (f_created_by f).
Proof. reflexivity. Qed.

(** What the policy amounts to for a signed-in user. *)
Lemma canView_user (u : uuid) (f : folder) :
  canView db (Some u) f = true
  <-> f_user_id f = Some u
      \/ holds_role db u super_admin
      \/ f_access_level f = team
      \/ (f_access_level f = private /\ f_created_by f = Some u)
      \/ (f_access_level f = custom /\ has_grant db (f_id f) u).
Proof.
  unfold canView, folders_select_policy.
  rewrite !holds_or, !holds_and, !orb_true_iff, !andb_true_iff.
  rewrite has_role_holds, has_folder_permission_holds.
  rewrite !holds_eq_Some_r.
  assert (forall a b : folder_access_level, Some a = Some b <-> a = b) as Hinj
    by (intros; split; congruence).
  rewrite !Hinj. tauto.
Qed.

(** Without a signed-in user only team folders pass. *)
Lemma canView_anonymous (f : folder) :
  canView db None f = true <-> f_access_level f = team.
Proof.
  unfold canView, folders_select_policy.
  rewrite !holds_or, !holds_and, !orb_true_iff, !andb_true_iff.
  rewrite has_role_anonymous, !holds_eq_None_r, !holds_eq_Some_r.
  unfold has_folder_permission. rewrite holds_exists.
  split.
  - intros H; repeat destruct H as [H|H]; try done; try (destruct H; done).
    + by simplify_eq.
    + destruct H as (_ & fp & _ & Hc).
      rewrite holds_and, holds_eq_None_r, andb_false_r in Hc. done.
  - intros ->. tauto.
Qed.

(** C2, as the policy has it. For a folder whose visibility is private,
    [canView] holds for a user exactly when the user is the folder's
    owner ([user_id]), its creator ([created_by]) or a super_admin; so an
    admin who is neither owner nor creator, and not super_admin, cannot
    view it. *)
Theorem private_folder_visibility (u : uuid) (f : folder) :
  f_access_level f = private ->
  (canView db (Some u) f = true
   <-> f_user_id f = Some u \/ f_created_by f = Some u \/ holds_role db u super_admin)
  /\ (holds_role db u admin -> ~ holds_role db u super_admin ->
      f_user_id f <> Some u -> f_created_by f <> Some u ->
      canView db (Some u) f = false).
Proof.
  intros Hp.
  assert (canView db (Some u) f = true
          <-> f_user_id f = Some u \/ f_created_by f = Some u
              \/ holds_role db u super_admin) as Hiff.
  { rewrite canView_user, Hp. split.
    - intros [H|[H|[H|[[_ H]|[H _]]]]]; try discriminate; tauto.
    - intros [H|[H|H]]; tauto. }
  split; [exact Hiff|].
  intros _ Hns Hno Hnc. apply not_true_is_false. rewrite Hiff. tauto.
Qed.


(** A team folder passes for every requester. *)
Lemma team_folder_visibility uid (f : folder) :
  f_access_level f = team -> canView db uid f = true.
Proof.
  intros Ht. destruct uid as [u|].
  - apply canView_user. tauto.
  - by apply canView_anonymous.
Qed.

(** C1, as the code has it. For a user with no role record every
    capability of the resolver is false, and [canView] holds for such a
    user exactly on the folders the user owns, the team folders, the
    private folders the user created and the custom folders with a grant
    for the user.  The [is_active] flag of the profile is read by neither
    the resolver nor the policy: for every user, with a role or without,
    whatever the profiles are changed to, the capabilities and the
    visibility of every folder stay what the role makes them. *)
Theorem no_role_denied (u : uuid) :
  (no_role db u ->
   (forall c, granted (capabilities_of db u) c = false)
   /\ (forall f, canView db (Some u) f = true
         <-> f_user_id f = Some u
             \/ f_access_level f = team
             \/ (f_access_level f = private /\ f_created_by f = Some u)
             \/ (f_access_level f = custom /\ has_grant db (f_id f) u)))
  /\ (forall ps,
        capabilities_of (with_profiles db ps) u = capabilities_of db u
        /\ (forall c, granted (capabilities_of (with_profiles db ps) u) c
                      = granted (PermissionsProvider (fetchRole db (Some u))) c)
        /\ forall f, canView (with_profiles db ps) (Some u) f = canView db (Some u) f).
Proof.
  split.
  - intros Hno. split.
    + intros c. unfold capabilities_of. rewrite fetchRole_no_role by done.
      apply nothing_granted_without_role.
    + intros f. rewrite canView_user. split.
      * intros [H|[H|H]]; [tauto| |tauto].
        apply has_role_holds in H. rewrite has_role_no_role in H; done.
      * tauto.
  - intros ps. split; [reflexivity|]. split; [reflexivity|]. intros f. reflexivity.
Qed.

End VisibilityFacts.

Lemma no_role_denied_carol :
  (forall c, granted (capabilities_of Demo.db "carol") c = false)
  /\ (forall f, canView Demo.db (Some "carol") f = true
        <-> f_user_id f = Some "carol"
            \/ f_access_level f = team
            \/ (f_access_level f = private /\ f_created_by f = Some "carol")
            \/ (f_access_level f = custom /\ has_grant Demo.db (f_id f) "carol")).
Proof.
  apply (proj1 (no_role_denied Demo.db "carol")).
  unfold no_role. simpl. repeat constructor; done.
Defined.

Lemma private_folder_visibility_erin :
  (canView Demo.db (Some "erin") Demo.old_private_folder = true
   <-> f_user_id Demo.old_private_folder = Some "erin"
       \/ f_created_by Demo.old_private_folder = Some "erin"
       \/ holds_role Demo.db "erin" super_admin)
  /\ (holds_role Demo.db "erin" admin -> ~ holds_role Demo.db "erin" super_admin ->
      f_user_id Demo.old_private_folder <> Some "erin" ->
      f_created_by Demo.old_private_folder <> Some "erin" ->
      canView Demo.db (Some "erin") Demo.old_private_folder = false).
Proof. apply (private_folder_visibility Demo.db "erin" Demo.old_private_folder). reflexivity. Defined.


(** C1, against the code. carol has no role record, yet the team folder
    passes the policy for her; dave's profile is deactivated, yet the
    resolver grants him what it grants an admin (so "view all users"), and
    the team folder passes the policy for him. *)
Lemma roleless_and_inactive_not_denied :
  (no_role Demo.db "carol"
   /\ canView Demo.db (Some "carol") Demo.team_folder = true)
  /\ (inactive Demo.db "dave"
      /\ granted (capabilities_of Demo.db "dave") CanViewUsers = true
      /\ canView Demo.db (Some "dave") Demo.team_folder = true).
Proof.
  split; [split|split; [|split]]; try reflexivity.
  - unfold no_role. by_evaluation.
  - unfold inactive. by_evaluation.
Qed.

(** C2, against the code. bob is an admin, not a super_admin, and not the
    creator of the private folder (it has none recorded); he owns it, and
    the policy lets him see it. *)
Lemma private_folder_seen_by_owner :
  f_access_level Demo.old_private_folder = private
  /\ holds_role Demo.db "bob" admin
  /\ Sql.holds (has_role Demo.db (Some "bob") super_admin) = false
  /\ f_created_by Demo.old_private_folder = None
  /\ canView Demo.db (Some "bob") Demo.old_private_folder = true.
Proof.
  repeat split; try reflexivity. unfold holds_role. by_evaluation.
Qed.


(** ** Grants *)

Section GrantFacts.
Variable db : database.
Variable uid : option uuid.

Lemma fp_creator_policy_holds (fp : folder_permission) :
  Sql.holds (fp_creator_policy db uid fp) = true
  <-> exists u, uid = Some u /\ created_visible_folder db (fp_folder_id fp) u.
Proof.
  unfold fp_creator_policy, created_visible_folder. rewrite holds_exists. split.
  - intros (f & [Hin Hvis]%elem_of_select & Hc). rewrite holds_and in Hc.
    apply andb_true_iff in Hc as [H1 H2].
    apply holds_eq_Some in H1. apply holds_eq in H2 as (u & Hcb & ->).
    exists u. split; [done|]. apply Exists_exists. exists f.
    split; [done|]. split; [congruence|]. split; [congruence|exact Hvis].
  - intros (u & -> & Hex). apply Exists_exists in Hex as (f & Hin & Hid & Hcb & Hvis).
    exists f. split; [by apply elem_of_select|].
    rewrite holds_and. apply andb_true_iff. split.
    + apply holds_eq_Some. congruence.
    + apply holds_eq. eauto.
Qed.




End GrantFacts.


(** ** Reading invitations *)

(** The read policies of [invitations] let every row through. *)
Lemma select_invitations_all (db : database) (uid : option uuid) :
  select_invitations db uid = invitations db.
Proof.
  unfold select_invitations. apply select_all. intros i.
  unfold invitations_select_policy, invitations_view_policy.
  rewrite holds_or, holds_lit. apply orb_true_r.
Qed.

(** C10. For every requester (signed in or not, with or without a role
    record) every row of [invitations] passes the read policy, so a read
    returns the whole table, tokens, e-mails and roles included. *)
Theorem invitations_readable_by_everyone (db : database) (uid : option uuid) :
  (forall i, Sql.holds (invitations_select_policy db uid i) = true)
  /\ select_invitations db uid = invitations db.
Proof.
  assert (forall i, Sql.holds (invitations_select_policy db uid i) = true) as Hall.
  { intros i. unfold invitations_select_policy, invitations_view_policy.
    rewrite holds_or, holds_lit. apply orb_true_r. }
  split; [exact Hall|]. unfold select_invitations. by apply select_all.
Qed.

(** ** Deleting a folder *)

Section FolderDeletion.
Variable db : database.
Variable uid : option uuid.
Variable folderId : uuid.

Lemma folders_delete_policy_holds (f : folder) :
  Sql.holds (folders_delete_policy db uid f) = true <-> may_delete_folders db uid.
Proof.
  unfold folders_delete_policy, may_delete_folders.
  rewrite holds_or, orb_true_iff. destruct uid as [u|].
  - rewrite !has_role_holds. split.
    + intros H. eauto.
    + intros (u' & [= <-] & H). done.
  - rewrite !has_role_anonymous. split.
    + intros [H|H]; done.
    + intros (u' & [=] & _).
Qed.

Lemma elem_of_deleted_folders (f : folder) :
  f ∈ deleted_folders db uid folderId
  <-> f ∈ folders db /\ f_id f = folderId /\ canView db uid f = true
      /\ may_delete_folders db uid.
Proof.
  unfold deleted_folders, canView.
  rewrite elem_of_select, !holds_and, !andb_true_iff.
  rewrite holds_eq_Some, folders_delete_policy_holds.
  split.
  - intros (? & (? & ?) & ?). repeat split; congruence.
  - intros (? & ? & ? & ?). repeat split; congruence.
Qed.

Lemma elem_of_gone (id : uuid) :
  may_view_folder db uid folderId ->
  id ∈ f_id <$> deleted_folders db uid folderId
  <-> id = folderId /\ folderId ∈ f_id <$> folders db /\ may_delete_folders db uid.
Proof.
  intros Hview. unfold may_view_folder in Hview. rewrite Forall_forall in Hview.
  rewrite !list_elem_of_fmap. split.
  - intros (f & -> & (Hin & Hid & _ & Hmay)%elem_of_deleted_folders).
    repeat split; try done. exists f. done.
  - intros (-> & (f & Hid & Hin) & Hmay). exists f. split; [done|].
    apply elem_of_deleted_folders. repeat split; try done. by apply Hview.
Qed.

(** Without the right to delete, the statement changes nothing. *)
Lemma delete_folder_refused : ~ may_delete_folders db uid -> delete_folder db uid folderId = db.
Proof.
  intros Hno. unfold delete_folder.
  assert (deleted_folders db uid folderId = []) as ->.
  { apply elem_of_nil_inv. intros f Hf%elem_of_deleted_folders. tauto. }
  clear Hno. simpl. destruct db as [urs ps fs fps ds ivs aus]; simpl. f_equal.
  - apply filter_keeps_all. intros f _. apply not_elem_of_nil.
  - apply filter_keeps_all. intros f _. apply not_elem_of_nil.
  - induction ds as [|d ds IH]; [done|]. simpl. f_equal; [|done].
    unfold documents_on_folder_delete. destruct (doc_folder_id d); [|done].
    rewrite bool_decide_eq_false_2; [done | apply not_elem_of_nil].
Qed.

(** A folder the requester cannot read is not deleted, whatever the
    requester's role. *)
Lemma delete_folder_hidden :
  Forall (fun f => f_id f = folderId -> canView db uid f = false) (folders db) ->
  deleted_folders db uid folderId = [].
Proof.
  intros Hhid. rewrite Forall_forall in Hhid. apply elem_of_nil_inv.
  intros f (Hin & Hid & Hvis & _)%elem_of_deleted_folders.
  rewrite (Hhid f Hin Hid) in Hvis. done.
Qed.

(** C9. When a requester entitled to delete folders deletes a stored
    folder that the requester can read, the one statement leaves a store
    in which the folder is gone, the grants are those of the other
    folders, and the documents are the former ones with the reference
    cleared on those that pointed to the folder: no grant is recorded for
    it, no document refers to it, and if every folder reference of a
    document resolved before, every one resolves afterwards.  The page's
    [handleDeleteFolder] performs this statement and clears the same
    references in its own list. *)
Theorem folder_deletion_cascades (perms : PermissionsContextType) (pg : documents_page) :
  may_delete_folders db uid ->
  may_view_folder db uid folderId ->
  folderId ∈ f_id <$> folders db ->
  canDeleteFolders perms = true ->
  folderId ∈ f_id <$> pg_folders pg ->
  let '(db', pg', r) := handleDeleteFolder perms uid false db pg folderId in
  db' = delete_folder db uid folderId
  /\ (folderId ∉ f_id <$> folders db')
  /\ Forall (fun fp => fp_folder_id fp <> folderId) (folder_permissions db')
  /\ Forall (fun d => doc_folder_id d <> Some folderId) (documents db')
  /\ folder_permissions db'
     = filter (fun fp => fp_folder_id fp <> folderId) (folder_permissions db)
  /\ documents db'
     = (fun d => if bool_decide (doc_folder_id d = Some folderId)
                 then clear_folder_id d else d) <$> documents db
  /\ (references_resolve db -> references_resolve db')
  /\ Forall (fun d => doc_folder_id d <> Some folderId) (pg_documents pg')
  /\ folderId ∉ (f_id <$> pg_folders pg').
Proof.
  intros Hmay Hview Hstored Hcan Hshown. unfold handleDeleteFolder. rewrite Hcan. simpl.
  destruct (List.find _ (pg_folders pg)) as [f0|] eqn:Hfind.
  2: { exfalso. apply list_elem_of_fmap in Hshown as (f & Hid & Hin).
       apply list_elem_of_In in Hin.
       apply (List.find_none _ _ Hfind) in Hin.
       rewrite bool_decide_eq_true_2 in Hin; done. }
  assert (folderId ∈ f_id <$> deleted_folders db uid folderId) as Hgone
    by (apply elem_of_gone; done).
  split; [done|]. split; [|split; [|split; [|split; [|split; [|split; [|split]]]]]].
  - simpl. intros (f & Hid & Hin)%list_elem_of_fmap.
    apply list_elem_of_filter in Hin as [Hkeep Hin]. apply Hkeep.
    apply elem_of_deleted_folders. repeat split; try done.
    unfold may_view_folder in Hview. rewrite Forall_forall in Hview. by apply Hview.
  - simpl. apply Forall_forall. intros fp [Hkeep _]%list_elem_of_filter E.
    apply Hkeep. by rewrite E.
  - simpl. apply Forall_forall. intros d' (d & -> & _)%list_elem_of_fmap.
    unfold documents_on_folder_delete.
    destruct (doc_folder_id d) as [id|] eqn:Hd; [|by rewrite Hd].
    case_bool_decide as Hid; simpl; [done|]. rewrite Hd. intros [= ->]. done.
  - simpl. apply list_filter_iff. intros fp. rewrite elem_of_gone by done. tauto.
  - simpl. apply list_fmap_ext. intros _ d _. unfold documents_on_folder_delete.
    destruct (doc_folder_id d) as [id|]; [|by rewrite bool_decide_eq_false_2].
    destruct (decide (id = folderId)) as [->|Hne].
    + by rewrite !bool_decide_eq_true_2.
    + rewrite !bool_decide_eq_false_2; [done|congruence|].
      intros (E & _)%elem_of_gone; done.
  - unfold references_resolve. simpl. rewrite !Forall_forall.
    intros Hres d' (d & -> & Hin)%list_elem_of_fmap id.
    unfold documents_on_folder_delete.
    destruct (doc_folder_id d) as [id'|] eqn:Hd; [|by rewrite Hd].
    case_bool_decide as Hid; simpl; [done|]. rewrite Hd. intros [= <-].
    pose proof (Hres d Hin id' Hd) as Hex.
    apply list_elem_of_fmap in Hex as (f & Hf & Hfin).
    apply list_elem_of_fmap. exists f. split; [done|].
    apply list_elem_of_filter. split; [|done].
    intros Hdel. apply Hid. apply list_elem_of_fmap. exists f. done.
  - simpl. apply Forall_forall. intros d' (d & -> & _)%list_elem_of_fmap.
    case_bool_decide as Hd; simpl; [done|]. done.
  - simpl. intros (f & Hid & [Hkeep _]%list_elem_of_filter)%list_elem_of_fmap.
    done.
Qed.

End FolderDeletion.

Lemma folder_deletion_cascades_demo :
  let '(db', pg', r) :=
    handleDeleteFolder (capabilities_of Demo.db "root") (Some "root") false
      Demo.db Demo.page "f-erin" in
  db' = delete_folder Demo.db (Some "root") "f-erin"
  /\ ("f-erin" ∉ f_id <$> folders db')
  /\ Forall (fun fp => fp_folder_id fp <> "f-erin") (folder_permissions db')
  /\ Forall (fun d => doc_folder_id d <> Some "f-erin") (documents db')
  /\ folder_permissions db'
     = filter (fun fp => fp_folder_id fp <> "f-erin") (folder_permissions Demo.db)
  /\ documents db'
     = (fun d => if bool_decide (doc_folder_id d = Some "f-erin")
                 then clear_folder_id d else d) <$> documents Demo.db
  /\ (references_resolve Demo.db -> references_resolve db')
  /\ Forall (fun d => doc_folder_id d <> Some "f-erin") (pg_documents pg')
  /\ "f-erin" ∉ (f_id <$> pg_folders pg').
Proof.
  apply (folder_deletion_cascades Demo.db (Some "root") "f-erin"
           (capabilities_of Demo.db "root") Demo.page).
  - exists "root". split; [reflexivity|]. left. unfold holds_role. by_evaluation.
  - unfold may_view_folder. by_evaluation.
  - by_evaluation.
  - reflexivity.
  - by_evaluation.
Defined.

(** ** Creating invitations *)

Section InvitationCreation.
Variable is_email : string -> bool.

Lemma role_enum_invitable (role : string) (r : app_role) :
  InviteUserDialog.role_enum role = Some r -> invitable r.
Proof.
  unfold InviteUserDialog.role_enum, invitable.
  repeat case_bool_decide; intros [= <-]; tauto.
Qed.

Lemma inviteSchema_invitable (email role : string) (r : app_role) :
  InviteUserDialog.inviteSchema is_email email role = inr r -> invitable r.
Proof.
  unfold InviteUserDialog.inviteSchema.
  destruct (negb (is_email email)); [done|]. case_bool_decide; [done|].
  destruct (InviteUserDialog.role_enum role) as [r'|] eqn:E; [|done].
  intros [= <-]. by eapply role_enum_invitable.
Qed.

(** The duplicate check reads [accepted_at] and nothing else. *)
Lemma existing_invites_unaccepted (db : database) (user : option uuid) (email : string) :
  InviteUserDialog.existing_invites db user email = unaccepted_for db email.
Proof.
  unfold InviteUserDialog.existing_invites, unaccepted_for.
  rewrite (select_invitations_all db user).
  unfold Sql.select. apply list_filter_iff. intros i.
  rewrite holds_and, andb_true_iff, holds_eq_Some, holds_lit, bool_decide_eq_true.
  split; intros [? ?]; split; congruence.
Qed.

Lemma existing_profiles_accounts (db : database) (u : uuid) (email : string) :
  holds_role db u super_admin \/ holds_role db u admin ->
  InviteUserDialog.existing_profiles db (Some u) email = accounts_with db email.
Proof.
  intros Hrole. unfold InviteUserDialog.existing_profiles, accounts_with, select_profiles.
  rewrite (select_all (profiles_select_policy db (Some u))).
  - unfold Sql.select. apply list_filter_iff. intros p. apply holds_eq_Some_r.
  - intros p. unfold profiles_select_policy.
    rewrite !holds_or, !orb_true_iff, !has_role_holds. tauto.
Qed.


Lemma data_maybeSingle_None {A} (l : list A) :
  data (maybeSingle l) = None <-> length l <> 1%nat.
Proof. destruct l as [|r [|]]; simpl; split; done. Qed.


(** An insert that goes through adds the one row. *)
Lemma handleSubmit_invitations (db : database) user email role now new_id new_token :
  let run := InviteUserDialog.handleSubmit is_email user email role now new_id new_token db in
  fst run = db
  \/ exists r, InviteUserDialog.inviteSchema is_email email role = inr r
               /\ data (maybeSingle (unaccepted_for db email)) = None
               /\ fst run = with_invitations db
                    (invitations db ++ [new_invitation user email r now new_id new_token]).
Proof.
  simpl. unfold InviteUserDialog.handleSubmit.
  destruct (InviteUserDialog.inviteSchema is_email email role) as [e|r] eqn:Hs; [by left|].
  destruct (data (maybeSingle (InviteUserDialog.existing_profiles _ _ _))); [by left|].
  rewrite existing_invites_unaccepted.
  destruct (data (maybeSingle (unaccepted_for db email))) eqn:Hd; [by left|].
  destruct (insert_invitation _ _ _) as [db'|] eqn:Hins; [|by left].
  right. exists r. split; [done|]. split; [done|]. simpl.
  unfold insert_invitation in Hins.
  destruct (_ && _ && _) in Hins; by simplify_eq.
Qed.

End InvitationCreation.



(** ** Accepting invitations *)

Section InvitationAcceptance.

Lemma data_maybeSingle_elem {A} (l : list A) (r : A) :
  data (maybeSingle l) = Some r -> l = [r].
Proof. destruct l as [|x [|]]; try done. by intros [= ->]. Qed.

(** What the page has checked when it shows the form. *)
Lemma fetchInvitation_loaded (db : database) uid (token : string) now (i : invitation) :
  AcceptInvite.fetchInvitation db uid token now = AcceptInvite.Loaded i ->
  i ∈ invitations db /\ inv_token i = token
  /\ inv_accepted_at i = None /\ now <= inv_expires_at i.
Proof.
  unfold AcceptInvite.fetchInvitation.
  destruct (data (maybeSingle _)) as [j|] eqn:Hd; [|done].
  apply data_maybeSingle_elem in Hd.
  assert (j ∈ Sql.select (fun i => Sql.eq (Some (inv_token i)) (Some token))
                         (select_invitations db uid)) as Hj by (rewrite Hd; left).
  apply elem_of_select in Hj as [Hin Htok]. apply holds_eq_Some in Htok.
  rewrite (select_invitations_all db uid) in Hin.
  destruct (inv_accepted_at j) eqn:Hacc; [done|].
  destruct (inv_expires_at j <? now) eqn:Hexp; [done|].
  intros [= <-]. apply Z.ltb_ge in Hexp. repeat split; try done. congruence.
Qed.

Lemma load_loaded (db : database) uid (token : option string) now (i : invitation) :
  AcceptInvite.load db uid token now = AcceptInvite.Loaded i ->
  i ∈ invitations db /\ token = Some (inv_token i)
  /\ inv_accepted_at i = None /\ now <= inv_expires_at i.
Proof.
  unfold AcceptInvite.load. destruct token as [t|]; [|done].
  case_bool_decide; [done|].
  intros (? & <- & ? & ?)%fetchInvitation_loaded. done.
Qed.


(** X27. The three requests of a submission are separate: when the role
    insertion is refused, the account made by the sign-up stays, without
    a role, and the invitation stays unaccepted. *)
Lemma role_failure_leaves_account (inv : invitation) (db : database)
    (fullName password : string) (id : uuid) (now : timestamp) (b : bool) :
  AcceptInvite.signupSchema fullName password password = None ->
  AcceptInvite.handleSubmit (Some inv) fullName password password
    {| AcceptInvite.signUp := AcceptInvite.SignUpUser id;
       AcceptInvite.roleError := true;
       AcceptInvite.stamp_applied := b |} now db
  = (with_auth_users db
       (auth_users db ++ [{| au_id := id; au_email := inv_email inv;
                             au_full_name := fullName |}]),
     AcceptInvite.RoleFailed).
Proof.
  intros Hform. unfold AcceptInvite.handleSubmit. by rewrite Hform.
Qed.

(** The stamp changes [accepted_at] only. *)
Lemma stamp_role (id : uuid) (now : timestamp) (i : invitation) :
  inv_role (AcceptInvite.stamp id now i) = inv_role i.
Proof. unfold AcceptInvite.stamp. by case_bool_decide. Qed.

Lemma stamp_email (id : uuid) (now : timestamp) (i : invitation) :
  inv_email (AcceptInvite.stamp id now i) = inv_email i.
Proof. unfold AcceptInvite.stamp. by case_bool_decide. Qed.

Lemma stamp_accepted (id : uuid) (now : timestamp) (i : invitation) :
  inv_accepted_at (AcceptInvite.stamp id now i) = None -> inv_accepted_at i = None.
Proof. unfold AcceptInvite.stamp. by case_bool_decide. Qed.

(** What a submission can do to the two tables. *)
Lemma handleSubmit_tables (i : invitation) fullName password confirmPassword env now
    (db : database) :
  let db' := fst (AcceptInvite.handleSubmit (Some i) fullName password confirmPassword
                    env now db) in
  (invitations db' = invitations db
   \/ invitations db' = AcceptInvite.stamp (inv_id i) now <$> invitations db)
  /\ (user_roles db' = user_roles db
      \/ exists id, user_roles db'
                    = user_roles db ++ [{| ur_user_id := id; ur_role := inv_role i |}]).
Proof.
  simpl. unfold AcceptInvite.handleSubmit.
  destruct (AcceptInvite.signupSchema _ _ _); [by split; left|].
  destruct (AcceptInvite.signUp env) as [| |id]; try (by split; left).
  destruct (AcceptInvite.roleError env); [by split; left|].
  destruct (AcceptInvite.stamp_applied env); simpl; split; eauto.
Qed.

End InvitationAcceptance.



(** ** The invitation flow never hands out super_admin *)

Section FlowInvariant.
Variable is_email : string -> bool.
Variable db0 : database.

Lemma invitable_not_super_admin (r : app_role) : invitable r <-> r <> super_admin.
Proof. unfold invitable. destruct r; split; intros H; try done; try tauto; by destruct H as [|[|]]. Qed.

Lemma Forall_replace {A} (P : A -> Prop) (l1 l2 : list A) (x y : A) :
  Forall P (l1 ++ x :: l2) -> P y -> Forall P (l1 ++ y :: l2).
Proof.
  rewrite !Forall_app, !Forall_cons. tauto.
Qed.

Lemma Forall_drop_middle {A} (P : A -> Prop) (l1 l2 : list A) (x : A) :
  Forall P (l1 ++ x :: l2) -> P x /\ Forall P (l1 ++ l2).
Proof.
  rewrite !Forall_app, !Forall_cons. tauto.
Qed.

(** Each request of the flow keeps the invariant. *)
Lemma step_keeps_invariant w w' :
  step is_email w w' -> flow_invariant db0 w -> flow_invariant db0 w'.
Proof.
  intros Hstep (Hinv & Hforms & Hroles & Hsubs & Haccs).
  destruct Hstep as [w user email role r Hschema Hprof
                    | w user email r l1 l2 Hsub Hnone
                    | w user email r now new_id new_token l1 l2 Hsub
                    | w s l1 l2 Hsub
                    | w user id
                    | w uid token now i Hload
                    | w i fullName password confirmPassword id Hi Hform
                    | w i id l1 l2 Hacc
                    | w a l1 l2 Hacc
                    | w i id now applied l1 l2 Hacc];
    unfold flow_invariant; cbn [w_db w_forms w_submissions w_acceptances].
  - repeat split; try done. apply Forall_cons. split; [|done].
    simpl. by eapply inviteSchema_invitable.
  - repeat split; try done. rewrite Hsub in Hsubs.
    eapply Forall_replace; [exact Hsubs|].
    apply Forall_drop_middle in Hsubs as [Hr _]. exact Hr.
  - rewrite Hsub in Hsubs. apply Forall_drop_middle in Hsubs as [Hr Hsubs].
    simpl in Hr. unfold insert_invitation.
    destruct (_ && _ && _); [|done]. simpl. repeat split; try done.
    apply Forall_app. split; [done|]. by apply Forall_singleton.
  - rewrite Hsub in Hsubs. apply Forall_drop_middle in Hsubs as [_ Hsubs]. done.
  - repeat split; try done. simpl. rewrite Forall_forall in Hinv. apply Forall_forall.
    intros i [_ Hin]%list_elem_of_filter. by apply Hinv.
  - apply load_loaded in Hload as (Hin & _). repeat split; try done.
    apply Forall_cons. split; [|done]. rewrite Forall_forall in Hinv. by apply Hinv.
  - repeat split; try done. apply Forall_cons. split; [|done]. simpl.
    rewrite Forall_forall in Hforms. by apply Hforms.
  - rewrite Hacc in Haccs. pose proof (Forall_drop_middle _ _ _ _ Haccs) as [Hr _].
    simpl in Hr. repeat split; try done.
    + simpl. apply Forall_app. split; [done|]. apply Forall_singleton. by right.
    + eapply Forall_replace; [exact Haccs|]. done.
  - rewrite Hacc in Haccs. apply Forall_drop_middle in Haccs as [_ Haccs]. done.
  - rewrite Hacc in Haccs. apply Forall_drop_middle in Haccs as [_ Haccs].
    destruct applied; [|done]. simpl. repeat split; try done.
    apply Forall_fmap. eapply Forall_impl; [exact Hinv|].
    intros j Hj. simpl. by rewrite stamp_role.
Qed.

Lemma reachable_invariant w : reachable is_email db0 w -> flow_invariant db0 w.
Proof.
  induction 1 as [Hempty | w w' _ IH Hstep].
  - unfold flow_invariant; simpl. rewrite Hempty. repeat split; try done.
    apply Forall_forall. intros ur Hur. by left.
  - by eapply step_keeps_invariant.
Qed.

(** The dialog's [handleSubmit], run without any other request in
    between, is a path of the flow. *)
Lemma submit_reachable w user email role now new_id new_token :
  reachable is_email db0 w ->
  reachable is_email db0
    {| w_db := fst (InviteUserDialog.handleSubmit is_email user email role
                      now new_id new_token (w_db w));
       w_forms := w_forms w; w_submissions := w_submissions w;
       w_acceptances := w_acceptances w |}.
Proof.
  intros Hw.
  assert (reachable is_email db0
            {| w_db := w_db w; w_forms := w_forms w; w_submissions := w_submissions w;
               w_acceptances := w_acceptances w |}) as Hsame by (by destruct w).
  unfold InviteUserDialog.handleSubmit.
  destruct (InviteUserDialog.inviteSchema is_email email role) as [e|r] eqn:Hschema;
    [exact Hsame|].
  destruct (data (maybeSingle (InviteUserDialog.existing_profiles _ _ _))) eqn:Hprof;
    [exact Hsame|].
  pose proof (reachable_step is_email db0 _ _ Hw
                (step_read_profiles is_email w user email role r Hschema Hprof)) as H1.
  destruct (data (maybeSingle (InviteUserDialog.existing_invites _ _ _))) eqn:Hinv.
  - match type of H1 with
    | reachable _ _ ?w1 =>
        exact (reachable_step is_email db0 w1 _ H1 (step_end_submission is_email w1 (ProfilesRead user email r) [] (w_submissions w) eq_refl))
    end.
  - match type of H1 with
  | reachable _ _ ?w1 =>
      pose proof (reachable_step is_email db0 w1 _ H1
                    (step_read_invites is_email w1 user email r [] (w_submissions w) eq_refl Hinv)) as H2
  end.
    match type of H2 with
  | reachable _ _ ?w1 =>
      pose proof (reachable_step is_email db0 w1 _ H2
                    (step_insert is_email w1 user email r now new_id new_token [] (w_submissions w) eq_refl)) as H3
  end.
    cbn [w_db w_forms w_submissions w_acceptances app] in H3.
    unfold new_invitation in H3.
    by destruct (insert_invitation _ _ _).
Qed.

(** The acceptance page's [handleSubmit], run without any other request
    in between, is a path of the flow. *)
Lemma accept_reachable w i fullName password confirmPassword env now :
  reachable is_email db0 w -> i ∈ w_forms w ->
  reachable is_email db0
    {| w_db := fst (AcceptInvite.handleSubmit (Some i) fullName password
                      confirmPassword env now (w_db w));
       w_forms := w_forms w; w_submissions := w_submissions w;
       w_acceptances := w_acceptances w |}.
Proof.
  intros Hw Hi.
  assert (reachable is_email db0
            {| w_db := w_db w; w_forms := w_forms w; w_submissions := w_submissions w;
               w_acceptances := w_acceptances w |}) as Hsame by (by destruct w).
  unfold AcceptInvite.handleSubmit.
  destruct (AcceptInvite.signupSchema fullName password confirmPassword) eqn:Hform;
    [exact Hsame|].
  destruct (AcceptInvite.signUp env) as [| |id]; [exact Hsame|exact Hsame|].
  pose proof (reachable_step is_email db0 _ _ Hw
                (step_sign_up is_email w i fullName password confirmPassword id Hi Hform))
    as H1.
  destruct (AcceptInvite.roleError env).
  - match type of H1 with
    | reachable _ _ ?w1 =>
        exact (reachable_step is_email db0 w1 _ H1 (step_end_acceptance is_email w1 (SignedUp i id) [] (w_acceptances w) eq_refl))
    end.
  - match type of H1 with
  | reachable _ _ ?w1 =>
      pose proof (reachable_step is_email db0 w1 _ H1
                    (step_insert_role is_email w1 i id [] (w_acceptances w) eq_refl)) as H2
  end.
    match type of H2 with
  | reachable _ _ ?w1 =>
      pose proof (reachable_step is_email db0 w1 _ H2
                    (step_stamp is_email w1 i id now (AcceptInvite.stamp_applied env) [] (w_acceptances w) eq_refl)) as H3
  end.
    cbn [w_db w_forms w_submissions w_acceptances app] in H3.
    cbn [fst]. by destruct (AcceptInvite.stamp_applied env).
Qed.

(** C8. In every state the invitation flow reaches from a store without
    invitations, every stored invitation, and every invitation held by an
    open acceptance page, carries the role admin, editor or reader; every
    role record is one of the initial store or carries one of these
    roles; and a submission of an open page adds no role record other
    than one with the role of its invitation, which is not super_admin. *)
Theorem invitations_never_grant_super_admin (w : world) :
  reachable is_email db0 w ->
  Forall (fun i => invitable (inv_role i)) (invitations (w_db w))
  /\ Forall (fun i => invitable (inv_role i)) (w_forms w)
  /\ Forall (fun ur => ur ∈ user_roles db0 \/ ur_role ur <> super_admin)
            (user_roles (w_db w))
  /\ (forall i fullName password confirmPassword env now ur,
        i ∈ w_forms w ->
        ur ∈ user_roles (fst (AcceptInvite.handleSubmit (Some i) fullName password
                                confirmPassword env now (w_db w))) ->
        ur ∈ user_roles (w_db w)
        \/ (ur_role ur = inv_role i /\ ur_role ur <> super_admin)).
Proof.
  intros (Hinv & Hforms & Hroles & _ & _)%reachable_invariant.
  split; [done|]. split; [done|]. split.
  - eapply Forall_impl; [exact Hroles|]. intros ur [H|H]; [by left|].
    right. by apply invitable_not_super_admin.
  - intros i fullName password confirmPassword env now ur Hi Hur.
    destruct (handleSubmit_tables i fullName password confirmPassword env now (w_db w))
      as [_ [Hr | (id & Hr)]]; simpl in Hr; rewrite Hr in Hur; [by left|].
    apply elem_of_app in Hur as [Hur | ->%list_elem_of_singleton]; [by left|].
    right. simpl. split; [done|]. apply invitable_not_super_admin.
    rewrite Forall_forall in Hforms. by apply Hforms.
Qed.

End FlowInvariant.

Lemma demo_invited_reachable : reachable Demo.is_email Demo.db0 Demo.invited.
Proof.
  apply (submit_reachable Demo.is_email Demo.db0
           {| w_db := Demo.db0; w_forms := []; w_submissions := [];
              w_acceptances := [] |}).
  by apply reachable_init.
Qed.

Lemma demo_accepted_reachable : reachable Demo.is_email Demo.db0 Demo.accepted.
Proof.
  apply (accept_reachable Demo.is_email Demo.db0 Demo.opened Demo.amy_invitation).
  - apply (reachable_step _ _ Demo.invited); [exact demo_invited_reachable|].
    by apply (step_open Demo.is_email Demo.invited None (Some "t-amy") 2000).
  - left.
Qed.

Lemma invitations_never_grant_super_admin_demo :
  Forall (fun i => invitable (inv_role i)) (invitations (w_db Demo.accepted))
  /\ Forall (fun i => invitable (inv_role i)) (w_forms Demo.accepted)
  /\ Forall (fun ur => ur ∈ user_roles Demo.db0 \/ ur_role ur <> super_admin)
            (user_roles (w_db Demo.accepted))
  /\ (forall i fullName password confirmPassword env now ur,
        i ∈ w_forms Demo.accepted ->
        ur ∈ user_roles (fst (AcceptInvite.handleSubmit (Some i) fullName password
                                confirmPassword env now (w_db Demo.accepted))) ->
        ur ∈ user_roles (w_db Demo.accepted)
        \/ (ur_role ur = inv_role i /\ ur_role ur <> super_admin)).
Proof.
  apply (invitations_never_grant_super_admin Demo.is_email Demo.db0 Demo.accepted).
  exact demo_accepted_reachable.
Defined.

(** ** Two pending invitations for one e-mail *)

Section PendingInvitations.
Variable is_email : string -> bool.
Variable db0 : database.

Lemma insert_invitation_super_admin (db : database) (u : uuid) (i : invitation) :
  holds_role db u super_admin ->
  inv_id i ∉ inv_id <$> invitations db ->
  inv_token i ∉ inv_token <$> invitations db ->
  insert_invitation db (Some u) i = Some (with_invitations db (invitations db ++ [i])).
Proof.
  intros Hsa%has_role_holds Hid Htok. unfold insert_invitation, invitations_manage_policy.
  rewrite Hsa. cbn [andb]. by rewrite !bool_decide_eq_true_2.
Qed.

(** X26. The duplicate check of the invitation dialog does not keep an
    e-mail to one pending invitation: the reads and the insert are
    separate requests and the table has no constraint on the e-mail, so
    when two submissions of a super_admin for one e-mail have both read
    before either inserts, both rows are stored; from then on each check
    meets two rows, reads no single one, and a further submission for the
    e-mail is accepted as well. *)
Theorem duplicate_pending_invitations_reachable (u : uuid) (email role : string)
    (r : app_role) (now1 now2 : timestamp) (id1 id2 : uuid) (tok1 tok2 : string) :
  invitations db0 = [] ->
  holds_role db0 u super_admin ->
  InviteUserDialog.inviteSchema is_email email role = inr r ->
  length (accounts_with db0 email) <> 1%nat ->
  id1 <> id2 -> tok1 <> tok2 ->
  exists w,
    reachable is_email db0 w
    /\ unaccepted_for (w_db w) email
       = [new_invitation (Some u) email r now1 id1 tok1;
          new_invitation (Some u) email r now2 id2 tok2]
    /\ forall now3 id3 tok3,
         id3 <> id1 -> id3 <> id2 -> tok3 <> tok1 -> tok3 <> tok2 ->
         InviteUserDialog.handleSubmit is_email (Some u) email role now3 id3 tok3 (w_db w)
         = (with_invitations (w_db w)
              (invitations (w_db w)
               ++ [new_invitation (Some u) email r now3 id3 tok3]),
            InviteUserDialog.InvitationCreee tok3).
Proof.
  intros Hempty Hsa Hschema Hacc Hid Htok.
  set (i1 := new_invitation (Some u) email r now1 id1 tok1).
  set (i2 := new_invitation (Some u) email r now2 id2 tok2).
  set (w0 := {| w_db := db0; w_forms := []; w_submissions := []; w_acceptances := [] |}).
  assert (forall db, profiles db = profiles db0 -> user_roles db = user_roles db0 ->
            data (maybeSingle (InviteUserDialog.existing_profiles db (Some u) email))
            = None) as Hprof.
  { intros db Hp Hu. rewrite (existing_profiles_accounts is_email).
    - apply data_maybeSingle_None. unfold accounts_with. by rewrite Hp.
    - left. unfold holds_role. by rewrite Hu. }
  assert (data (maybeSingle (InviteUserDialog.existing_invites db0 (Some u) email))
          = None) as Hinv0.
  { rewrite existing_invites_unaccepted. unfold unaccepted_for. by rewrite Hempty. }
  (* both dialogs read, then both insert *)
  pose proof (reachable_init is_email db0 Hempty) as R0. fold w0 in R0.
  pose proof (reachable_step is_email db0 _ _ R0
                (step_read_profiles is_email w0 (Some u) email role r Hschema
                   (Hprof db0 eq_refl eq_refl))) as R1.
  match type of R1 with
  | reachable _ _ ?w1 =>
      pose proof (reachable_step is_email db0 w1 _ R1
                    (step_read_invites is_email w1 (Some u) email r [] [] eq_refl Hinv0)) as R2
  end.
  match type of R2 with
  | reachable _ _ ?w1 =>
      pose proof (reachable_step is_email db0 w1 _ R2
                    (step_read_profiles is_email w1 (Some u) email role r Hschema (Hprof db0 eq_refl eq_refl))) as R3
  end.
  match type of R3 with
  | reachable _ _ ?w1 =>
      pose proof (reachable_step is_email db0 w1 _ R3
                    (step_read_invites is_email w1 (Some u) email r [] [InvitesRead (Some u) email r] eq_refl Hinv0)) as R4
  end.
  match type of R4 with
  | reachable _ _ ?w1 =>
      pose proof (reachable_step is_email db0 w1 _ R4
                    (step_insert is_email w1 (Some u) email r now1 id1 tok1 [] [InvitesRead (Some u) email r] eq_refl)) as R5
  end.
  cbn [w_db w_forms w_submissions w_acceptances app w0] in R5. fold i1 in R5.
  rewrite (insert_invitation_super_admin db0 u i1 Hsa) in R5
    by (rewrite Hempty; apply not_elem_of_nil).
  match type of R5 with
  | reachable _ _ ?w1 =>
      pose proof (reachable_step is_email db0 w1 _ R5
                    (step_insert is_email w1 (Some u) email r now2 id2 tok2 [] [] eq_refl)) as R6
  end.
  cbn [w_db w_forms w_submissions w_acceptances app] in R6. fold i2 in R6.
  rewrite Hempty in R6. cbn [app] in R6.
  rewrite (insert_invitation_super_admin (with_invitations db0 [i1]) u i2) in R6; cycle 1.
  { exact Hsa. }
  { simpl. intros ->%list_elem_of_singleton. done. }
  { simpl. intros ->%list_elem_of_singleton. done. }
  cbn [invitations with_invitations app] in R6.
  eexists. split; [exact R6|]. cbn [w_db].
  assert (unaccepted_for
            (with_invitations (with_invitations db0 [i1]) [i1; i2]) email = [i1; i2])
    as Hpending.
  { unfold unaccepted_for. cbn [invitations with_invitations].
    apply filter_keeps_all. intros i Hi.
    apply elem_of_cons in Hi as [-> | ->%list_elem_of_singleton]; done. }
  split; [exact Hpending|].
  intros now3 id3 tok3 Hid31 Hid32 Htok31 Htok32.
  unfold InviteUserDialog.handleSubmit.
  rewrite Hschema.
  rewrite (Hprof (with_invitations (with_invitations db0 [i1]) [i1; i2]) eq_refl eq_refl).
  rewrite existing_invites_unaccepted, Hpending.
  cbn [maybeSingle data].
  change {| inv_id := id3; inv_email := email; inv_role := r; inv_token := tok3;
            inv_invited_by := Some u; inv_accepted_at := None;
            inv_expires_at := now3 + seven_days; inv_created_at := now3 |}
    with (new_invitation (Some u) email r now3 id3 tok3).
  rewrite insert_invitation_super_admin; [done|exact Hsa| |].
  - simpl. intros [H | H%list_elem_of_singleton]%elem_of_cons; done.
  - simpl. intros [H | H%list_elem_of_singleton]%elem_of_cons; done.
Qed.

End PendingInvitations.

Lemma duplicate_pending_invitations_reachable_demo :
  exists w,
    reachable Demo.is_email Demo.db0 w
    /\ unaccepted_for (w_db w) "amy@example.com"
       = [new_invitation (Some "root") "amy@example.com" admin 1000 "i-amy" "t-amy";
          new_invitation (Some "root") "amy@example.com" admin 1001 "i-amy2" "t-amy2"]
    /\ forall now3 id3 tok3,
         id3 <> "i-amy" -> id3 <> "i-amy2" -> tok3 <> "t-amy" -> tok3 <> "t-amy2" ->
         InviteUserDialog.handleSubmit Demo.is_email (Some "root") "amy@example.com"
           "admin" now3 id3 tok3 (w_db w)
         = (with_invitations (w_db w)
              (invitations (w_db w)
               ++ [new_invitation (Some "root") "amy@example.com" admin now3 id3 tok3]),
            InviteUserDialog.InvitationCreee tok3).
Proof.
  apply (duplicate_pending_invitations_reachable Demo.is_email Demo.db0 "root"
           "amy@example.com" "admin" admin 1000 1001 "i-amy" "i-amy2" "t-amy" "t-amy2").
  - reflexivity.
  - unfold holds_role. by_evaluation.
  - reflexivity.
  - by_evaluation.
  - done.
  - done.
Defined.

(** ** The scenarios of the specification, evaluated *)

(** An editor's private folder: hidden from an admin who is neither owner
    nor creator, shown to the super_admin and to the editor. *)
Example private_folder_scenario :
  canView Demo.db (Some "bob") Demo.erin_private_folder = false
  /\ canView Demo.db (Some "root") Demo.erin_private_folder = true
  /\ canView Demo.db (Some "erin") Demo.erin_private_folder = true.
Proof. repeat split; reflexivity. Qed.

(** A custom folder: shown to the holder of a grant, hidden from an admin
    without one. *)
Example custom_folder_scenario :
  canView Demo.db (Some "rick") Demo.erin_folder = true
  /\ canView Demo.db (Some "bob") Demo.erin_folder = false.
Proof. repeat split; reflexivity. Qed.

(** amy's invitation: created with an expiry seven days ahead, accepted on
    day 1 with the admin role recorded, and used up afterwards. *)
Example invitation_scenario :
  invitations (w_db Demo.invited) = [Demo.amy_invitation]
  /\ inv_expires_at Demo.amy_invitation = 1000 + seven_days
  /\ {| ur_user_id := "amy"; ur_role := admin |} ∈ user_roles (w_db Demo.accepted)
  /\ inv_accepted_at <$> invitations (w_db Demo.accepted) = [Some Demo.day1]
  /\ AcceptInvite.load (w_db Demo.accepted) None (Some "t-amy") Demo.day1
     = AcceptInvite.DejaUtilisee
  /\ AcceptInvite.load (w_db Demo.invited) None (Some "t-amy") Demo.day8
     = AcceptInvite.Expiree
  /\ AcceptInvite.load (w_db Demo.invited) None (Some "no-such-token") Demo.day1
     = AcceptInvite.Introuvable.
Proof. repeat split; try reflexivity. by_evaluation. Qed.

(** The resolver on the four roles and on no role. *)
Example capability_table :
  (granted (PermissionsProvider (Some reader)) <$>
     [CanUseChat; CanCreateFolders; CanDeleteFolders; CanViewUsers; CanManageUsers])
  = [true; false; false; false; false]
  /\ (granted (PermissionsProvider (Some editor)) <$>
        [CanUseChat; CanCreateFolders; CanDeleteFolders; CanViewUsers; CanManageUsers])
     = [true; true; false; false; false]
  /\ (granted (PermissionsProvider (Some admin)) <$>
        [CanUseChat; CanCreateFolders; CanDeleteFolders; CanViewUsers; CanManageUsers])
     = [true; true; true; true; false]
  /\ (granted (PermissionsProvider (Some super_admin)) <$>
        [CanUseChat; CanCreateFolders; CanDeleteFolders; CanViewUsers; CanManageUsers])
     = [true; true; true; true; true]
  /\ (granted (PermissionsProvider None) <$>
        [CanUseChat; CanCreateFolders; CanDeleteFolders; CanViewUsers; CanManageUsers])
     = [false; false; false; false; false].
Proof. repeat split; reflexivity. Qed.

(** * Further properties *)

(** ** Role functions of the store and the client *)

Section RoleFunctionFacts.
Variable db : database.

(** X1. The two definitions of [has_role_or_higher] that the migrations
    give compute the same answer for every requester (signed in or not)
    and every minimum role, and for a signed-in user the answer is true
    exactly when one of the user's role records ranks at least as high as
    the minimum in reader < editor < admin < super_admin. *)
Theorem has_role_or_higher_versions_agree (uid : option uuid) (m : app_role) :
  has_role_or_higher_v1 db uid m = has_role_or_higher db uid m
  /\ (forall u, Sql.holds (has_role_or_higher db (Some u) m) = true
                <-> exists r, holds_role db u r /\ roleHierarchy m <= roleHierarchy r).
Proof.
  split.
  - unfold has_role_or_higher_v1, has_role_or_higher, Sql.exists_.
    match goal with
    | |- Some (bool_decide (Sql.select ?c1 ?l <> [])) = Some (bool_decide (Sql.select ?c2 ?l <> [])) =>
        assert (Sql.select c1 l = Sql.select c2 l) as ->; [|done]
    end.
    unfold Sql.select. apply list_filter_iff. intros ur.
    destruct uid as [u|]; [|by destruct m, (ur_role ur)].
    simpl. case_bool_decide; by destruct m, (ur_role ur).
  - intros u. rewrite has_role_or_higher_hierarchy.
    split; intros (r & Hr & Hge); exists r; split; try done;
      by apply hasRole_hierarchy.
Qed.

Lemma select_by_user_unique (u : uuid) :
  unique_user_roles db ->
  (length (Sql.select (fun ur => Sql.eq (Some (ur_user_id ur)) (Some u)) (user_roles db))
   <= 1)%nat.
Proof.
  unfold unique_user_roles, Sql.select.
  induction (user_roles db) as [|ur l IH]; [intros _; rewrite filter_nil; simpl; lia|].
  rewrite fmap_cons. intros [Hnotin Hnd]%NoDup_cons. specialize (IH Hnd).
  rewrite filter_cons. case_decide as Hc; [|exact IH].
  apply holds_eq_Some in Hc. injection Hc as Hc.
  assert (filter (fun ur => Sql.holds (Sql.eq (Some (ur_user_id ur)) (Some u)) = true) l = [])
    as ->; [|simpl; lia].
  apply elem_of_nil_inv. intros x [Hx Hin]%list_elem_of_filter.
  apply holds_eq_Some in Hx. injection Hx as Hx.
  apply Hnotin. apply list_elem_of_fmap. exists x. split; [congruence|done].
Qed.

Lemma holds_role_select (u : uuid) (r : app_role) :
  holds_role db u r
  <-> {| ur_user_id := u; ur_role := r |}
      ∈ Sql.select (fun ur => Sql.eq (Some (ur_user_id ur)) (Some u)) (user_roles db).
Proof.
  unfold holds_role. rewrite elem_of_select. split; [|tauto].
  intros Hin. split; [done|]. by apply holds_eq_Some.
Qed.

(** X2. When no user has two role records (the UNIQUE constraint of the
    table), the store's [has_role_or_higher] and [get_user_role] agree with
    the client: for every user and minimum role, [has_role_or_higher]
    passes exactly when [hasRole] passes on the role that [fetchRole]
    loads, and [get_user_role] returns that role. *)
Theorem store_and_client_role_checks_agree (u : uuid) (m : app_role) :
  unique_user_roles db ->
  Sql.holds (has_role_or_higher db (Some u) m) = hasRole (fetchRole db (Some u)) (Some m)
  /\ get_user_role db (Some u) = fetchRole db (Some u).
Proof.
  intros Huniq. pose proof (select_by_user_unique u Huniq) as Hlen.
  unfold get_user_role, fetchRole.
  pose proof (has_role_or_higher_hierarchy db u m) as Hiff.
  pose proof (holds_role_select u) as Hsel.
  destruct (Sql.select _ (user_roles db)) as [|ur [|ur' l]] eqn:E;
    [| |simpl in Hlen; lia].
  - split; [|done]. apply not_true_is_false. rewrite Hiff.
    intros (r & Hr%Hsel & _). by apply elem_of_nil in Hr.
  - split; [|done].
    assert (ur ∈ Sql.select (fun ur => Sql.eq (Some (ur_user_id ur)) (Some u))
                            (user_roles db)) as Hur by (rewrite E; left).
    apply elem_of_select in Hur as [_ Hid%holds_eq_Some]. injection Hid as Hid.
    destruct (roleHierarchy (ur_role ur) >=? roleHierarchy m) eqn:Hge.
    + simpl. rewrite Hge. apply Hiff. exists (ur_role ur). split; [|done].
      apply Hsel. apply list_elem_of_singleton. destruct ur; simpl in *; congruence.
    + simpl. rewrite Hge. apply not_true_is_false. rewrite Hiff.
      intros (r & Hr%Hsel & Hr'). apply list_elem_of_singleton in Hr.
      subst ur. simpl in *. congruence.
Qed.

End RoleFunctionFacts.

Lemma store_and_client_role_checks_agree_demo :
  Sql.holds (has_role_or_higher Demo.db (Some "erin") editor)
  = hasRole (fetchRole Demo.db (Some "erin")) (Some editor)
  /\ get_user_role Demo.db (Some "erin") = fetchRole Demo.db (Some "erin").
Proof.
  apply (store_and_client_role_checks_agree Demo.db "erin" editor).
  unfold unique_user_roles. by_evaluation.
Defined.

(** X3. Every capability of the resolver is a threshold on the role: for
    every role, or none, the resolver grants a capability exactly when
    [hasRole] passes for the capability's least role, super_admin for the
    two exact-match capabilities, admin for viewing users, reader for the
    chat. *)
Theorem capabilities_are_thresholds (r : AppRole) (c : capability) :
  granted (PermissionsProvider r) c = hasRole r (Some (threshold c)).
Proof. destruct r as [[]|], c; reflexivity. Qed.

(** X4. [hasRole] orders the four roles totally: it is reflexive,
    transitive and antisymmetric on roles and any two roles compare one
    way or the other; it refuses whenever the held role or the minimum
    role is null. *)
Theorem hasRole_total_order :
  (forall r, hasRole (Some r) (Some r) = true)
  /\ (forall r1 r2 r3, hasRole (Some r1) (Some r2) = true ->
        hasRole (Some r2) (Some r3) = true -> hasRole (Some r1) (Some r3) = true)
  /\ (forall r1 r2, hasRole (Some r1) (Some r2) = true ->
        hasRole (Some r2) (Some r1) = true -> r1 = r2)
  /\ (forall r1 r2, hasRole (Some r1) (Some r2) = true \/ hasRole (Some r2) (Some r1) = true)
  /\ (forall r, hasRole r None = false)
  /\ (forall m, hasRole None m = false).
Proof.
  repeat split.
  - by intros [].
  - intros r1 r2 r3. rewrite !hasRole_hierarchy. lia.
  - intros r1 r2. rewrite !hasRole_hierarchy. destruct r1, r2; simpl; try done; lia.
  - intros r1 r2. rewrite !hasRole_hierarchy. lia.
  - by intros [[]|].
Qed.

(** ** Folder visibility beyond the three levels *)

Section MoreVisibility.
Variable db : database.

(** X5. [can_access_folder] passes for a signed-in user exactly when the
    user owns ([user_id]) a stored folder with that id and, besides, is
    super_admin, or the folder is a team folder, or it is private and the
    user created it, or it is custom and a grant for the user exists; so
    it never passes for a user who does not own the folder, super_admin
    and grant holders included, and whenever it passes the folder passes
    the read policy for the user. *)
Theorem can_access_folder_owner_only (u : uuid) (folderId : uuid) :
  (Sql.holds (can_access_folder db (Some u) folderId) = true
   <-> exists f, f ∈ folders db /\ f_id f = folderId /\ f_user_id f = Some u
                 /\ (holds_role db u super_admin
                     \/ f_access_level f = team
                     \/ (f_access_level f = private /\ f_created_by f = Some u)
                     \/ (f_access_level f = custom /\ has_grant db folderId u)))
  /\ (Sql.holds (can_access_folder db (Some u) folderId) = true ->
      exists f, f ∈ folders db /\ f_id f = folderId /\ canView db (Some u) f = true)
  /\ ((forall f, f ∈ folders db -> f_id f = folderId -> f_user_id f <> Some u) ->
      Sql.holds (can_access_folder db (Some u) folderId) = false).
Proof.
  assert (Sql.holds (can_access_folder db (Some u) folderId) = true
   <-> exists f, f ∈ folders db /\ f_id f = folderId /\ f_user_id f = Some u
                 /\ (holds_role db u super_admin
                     \/ f_access_level f = team
                     \/ (f_access_level f = private /\ f_created_by f = Some u)
                     \/ (f_access_level f = custom /\ has_grant db folderId u))) as Hiff.
  { unfold can_access_folder. rewrite holds_exists.
    assert (forall a b : folder_access_level, Some a = Some b <-> a = b) as Hinj
      by (intros; split; congruence).
    split.
    - intros (f & Hin & Hc). exists f. split; [done|].
      rewrite !holds_and, !andb_true_iff in Hc. destruct Hc as [[Hid Hown] Hc].
      apply holds_eq_Some in Hid. apply holds_eq_Some_r in Hown.
      split; [congruence|]. split; [done|].
      rewrite !holds_or, !holds_and, !orb_true_iff, !andb_true_iff in Hc.
      rewrite !holds_or, !orb_true_iff in Hc.
      rewrite has_role_holds, has_folder_permission_holds, !holds_eq_Some_r, !Hinj in Hc.
      tauto.
    - intros (f & Hin & Hid & Hown & Hc). exists f. split; [done|].
      rewrite !holds_and, !andb_true_iff. split; [split|].
      + apply holds_eq_Some. congruence.
      + by apply holds_eq_Some_r.
      + rewrite !holds_or, !holds_and, !orb_true_iff, !andb_true_iff.
        rewrite !holds_or, !orb_true_iff.
        rewrite has_role_holds, has_folder_permission_holds, !holds_eq_Some_r, !Hinj.
        tauto. }
  split; [exact Hiff|]. split.
  - intros (f & Hin & Hid & Hown & _)%Hiff. exists f. split; [done|]. split; [done|].
    apply canView_user. by left.
  - intros Hnot. apply not_true_is_false.
    intros (f & Hin & Hid & Hown & _)%Hiff. by apply (Hnot f).
Qed.

(** X6. A request without a signed-in user passes the read policy of
    [folders] on the team folders and on no other folder; a super_admin
    passes it on every folder. *)
Theorem anonymous_and_super_admin_visibility :
  (forall f, canView db None f = true <-> f_access_level f = team)
  /\ (forall u f, holds_role db u super_admin -> canView db (Some u) f = true).
Proof.
  split.
  - apply canView_anonymous.
  - intros u f Hsa. apply canView_user. tauto.
Qed.

(** X7. Grants count for custom folders only: for a folder that is private
    or team, whatever rows [folder_permissions] holds, the read policy
    gives every requester the same answer. *)
Theorem grants_inert_unless_custom (fps : list folder_permission) (uid : option uuid)
    (f : folder) :
  f_access_level f <> custom ->
  canView (with_folder_permissions db fps) uid f = canView db uid f.
Proof.
  intros Hne. unfold canView, folders_select_policy.
  rewrite !holds_or, !holds_and.
  assert (Sql.holds (Sql.eq (Some (f_access_level f)) (Some custom)) = false) as ->.
  { apply not_true_is_false. intros H%holds_eq_Some. congruence. }
  reflexivity.
Qed.

End MoreVisibility.

Lemma grants_inert_unless_custom_demo :
  canView (with_folder_permissions Demo.db []) (Some "rick") Demo.team_folder
  = canView Demo.db (Some "rick") Demo.team_folder.
Proof.
  apply (grants_inert_unless_custom Demo.db [] (Some "rick") Demo.team_folder). done.
Defined.

(** ** Navigation *)

(** X8. The sidebar and the page guards agree for every role: the links
    to the dashboard, the documents and the chat are always shown; the
    team link is shown exactly when the team page does not send the
    visitor away (super_admin only); the settings link is shown exactly to
    admin and super_admin, and the settings page sends away exactly the
    readers and editors, so a visitor without any role sees no settings
    link and yet is not sent away from the settings page. *)
Theorem sidebar_links_match_page_guards (r : AppRole) :
  let p := PermissionsProvider r in
  let links := Sidebar.href <$> Sidebar.visibleItems p in
  ("/dashboard" ∈ links /\ "/documents" ∈ links /\ "/chat" ∈ links)
  /\ ("/team" ∈ links <-> team_redirects false p = false)
  /\ ("/team" ∈ links <-> r = Some super_admin)
  /\ ("/settings" ∈ links <-> r = Some admin \/ r = Some super_admin)
  /\ (settings_redirects false p = true <-> r = Some reader \/ r = Some editor)
  /\ (forall loading, team_redirects loading (PermissionsProvider None) = negb loading
                      /\ settings_redirects loading (PermissionsProvider None) = false).
Proof.
  simpl. split; [|split; [|split; [|split; [|split]]]].
  - destruct r as [[]|]; repeat split; by_evaluation.
  - destruct r as [[]|]; split; intros H; try reflexivity; try by_evaluation;
      try discriminate H;
      exfalso; revert H; apply (bool_decide_unpack _); vm_compute; exact I.
  - destruct r as [[]|]; split; intros H; try reflexivity; try by_evaluation;
      try discriminate H;
      exfalso; revert H; apply (bool_decide_unpack _); vm_compute; exact I.
  - destruct r as [[]|]; split; intros H; try by_evaluation;
      try (by left); try (by right);
      try (destruct H as [H|H]; discriminate H);
      exfalso; revert H; apply (bool_decide_unpack _); vm_compute; exact I.
  - destruct r as [[]|]; split; intros H; try reflexivity;
      try (by left); try (by right); try discriminate H;
      destruct H as [H|H]; discriminate H.
  - intros []; split; reflexivity.
Qed.

(** ** Invitations: resolving, reusing, revoking *)

Section InvitationLookups.

Lemma filter_key_unique {A K} `{EqDecision K} (key : A -> K) (k : K) (l : list A) :
  NoDup (key <$> l) -> (length (filter (fun x => key x = k) l) <= 1)%nat.
Proof.
  induction l as [|x l IH]; [intros _; rewrite filter_nil; simpl; lia|].
  rewrite fmap_cons. intros [Hnotin Hnd]%NoDup_cons. specialize (IH Hnd).
  rewrite filter_cons. case_decide as Hc; [|exact IH].
  assert (filter (fun x => key x = k) l = []) as ->; [|simpl; lia].
  apply elem_of_nil_inv. intros y [Hy Hin]%list_elem_of_filter.
  apply Hnotin. apply list_elem_of_fmap. exists y. split; [congruence|done].
Qed.

(** The rows a requester finds under a token. *)
Lemma select_by_token (db : database) uid (token : string) :
  Sql.select (fun i => Sql.eq (Some (inv_token i)) (Some token)) (select_invitations db uid)
  = filter (fun i => inv_token i = token) (invitations db).
Proof.
  rewrite (select_invitations_all db uid).
  unfold Sql.select. apply list_filter_iff. intros i.
  rewrite holds_eq_Some. split; congruence.
Qed.

Lemma select_by_token_unique (db : database) uid (i : invitation) :
  unique_tokens db -> i ∈ invitations db ->
  Sql.select (fun j => Sql.eq (Some (inv_token j)) (Some (inv_token i)))
             (select_invitations db uid) = [i].
Proof.
  intros Huniq Hin. rewrite select_by_token.
  pose proof (filter_key_unique inv_token (inv_token i) (invitations db) Huniq) as Hlen.
  assert (i ∈ filter (fun j => inv_token j = inv_token i) (invitations db)) as Hi
    by (apply list_elem_of_filter; done).
  destruct (filter _ (invitations db)) as [|j [|k l]]; simpl in Hlen.
  - by apply elem_of_nil in Hi.
  - apply list_elem_of_singleton in Hi. by subst.
  - lia.
Qed.

Lemma select_by_token_none (db : database) uid (token : string) :
  (forall i, i ∈ invitations db -> inv_token i <> token) ->
  Sql.select (fun j => Sql.eq (Some (inv_token j)) (Some token))
             (select_invitations db uid) = [].
Proof.
  intros Hnone. rewrite select_by_token. apply elem_of_nil_inv.
  intros i [Ht Hin]%list_elem_of_filter. by apply (Hnone i).
Qed.

(** What [fetchInvitation] answers for a stored invitation. *)
Lemma fetchInvitation_stored (db : database) uid (i : invitation) (now : timestamp) :
  unique_tokens db -> i ∈ invitations db ->
  AcceptInvite.fetchInvitation db uid (inv_token i) now
  = match inv_accepted_at i with
    | Some _ => AcceptInvite.DejaUtilisee
    | None => if inv_expires_at i <? now then AcceptInvite.Expiree
              else AcceptInvite.Loaded i
    end.
Proof.
  intros Huniq Hin. unfold AcceptInvite.fetchInvitation.
  by rewrite select_by_token_unique.
Qed.

(** X9. With tokens unique (the UNIQUE constraint), what the acceptance
    page answers for a token is decided by the one stored invitation
    with that token: not found when there is none, already used when it
    was accepted, expired when it is unaccepted and its expiry lies
    strictly before the current time, and loaded otherwise; at the very
    instant of expiry the invitation still loads, one millisecond later
    it is expired. *)
Theorem fetchInvitation_outcomes (db : database) uid (token : string) (now : timestamp) :
  unique_tokens db ->
  (AcceptInvite.fetchInvitation db uid token now = AcceptInvite.Introuvable
   <-> forall i, i ∈ invitations db -> inv_token i <> token)
  /\ (AcceptInvite.fetchInvitation db uid token now = AcceptInvite.DejaUtilisee
      <-> exists i, i ∈ invitations db /\ inv_token i = token /\ inv_accepted_at i <> None)
  /\ (AcceptInvite.fetchInvitation db uid token now = AcceptInvite.Expiree
      <-> exists i, i ∈ invitations db /\ inv_token i = token
                    /\ inv_accepted_at i = None /\ inv_expires_at i < now)
  /\ (forall i, AcceptInvite.fetchInvitation db uid token now = AcceptInvite.Loaded i
                <-> i ∈ invitations db /\ inv_token i = token
                    /\ inv_accepted_at i = None /\ now <= inv_expires_at i)
  /\ (forall i, i ∈ invitations db -> inv_accepted_at i = None ->
        AcceptInvite.fetchInvitation db uid (inv_token i) (inv_expires_at i)
        = AcceptInvite.Loaded i
        /\ AcceptInvite.fetchInvitation db uid (inv_token i) (inv_expires_at i + 1)
           = AcceptInvite.Expiree).
Proof.
  intros Huniq.
  assert (forall i, i ∈ invitations db -> inv_token i = token ->
            AcceptInvite.fetchInvitation db uid token now
            = match inv_accepted_at i with
              | Some _ => AcceptInvite.DejaUtilisee
              | None => if inv_expires_at i <? now then AcceptInvite.Expiree
                        else AcceptInvite.Loaded i
              end) as Hstored.
  { intros i Hin <-. by apply fetchInvitation_stored. }
  assert ((forall i, i ∈ invitations db -> inv_token i <> token) ->
          AcceptInvite.fetchInvitation db uid token now = AcceptInvite.Introuvable) as Hnone.
  { intros Hn. unfold AcceptInvite.fetchInvitation. by rewrite select_by_token_none. }
  assert ((forall i, i ∈ invitations db -> inv_token i <> token)
          \/ exists i, i ∈ invitations db /\ inv_token i = token) as Hcase.
  { destruct (decide (Exists (fun i => inv_token i = token) (invitations db)))
      as [Hex|Hnex].
    - right. by apply Exists_exists in Hex.
    - left. intros i Hin Ht. apply Hnex. apply Exists_exists. eauto. }
  split; [|split; [|split; [|split]]].
  - split; [|exact Hnone]. intros Hf i Hin Ht.
    rewrite (Hstored i Hin Ht) in Hf.
    destruct (inv_accepted_at i); [done|]. by destruct (inv_expires_at i <? now).
  - split.
    + intros Hf. destruct Hcase as [Hn|(i & Hin & Ht)]; [by rewrite Hnone in Hf|].
      exists i. split; [done|]. split; [done|]. rewrite (Hstored i Hin Ht) in Hf.
      destruct (inv_accepted_at i); [done|]. by destruct (inv_expires_at i <? now).
    + intros (i & Hin & Ht & Ha). rewrite (Hstored i Hin Ht).
      by destruct (inv_accepted_at i).
  - split.
    + intros Hf. destruct Hcase as [Hn|(i & Hin & Ht)]; [by rewrite Hnone in Hf|].
      exists i. split; [done|]. split; [done|]. rewrite (Hstored i Hin Ht) in Hf.
      destruct (inv_accepted_at i); [done|].
      destruct (inv_expires_at i <? now) eqn:E; [|done]. apply Z.ltb_lt in E. done.
    + intros (i & Hin & Ht & Ha & He). rewrite (Hstored i Hin Ht), Ha.
      apply Z.ltb_lt in He. by rewrite He.
  - intros i. split.
    + intros Hf. by apply fetchInvitation_loaded in Hf.
    + intros (Hin & Ht & Ha & He). rewrite (Hstored i Hin Ht), Ha.
      apply Z.ltb_ge in He. by rewrite He.
  - intros i Hin Ha. rewrite !fetchInvitation_stored, Ha by done.
    rewrite Z.ltb_irrefl. split; [done|].
    assert ((inv_expires_at i <? inv_expires_at i + 1) = true) as ->
      by (apply Z.ltb_lt; lia).
    done.
Qed.

Lemma stamp_token (id : uuid) (now : timestamp) (i : invitation) :
  inv_token (AcceptInvite.stamp id now i) = inv_token i.
Proof. unfold AcceptInvite.stamp. by case_bool_decide. Qed.

Lemma stamp_id (id : uuid) (now : timestamp) (i : invitation) :
  inv_id (AcceptInvite.stamp id now i) = inv_id i.
Proof. unfold AcceptInvite.stamp. by case_bool_decide. Qed.

Lemma stamp_tokens (id : uuid) (now : timestamp) (l : list invitation) :
  inv_token <$> (AcceptInvite.stamp id now <$> l) = inv_token <$> l.
Proof.
  rewrite <- list_fmap_compose. apply list_fmap_ext. intros _ i _. apply stamp_token.
Qed.

Lemma stamp_ids (id : uuid) (now : timestamp) (l : list invitation) :
  inv_id <$> (AcceptInvite.stamp id now <$> l) = inv_id <$> l.
Proof.
  rewrite <- list_fmap_compose. apply list_fmap_ext. intros _ i _. apply stamp_id.
Qed.

(** X10. An accepted invitation cannot be used again: once a submission
    for a stored invitation has gone through with its acceptance stamp
    applied, the invitation's token answers "already used" on the
    acceptance page for every requester at every later time, so no form
    is shown for it any more. *)
Theorem accepted_invitation_is_used_up (db : database) (i : invitation)
    (fullName password : string) (id : uuid) (now : timestamp) uid (later : timestamp) :
  unique_tokens db -> i ∈ invitations db ->
  AcceptInvite.signupSchema fullName password password = None ->
  let run := AcceptInvite.handleSubmit (Some i) fullName password password
               {| AcceptInvite.signUp := AcceptInvite.SignUpUser id;
                  AcceptInvite.roleError := false;
                  AcceptInvite.stamp_applied := true |} now db in
  snd run = AcceptInvite.CompteCree
  /\ AcceptInvite.fetchInvitation (fst run) uid (inv_token i) later
     = AcceptInvite.DejaUtilisee
  /\ AcceptInvite.form_invitation
       (AcceptInvite.load (fst run) uid (Some (inv_token i)) later) = None.
Proof.
  intros Huniq Hin Hform. simpl.
  unfold AcceptInvite.handleSubmit. rewrite Hform. simpl.
  match goal with
  | |- _ /\ AcceptInvite.fetchInvitation ?d _ _ _ = _ /\ _ => set (db' := d)
  end.
  assert (AcceptInvite.fetchInvitation db' uid (inv_token i) later
          = AcceptInvite.DejaUtilisee) as Hfetch.
  { assert (unique_tokens db') as Huniq'
      by (unfold unique_tokens, db'; simpl; by rewrite stamp_tokens).
    assert (AcceptInvite.stamp (inv_id i) now i ∈ invitations db') as Hin'
      by (unfold db'; simpl; by apply list_elem_of_fmap_2).
    pose proof (fetchInvitation_stored db' uid _ later Huniq' Hin') as Hf.
    rewrite stamp_token in Hf. rewrite Hf.
    unfold AcceptInvite.stamp. by rewrite bool_decide_eq_true_2. }
  split; [done|]. split; [exact Hfetch|].
  unfold AcceptInvite.load. case_bool_decide; [done|]. by rewrite Hfetch.
Qed.

End InvitationLookups.

Section InvitationWrites.
Variable is_email : string -> bool.

Lemma NoDup_fmap_filter {A K} (key : A -> K) (P : A -> Prop)
    `{forall x, Decision (P x)} (l : list A) :
  NoDup (key <$> l) -> NoDup (key <$> filter P l).
Proof.
  induction l as [|x l IH]; [done|].
  rewrite fmap_cons. intros [Hnotin Hnd]%NoDup_cons. rewrite filter_cons.
  case_decide; [|by apply IH].
  rewrite fmap_cons. apply NoDup_cons. split; [|by apply IH].
  intros (y & Hy & [_ Hin]%list_elem_of_filter)%list_elem_of_fmap.
  apply Hnotin. apply list_elem_of_fmap. eauto.
Qed.

Lemma with_invitations_same (db : database) : with_invitations db (invitations db) = db.
Proof. by destruct db. Qed.

(** A creation either leaves the store or appends the one new row, whose
    id and token were not in use. *)
Lemma handleSubmit_fresh (db : database) user email role now new_id new_token :
  let run := InviteUserDialog.handleSubmit is_email user email role now new_id new_token db in
  (fst run = db /\ forall t, snd run <> InviteUserDialog.InvitationCreee t)
  \/ exists r, InviteUserDialog.role_enum role = Some r
               /\ Sql.holds (has_role db user super_admin) = true
               /\ (new_id ∉ inv_id <$> invitations db)
               /\ (new_token ∉ inv_token <$> invitations db)
               /\ run = (with_invitations db
                           (invitations db
                            ++ [new_invitation user email r now new_id new_token]),
                         InviteUserDialog.InvitationCreee new_token).
Proof.
  simpl. unfold InviteUserDialog.handleSubmit, InviteUserDialog.inviteSchema.
  destruct (negb (is_email email)); [store_unchanged|].
  case_bool_decide; [store_unchanged|].
  destruct (InviteUserDialog.role_enum role) as [r|] eqn:Hr; [|store_unchanged].
  destruct (data (maybeSingle (InviteUserDialog.existing_profiles _ _ _)));
    [store_unchanged|].
  destruct (data (maybeSingle (InviteUserDialog.existing_invites _ _ _)));
    [store_unchanged|].
  unfold insert_invitation, invitations_manage_policy.
  destruct (Sql.holds (has_role db user super_admin)) eqn:Hsa; [|store_unchanged].
  cbn [andb inv_id inv_token]. case_bool_decide as Hid; [|store_unchanged].
  case_bool_decide as Htok; [|store_unchanged].
  right. exists r. done.
Qed.

(** X11. The dialog that creates invitations only ever appends: whatever
    is submitted, the stored invitations stay as they are, in place, at
    most one row is added behind them, and no other table changes; a row
    is added exactly when the dialog ends with the invitation link, and
    then the requester is super_admin, the role is one of the three of
    the enumeration, the row is unaccepted and expires seven days after
    its creation. *)
Theorem creation_only_appends (db : database) user email role now new_id new_token :
  let run := InviteUserDialog.handleSubmit is_email user email role now new_id new_token db in
  exists added,
    fst run = with_invitations db (invitations db ++ added)
    /\ (added = [] <-> forall t, snd run <> InviteUserDialog.InvitationCreee t)
    /\ Forall (fun i =>
         snd run = InviteUserDialog.InvitationCreee (inv_token i)
         /\ Sql.holds (has_role db user super_admin) = true
         /\ InviteUserDialog.role_enum role = Some (inv_role i)
         /\ inv_email i = email /\ inv_invited_by i = user
         /\ inv_accepted_at i = None
         /\ inv_expires_at i = inv_created_at i + seven_days
         /\ added = [i]) added.
Proof.
  destruct (handleSubmit_fresh db user email role now new_id new_token)
    as [[Hdb Hres] | (r & Hr & Hsa & Hid & Htok & Hrun)]; simpl in *.
  - exists []. rewrite app_nil_r, with_invitations_same. done.
  - rewrite Hrun. simpl.
    exists [new_invitation user email r now new_id new_token].
    split; [done|]. split.
    + split; [done|]. intros Hno. by destruct (Hno new_token).
    + apply Forall_singleton. simpl. done.
Qed.

(** X12. Writes to the invitations by a requester who is not super_admin
    do nothing to the store: a creation never stores a row, and a deletion
    from the team page removes none, although the page then takes the row
    off its list and announces the removal. *)
Theorem refused_invitation_writes (db : database) (uid : option uuid)
    email role now new_id new_token (shown : list invitation) (id : uuid) :
  Sql.holds (has_role db uid super_admin) = false ->
  fst (InviteUserDialog.handleSubmit is_email uid email role now new_id new_token db) = db
  /\ handleDeleteInvitation uid false db shown id
     = (db, filter (fun i => inv_id i <> id) shown, true).
Proof.
  intros Hno. split.
  - destruct (handleSubmit_fresh db uid email role now new_id new_token)
      as [[Hdb _] | (r & _ & Hsa & _)]; [done|congruence].
  - unfold handleDeleteInvitation, delete_invitation, invitations_manage_policy.
    rewrite filter_keeps_all; [by rewrite with_invitations_same|].
    intros i _ [_ Hh]. congruence.
Qed.

(** X13. A super_admin's deletion of a stored invitation on the team
    page removes it from the store and from the page's list, keeps every
    invitation with another id, and kills the link: with tokens unique,
    the invitation's token is not found any more by the acceptance
    page. *)
Theorem revoked_invitation_not_found (db : database) (u : uuid) (i : invitation)
    (shown : list invitation) uid (now : timestamp) :
  holds_role db u super_admin -> unique_tokens db -> i ∈ invitations db ->
  let '(db', shown', announced) :=
    handleDeleteInvitation (Some u) false db shown (inv_id i) in
  announced = true
  /\ Forall (fun j => inv_id j <> inv_id i) (invitations db')
  /\ Forall (fun j => inv_id j <> inv_id i) shown'
  /\ (forall j, j ∈ invitations db -> inv_id j <> inv_id i -> j ∈ invitations db')
  /\ AcceptInvite.fetchInvitation db' uid (inv_token i) now = AcceptInvite.Introuvable.
Proof.
  intros Hsa%has_role_holds Huniq Hin. unfold handleDeleteInvitation. simpl.
  assert (forall j, j ∈ invitations (delete_invitation db (Some u) (inv_id i))
                    <-> j ∈ invitations db /\ inv_id j <> inv_id i) as Hmem.
  { intros j. unfold delete_invitation, invitations_manage_policy.
    cbn [invitations with_invitations].
    rewrite list_elem_of_filter, Hsa. split.
    - intros [Hk Hj]. split; [done|]. intros E. by apply Hk.
    - intros [Hj Hne]. split; [|done]. intros [E _]. done. }
  split; [done|]. split; [|split; [|split]].
  - apply Forall_forall. intros j Hj%Hmem. tauto.
  - apply Forall_forall. intros j [Hj _]%list_elem_of_filter. done.
  - intros j Hj Hne. apply Hmem. done.
  - unfold AcceptInvite.fetchInvitation. rewrite select_by_token_none; [done|].
    intros j [Hj Hne]%Hmem Ht.
    pose proof (filter_key_unique inv_token (inv_token i) (invitations db) Huniq) as Hlen.
    assert (i ∈ filter (fun x => inv_token x = inv_token i) (invitations db)) as Hi
      by (apply list_elem_of_filter; done).
    assert (j ∈ filter (fun x => inv_token x = inv_token i) (invitations db)) as Hj'
      by (apply list_elem_of_filter; done).
    destruct (filter _ (invitations db)) as [|a [|b l]]; simpl in Hlen; [| |lia].
    + by apply elem_of_nil in Hi.
    + apply list_elem_of_singleton in Hi, Hj'. congruence.
Qed.

(** X14. Ids and tokens stay unique through the invitation flow: in
    every state reached from a store without invitations by the requests
    of creating, revoking, opening and accepting, in any interleaving, no
    two stored invitations share a token or an id, so a token never
    resolves to more than one invitation. *)
Theorem tokens_stay_unique (db0 : database) (w : world) :
  reachable is_email db0 w ->
  unique_tokens (w_db w) /\ unique_invitation_ids (w_db w).
Proof.
  unfold unique_tokens, unique_invitation_ids.
  induction 1 as [Hempty | w w' _ [IHt IHi] Hstep].
  - simpl. rewrite Hempty. split; constructor.
  - destruct Hstep as [w user email role r Hschema Hprof
                      | w user email r l1 l2 Hsub Hnone
                      | w user email r now new_id new_token l1 l2 Hsub
                      | w s l1 l2 Hsub
                      | w user id
                      | w uid token now i Hload
                      | w i fullName password confirmPassword id Hi Hform
                      | w i id l1 l2 Hacc
                      | w a l1 l2 Hacc
                      | w i id now applied l1 l2 Hacc];
      cbn [w_db]; try done.
    + (* the insert is checked against PRIMARY KEY (id) and UNIQUE (token) *)
      unfold insert_invitation.
      destruct (Sql.holds _); [|done]. cbn [andb inv_id inv_token new_invitation].
      case_bool_decide as Hid; [|done]. case_bool_decide as Htok; [|done].
      cbn [andb invitations with_invitations]. rewrite !fmap_app.
      split; apply NoDup_app; (split; [done|]);
        (split; [|apply NoDup_singleton]); simpl;
        intros x Hx ->%list_elem_of_singleton; done.
    + split; by apply NoDup_fmap_filter.
    + destruct applied; [|done]. cbn [invitations with_invitations].
      by rewrite stamp_tokens, stamp_ids.
Qed.

End InvitationWrites.

(** ** The access dialog *)

Section AccessDialog.
Variable db : database.
Variable uid : option uuid.
Variable folderId : uuid.

(** What the manage policy asks of the requester. *)
Lemma manage_policy_holds (d : database) (fp : folder_permission) :
  Sql.holds (folder_permissions_manage_policy d uid fp) = true
  <-> exists u, uid = Some u
                /\ (holds_role d u super_admin \/ holds_role d u admin
                    \/ created_visible_folder d (fp_folder_id fp) u).
Proof.
  unfold folder_permissions_manage_policy, fp_super_admin_policy, fp_admin_policy.
  rewrite !holds_or, !orb_true_iff, fp_creator_policy_holds.
  destruct uid as [u|].
  - rewrite !has_role_holds. split.
    + intros [[H|H]|(u' & [= <-] & H)]; eauto.
    + intros (u' & [= <-] & [H|[H|H]]); eauto.
  - rewrite !has_role_anonymous. split.
    + intros [[H|H]|(u' & [=] & _)]; done.
    + intros (u' & [=] & _).
Qed.

Lemma created_visible_created (d : database) (fid u : uuid) :
  created_visible_folder d fid u -> created_folder d fid u.
Proof.
  unfold created_visible_folder, created_folder. rewrite !Exists_exists.
  intros (f & Hin & Hid & Hcb & _). eauto.
Qed.

(** Who passes the policy is one of those it names. *)
Lemma manage_policy_may_manage (d : database) (fp : folder_permission) :
  Sql.holds (folder_permissions_manage_policy d uid fp) = true ->
  may_manage_grants d uid (fp_folder_id fp).
Proof.
  intros (u & Hu & H)%manage_policy_holds. exists u. split; [exact Hu|].
  destruct H as [H|[H|H%created_visible_created]]; tauto.
Qed.

(** The creator passes once the folder can be read; a team folder and a
    private folder can always be read by their creator. *)
Lemma manage_policy_creator (d : database) (fp : folder_permission) (u : uuid) (f : folder) :
  uid = Some u -> f ∈ folders d -> f_id f = fp_folder_id fp -> f_created_by f = Some u ->
  f_access_level f <> custom \/ f_user_id f = Some u ->
  Sql.holds (folder_permissions_manage_policy d uid fp) = true.
Proof.
  intros Hu Hin Hid Hcb Hvis. apply manage_policy_holds. exists u. split; [exact Hu|].
  right; right. apply Exists_exists. exists f. repeat split; try done.
  apply canView_user. destruct Hvis as [Hlv|Hown]; [|tauto].
  destruct (f_access_level f); [tauto|tauto|done].
Qed.

Lemma set_access_level_id (lv : folder_access_level) (f : folder) :
  f_id (FolderAccessDialog.set_access_level folderId lv f) = f_id f.
Proof. unfold FolderAccessDialog.set_access_level. by case_bool_decide. Qed.

Lemma set_access_level_created_by (lv : folder_access_level) (f : folder) :
  f_created_by (FolderAccessDialog.set_access_level folderId lv f) = f_created_by f.
Proof. unfold FolderAccessDialog.set_access_level. by case_bool_decide. Qed.

Lemma set_access_level_user_id (lv : folder_access_level) (f : folder) :
  f_user_id (FolderAccessDialog.set_access_level folderId lv f) = f_user_id f.
Proof. unfold FolderAccessDialog.set_access_level. by case_bool_decide. Qed.

Lemma set_access_level_level (lv : folder_access_level) (f : folder) :
  f_id f = folderId ->
  f_access_level (FolderAccessDialog.set_access_level folderId lv f) = lv.
Proof.
  intros E. unfold FolderAccessDialog.set_access_level. by rewrite bool_decide_eq_true_2.
Qed.

(** Changing levels changes neither roles nor who created a folder. *)
Lemma may_manage_after_level (lv : folder_access_level) (fid : uuid) :
  may_manage_grants
    (with_folders db (FolderAccessDialog.set_access_level folderId lv <$> folders db))
    uid fid
  <-> may_manage_grants db uid fid.
Proof.
  unfold may_manage_grants, created_folder, holds_role. simpl.
  assert (forall u,
    Exists (fun f => f_id f = fid /\ f_created_by f = Some u)
           (FolderAccessDialog.set_access_level folderId lv <$> folders db)
    <-> Exists (fun f => f_id f = fid /\ f_created_by f = Some u) (folders db)) as Hex.
  { intros u. rewrite Exists_fmap. apply Exists_proper; [|done]. intros f. simpl.
    by rewrite set_access_level_id, set_access_level_created_by. }
  split; intros (u & -> & H); exists u; (split; [done|]); rewrite Hex in *; done.
Qed.

Lemma after_level_grants env lv :
  folder_permissions (after_level db folderId env lv) = folder_permissions db.
Proof. unfold after_level. by destruct (FolderAccessDialog.level_applied env). Qed.

Lemma after_level_users env lv :
  auth_users (after_level db folderId env lv) = auth_users db.
Proof. unfold after_level. by destruct (FolderAccessDialog.level_applied env). Qed.

Lemma after_level_ids env lv :
  f_id <$> folders (after_level db folderId env lv) = f_id <$> folders db.
Proof.
  unfold after_level. destruct (FolderAccessDialog.level_applied env); [|done].
  simpl. rewrite <- list_fmap_compose. apply list_fmap_ext.
  intros _ f _. apply set_access_level_id.
Qed.

Lemma after_level_may_manage env lv fid :
  may_manage_grants (after_level db folderId env lv) uid fid <-> may_manage_grants db uid fid.
Proof.
  unfold after_level. destruct (FolderAccessDialog.level_applied env); [|done].
  apply may_manage_after_level.
Qed.

Lemma entitled_after_level env lv :
  entitled_at_every_level db uid folderId ->
  entitled_at_every_level (after_level db folderId env lv) uid folderId.
Proof.
  unfold after_level. destruct (FolderAccessDialog.level_applied env); [|done].
  unfold entitled_at_every_level, created_folder, owns_folder, holds_role. simpl.
  intros (u & -> & H). exists u. split; [done|].
  destruct H as [H|[H|[Hc Ho]]]; [tauto|tauto|]. right; right. split.
  - rewrite Exists_fmap. eapply Exists_impl; [exact Hc|]. intros f. simpl.
    by rewrite set_access_level_id, set_access_level_created_by.
  - rewrite Forall_fmap. eapply Forall_impl; [exact Ho|]. intros f. simpl.
    by rewrite set_access_level_id, set_access_level_user_id.
Qed.

(** Such a requester passes the policy for the grants of the folder. *)
Lemma entitled_policy (d : database) (fp : folder_permission) :
  entitled_at_every_level d uid folderId -> fp_folder_id fp = folderId ->
  Sql.holds (folder_permissions_manage_policy d uid fp) = true.
Proof.
  intros (u & Hu & H) Hfp. destruct H as [H|[H|[Hc Ho]]].
  - apply manage_policy_holds. exists u. tauto.
  - apply manage_policy_holds. exists u. tauto.
  - apply Exists_exists in Hc as (f & Hin & Hid & Hcb).
    unfold owns_folder in Ho. rewrite Forall_forall in Ho.
    apply (manage_policy_creator d fp u f); try done; [congruence|].
    right. by apply Ho.
Qed.

Lemma delete_folder_permissions_passing (d : database) :
  (forall fp, fp_folder_id fp = folderId ->
              Sql.holds (folder_permissions_manage_policy d uid fp) = true) ->
  folder_permissions (delete_folder_permissions d uid folderId)
  = filter (fun fp => fp_folder_id fp <> folderId) (folder_permissions d).
Proof.
  intros Hpass. unfold delete_folder_permissions. simpl.
  apply list_filter_iff. intros fp. split.
  - intros Hk E. apply Hk. split; [done|]. by apply Hpass.
  - intros Hne [E _]. done.
Qed.

Lemma delete_folder_permissions_refused (d : database) :
  ~ may_manage_grants d uid folderId ->
  delete_folder_permissions d uid folderId = d.
Proof.
  intros Hno. unfold delete_folder_permissions.
  rewrite filter_keeps_all; [by destruct d|].
  intros fp _ [E Hh%manage_policy_may_manage]. apply Hno. by rewrite <- E.
Qed.

Lemma delete_folder_permissions_subset (d : database) (fp : folder_permission) :
  fp ∈ folder_permissions (delete_folder_permissions d uid folderId) ->
  fp ∈ folder_permissions d.
Proof.
  unfold delete_folder_permissions. simpl. by intros [_ ?]%list_elem_of_filter.
Qed.

Lemma grant_rows_folder (selectedUsers : list uuid) (fp : folder_permission) :
  fp ∈ FolderAccessDialog.grant_rows folderId selectedUsers -> fp_folder_id fp = folderId.
Proof.
  unfold FolderAccessDialog.grant_rows. by intros (u & -> & _)%list_elem_of_fmap.
Qed.

Lemma grant_rows_NoDup (selectedUsers : list uuid) :
  NoDup selectedUsers -> NoDup (FolderAccessDialog.grant_rows folderId selectedUsers).
Proof.
  intros Hnd. unfold FolderAccessDialog.grant_rows.
  apply NoDup_fmap_2; [|done]. intros a b [=]. done.
Qed.

Lemma insert_folder_permissions_Some (d d' : database) (rows : list folder_permission) :
  insert_folder_permissions d uid rows = Some d' ->
  d' = with_folder_permissions d (folder_permissions d ++ rows).
Proof.
  unfold insert_folder_permissions. destruct (_ && _ && _); [|done]. by intros [= <-].
Qed.

(** What the dialog shows for a custom folder whose grants are the ticked
    users, to a requester who passes the policy for them. *)
Lemma fetch_selectedUsers_custom (d : database) (kept : list folder_permission)
    (selectedUsers : list uuid) :
  folder_permissions d = kept ++ FolderAccessDialog.grant_rows folderId selectedUsers ->
  Forall (fun fp => fp_folder_id fp <> folderId) kept ->
  (forall fp, fp_folder_id fp = folderId ->
              Sql.holds (folder_permissions_manage_policy d uid fp) = true) ->
  FolderAccessDialog.fetch_selectedUsers d uid folderId custom = selectedUsers.
Proof.
  intros Hd Hkept Hpass. unfold FolderAccessDialog.fetch_selectedUsers,
    FolderAccessDialog.select_folder_permissions, Sql.select.
  rewrite list_filter_filter, Hd, filter_app.
  assert (filter (fun fp =>
            Sql.holds (Sql.eq (Some (fp_folder_id fp)) (Some folderId)) = true
            /\ Sql.holds (folder_permissions_select_policy d uid fp) = true) kept
          = []) as ->.
  { apply elem_of_nil_inv. rewrite Forall_forall in Hkept.
    intros fp [[E%holds_eq_Some _] Hin]%list_elem_of_filter.
    apply (Hkept fp Hin). congruence. }
  rewrite filter_keeps_all.
  - unfold FolderAccessDialog.grant_rows. simpl. rewrite <- list_fmap_compose.
    rewrite <- (list_fmap_id selectedUsers) at 2. by apply list_fmap_ext.
  - intros fp Hin. pose proof (grant_rows_folder _ _ Hin) as E. split.
    + apply holds_eq_Some. congruence.
    + unfold folder_permissions_select_policy. rewrite holds_or.
      apply orb_true_iff. left. by apply Hpass.
Qed.

(** X15. A save by a super_admin, an admin, or the creator and owner of
    a stored folder, whose level update is not refused and whose ticked
    users are stored accounts, leaves exactly these grants: those of the
    other folders, untouched, and for this folder the ticked users when
    the level chosen is custom, none when it is private or team; the
    dialog then reports success.  When opened again on the folder as it is
    then stored, it shows the ticked users if the stored and the chosen
    level are both custom, and nobody otherwise (also when the level
    update was not applied). *)
Theorem dialog_save_sets_grants (lv : folder_access_level) (selectedUsers : list uuid)
    (env : FolderAccessDialog.responses) :
  entitled_at_every_level db uid folderId ->
  FolderAccessDialog.updateError env = false ->
  NoDup selectedUsers -> NoDup (folder_permissions db) ->
  folderId ∈ f_id <$> folders db ->
  Forall (fun v => v ∈ au_id <$> auth_users db) selectedUsers ->
  let run := FolderAccessDialog.handleSave uid folderId lv selectedUsers env db in
  let kept := filter (fun fp => fp_folder_id fp <> folderId) (folder_permissions db) in
  snd run = FolderAccessDialog.AccesMisAJour
  /\ folder_permissions (fst run)
     = kept ++ match lv with
               | custom => FolderAccessDialog.grant_rows folderId selectedUsers
               | _ => []
               end
  /\ folders (fst run) = folders (after_level db folderId env lv)
  /\ (forall f, f ∈ folders (fst run) -> f_id f = folderId ->
        FolderAccessDialog.fetch_selectedUsers (fst run) uid folderId (f_access_level f)
        = match f_access_level f, lv with
          | custom, custom => selectedUsers
          | _, _ => []
          end).
Proof.
  intros Hent Herr Hsel Hnd Hstored Husers. cbv zeta.
  unfold FolderAccessDialog.handleSave.
  rewrite Herr. cbv zeta. fold (after_level db folderId env lv).
  set (db1 := after_level db folderId env lv).
  assert (entitled_at_every_level db1 uid folderId) as Hent1
    by (by apply entitled_after_level).
  assert (folder_permissions (delete_folder_permissions db1 uid folderId)
          = filter (fun fp => fp_folder_id fp <> folderId) (folder_permissions db)) as Hdel.
  { rewrite delete_folder_permissions_passing.
    - unfold db1. by rewrite after_level_grants.
    - intros fp Hfp. by apply entitled_policy. }
  assert (Forall (fun fp => fp_folder_id fp <> folderId)
            (filter (fun fp => fp_folder_id fp <> folderId) (folder_permissions db)))
    as Hkept by (apply Forall_forall; by intros fp [? _]%list_elem_of_filter).
  remember (delete_folder_permissions db1 uid folderId) as db2 eqn:Hdb2.
  assert (folders db2 = folders db1) as Hf2 by (by subst db2).
  assert (user_roles db2 = user_roles db1) as Hu2 by (by subst db2).
  assert (auth_users db2 = auth_users db) as Ha2
    by (subst db2; simpl; apply after_level_users).
  assert (forall d, folders d = folders db1 -> user_roles d = user_roles db1 ->
            forall fp, fp_folder_id fp = folderId ->
              Sql.holds (folder_permissions_manage_policy d uid fp) = true) as Hpass.
  { intros d Hfd Hud fp Hfp. apply entitled_policy; [|done].
    unfold entitled_at_every_level, created_folder, owns_folder, holds_role.
    by rewrite Hfd, Hud. }
  (* what the dialog shows afterwards, in terms of the grants left *)
  assert (forall d sel,
            folders d = folders db1 -> user_roles d = user_roles db1 ->
            folder_permissions d
            = filter (fun fp => fp_folder_id fp <> folderId) (folder_permissions db)
              ++ FolderAccessDialog.grant_rows folderId sel ->
            forall f,
              FolderAccessDialog.fetch_selectedUsers d uid folderId (f_access_level f)
              = match f_access_level f with custom => sel | _ => [] end) as Hshow.
  { intros d sel Hfd Hud Hgr f. destruct (f_access_level f); [done|done|].
    eapply fetch_selectedUsers_custom; [exact Hgr|exact Hkept|].
    by apply Hpass. }
  destruct lv.
  - cbn [fst snd]. rewrite Hdel, app_nil_r. repeat split; try done.
    intros f _ _. rewrite (Hshow db2 [] Hf2 Hu2); [by destruct (f_access_level f)|].
    by rewrite Hdel, app_nil_r.
  - cbn [fst snd]. rewrite Hdel, app_nil_r. repeat split; try done.
    intros f _ _. rewrite (Hshow db2 [] Hf2 Hu2); [by destruct (f_access_level f)|].
    by rewrite Hdel, app_nil_r.
  - destruct selectedUsers as [|s0 rest] eqn:Hs.
    + cbn [fst snd]. rewrite Hdel. split; [done|].
      split; [by simpl; rewrite app_nil_r|]. split; [done|].
      intros f _ _. rewrite (Hshow db2 [] Hf2 Hu2); [done|].
      rewrite Hdel. simpl. by rewrite app_nil_r.
    + rewrite <- Hs in *.
      assert (insert_folder_permissions db2 uid
                (FolderAccessDialog.grant_rows folderId selectedUsers)
              = Some (with_folder_permissions db2
                        (folder_permissions db2
                         ++ FolderAccessDialog.grant_rows folderId selectedUsers))) as Hins.
      { unfold insert_folder_permissions. rewrite !bool_decide_eq_true_2; [done| | |].
        - rewrite Hdel. apply NoDup_app. split; [by apply NoDup_filter|].
          split; [|by apply grant_rows_NoDup].
          intros fp [Hne _]%list_elem_of_filter Hin%grant_rows_folder. done.
        - apply Forall_forall. intros fp Hin. split.
          + rewrite (grant_rows_folder _ _ Hin), Hf2. unfold db1.
            by rewrite after_level_ids.
          + rewrite Ha2. unfold FolderAccessDialog.grant_rows in Hin.
            apply list_elem_of_fmap in Hin as (v & -> & Hv). simpl.
            rewrite Forall_forall in Husers. by apply Husers.
        - apply Forall_forall. intros fp Hin%grant_rows_folder. by apply Hpass. }
      rewrite Hins.
      cbn [fst snd folder_permissions folders with_folder_permissions].
      rewrite Hdel. repeat split; try done.
      intros f _ _. by apply Hshow.
Qed.

(** X16. Saves keep grants on custom folders only: if every recorded
    grant belongs to folders whose level is custom, the same holds after a
    save by an entitled requester (super_admin, admin or the folder's
    creator) whose level update is applied, whatever level and users are
    chosen; in particular a save to private or team leaves no grant behind
    that a later switch to custom could revive. *)
Theorem dialog_save_keeps_grants_on_custom (lv : folder_access_level)
    (selectedUsers : list uuid) (env : FolderAccessDialog.responses) :
  may_manage_grants db uid folderId ->
  FolderAccessDialog.updateError env = false ->
  FolderAccessDialog.level_applied env = true ->
  NoDup selectedUsers -> NoDup (folder_permissions db) ->
  grants_only_for_custom db ->
  grants_only_for_custom
    (fst (FolderAccessDialog.handleSave uid folderId lv selectedUsers env db)).
Proof.
  intros Hmay Herr Happ Hsel Hnd Hinv.
  unfold FolderAccessDialog.handleSave. rewrite Herr, Happ. cbv zeta.
  set (db1 := with_folders db
                (FolderAccessDialog.set_access_level folderId lv <$> folders db)).
  (* a grant of another folder that was there before stays on a custom folder;
     the folder of the dialog has the level chosen *)
  assert (forall fp f', f' ∈ folders db1 -> f_id f' = fp_folder_id fp ->
            (fp ∈ folder_permissions db /\ fp_folder_id fp <> folderId)
            \/ (fp_folder_id fp = folderId /\ lv = custom) ->
            f_access_level f' = custom) as Hok.
  { intros fp f' (f & -> & Hfin)%list_elem_of_fmap. rewrite set_access_level_id.
    intros Hid [[Hfp Hne] | [Hfp ->]].
    - unfold FolderAccessDialog.set_access_level.
      rewrite bool_decide_eq_false_2 by congruence. by apply (Hinv fp f).
    - apply set_access_level_level. congruence. }
  (* when the level chosen is not custom, the requester passes the policy
     for every grant of the folder, so none is left *)
  assert (lv <> custom ->
          forall fp, fp ∈ folder_permissions (delete_folder_permissions db1 uid folderId) ->
                     fp ∈ folder_permissions db /\ fp_folder_id fp <> folderId) as Hgone.
  { intros Hlv fp. rewrite delete_folder_permissions_passing.
    - intros [Hne Hin]%list_elem_of_filter. done.
    - intros fp' Hfp'. destruct Hmay as (u & Hu & [H|[H|H]]).
      + apply manage_policy_holds. exists u. tauto.
      + apply manage_policy_holds. exists u. tauto.
      + apply Exists_exists in H as (f & Hin & Hid & Hcb).
        apply (manage_policy_creator db1 fp' u
                 (FolderAccessDialog.set_access_level folderId lv f)); try done.
        * apply list_elem_of_fmap. eauto.
        * rewrite set_access_level_id. congruence.
        * by rewrite set_access_level_created_by.
        * left. by rewrite set_access_level_level. }
  destruct lv.
  - cbn [fst]. intros fp f' Hfp Hf' Hid. apply (Hok fp f'); try done.
    left. by apply Hgone.
  - cbn [fst]. intros fp f' Hfp Hf' Hid. apply (Hok fp f'); try done.
    left. by apply Hgone.
  - assert (forall fp, fp ∈ folder_permissions (delete_folder_permissions db1 uid folderId)
                       \/ fp ∈ FolderAccessDialog.grant_rows folderId selectedUsers ->
              forall f', f' ∈ folders db1 -> f_id f' = fp_folder_id fp ->
                         f_access_level f' = custom) as Hall.
    { intros fp Hfp f' Hf' Hid. apply (Hok fp f'); try done.
      destruct (decide (fp_folder_id fp = folderId)) as [E|Hne]; [by right|left].
      split; [|done]. destruct Hfp as [Hfp|Hfp%grant_rows_folder]; [|done].
      by apply delete_folder_permissions_subset in Hfp. }
    destruct selectedUsers as [|s0 rest] eqn:Hs.
    + cbn [fst]. intros fp f' Hfp Hf' Hid. apply (Hall fp); try done. by left.
    + rewrite <- Hs in *.
      destruct (insert_folder_permissions _ _ _) as [db3|] eqn:Hins.
      * apply insert_folder_permissions_Some in Hins. subst db3. cbn [fst].
        intros fp f' Hfp Hf' Hid. apply (Hall fp); try done.
        simpl in Hfp. by apply elem_of_app in Hfp.
      * cbn [fst]. intros fp f' Hfp Hf' Hid. apply (Hall fp); try done. by left.
Qed.

(** X17. A save by a requester who is not entitled to manage the folder's
    grants (neither super_admin, nor admin, nor the folder's creator), but
    whose level update goes through, changes the level and leaves every
    grant as it was; it reports an error only when the level is custom and
    some user is ticked, and reports success otherwise. *)
Theorem refused_save_changes_level_only (lv : folder_access_level)
    (selectedUsers : list uuid) (env : FolderAccessDialog.responses) :
  ~ may_manage_grants db uid folderId ->
  FolderAccessDialog.updateError env = false ->
  let run := FolderAccessDialog.handleSave uid folderId lv selectedUsers env db in
  folder_permissions (fst run) = folder_permissions db
  /\ folders (fst run) = folders (after_level db folderId env lv)
  /\ (snd run = FolderAccessDialog.Erreur <-> lv = custom /\ selectedUsers <> []).
Proof.
  intros Hno Herr. cbv zeta. unfold FolderAccessDialog.handleSave.
  rewrite Herr. cbv zeta. fold (after_level db folderId env lv).
  assert (~ may_manage_grants (after_level db folderId env lv) uid folderId) as Hno1
    by (by rewrite after_level_may_manage).
  rewrite (delete_folder_permissions_refused _ Hno1).
  destruct lv.
  - cbn [fst snd]. rewrite after_level_grants. repeat split; try done. by intros [? _].
  - cbn [fst snd]. rewrite after_level_grants. repeat split; try done. by intros [? _].
  - destruct selectedUsers as [|s0 rest].
    + cbn [fst snd]. rewrite after_level_grants. repeat split; try done. by intros [_ ?].
    + assert (insert_folder_permissions (after_level db folderId env custom) uid
                (FolderAccessDialog.grant_rows folderId (s0 :: rest)) = None) as ->.
      { unfold insert_folder_permissions. rewrite bool_decide_eq_false_2; [done|].
        intros [Hp%manage_policy_may_manage _]%Forall_cons. done. }
      cbn [fst snd]. rewrite after_level_grants. repeat split; done.
Qed.

End AccessDialog.

(** ** The documents page after a deletion *)

Section DocumentsPage.

Lemma filter_fmap_commute {A B} (f : A -> B) (P : B -> Prop)
    `{forall y, Decision (P y)} (l : list A) :
  filter P (f <$> l) = f <$> filter (fun x => P (f x)) l.
Proof.
  induction l as [|x l IH]; [done|].
  rewrite fmap_cons, !filter_cons. case_decide; simpl; by rewrite IH.
Qed.

Lemma find_shown_folder (pg : documents_page) (folderId : uuid) :
  folderId ∈ f_id <$> pg_folders pg ->
  exists f, List.find (fun f => bool_decide (f_id f = folderId)) (pg_folders pg) = Some f.
Proof.
  intros (f & Hid & Hin)%list_elem_of_fmap.
  destruct (List.find _ (pg_folders pg)) as [f0|] eqn:Hfind; [eauto|].
  apply list_elem_of_In in Hin. apply (List.find_none _ _ Hfind) in Hin.
  rewrite bool_decide_eq_true_2 in Hin; done.
Qed.

(** X18. The page trusts its own role: when the client's capability
    says folders may be deleted but the store's policy refuses the
    requester, deleting a listed folder leaves the store exactly as it
    was, and the page nevertheless takes the folder off its list and
    reports it deleted; when the capability is missing, nothing is sent
    and nothing changes. *)
Theorem refused_folder_delete_reported_as_done (perms : PermissionsContextType)
    (uid : option uuid) (store_error : bool) (db : database) (pg : documents_page)
    (folderId : uuid) :
  (canDeleteFolders perms = false ->
   handleDeleteFolder perms uid store_error db pg folderId = (db, pg, DeleteNotAuthorized))
  /\ (canDeleteFolders perms = true -> ~ may_delete_folders db uid ->
      folderId ∈ f_id <$> pg_folders pg ->
      let '(db', pg', r) := handleDeleteFolder perms uid false db pg folderId in
      db' = db
      /\ (folderId ∉ f_id <$> pg_folders pg')
      /\ exists name, r = FolderDeleted name).
Proof.
  split.
  - intros Hcan. unfold handleDeleteFolder. by rewrite Hcan.
  - intros Hcan Hno Hshown. unfold handleDeleteFolder. rewrite Hcan. simpl.
    destruct (find_shown_folder pg folderId Hshown) as [f ->].
    split; [by apply delete_folder_refused|]. split; [|eauto].
    simpl. intros (g & Hid & [Hk _]%list_elem_of_filter)%list_elem_of_fmap. done.
Qed.

(** X19. Deleting the folder that is open sends the page back to the
    root, where the documents listed are those that were at the root or
    in the deleted folder, the latter with their reference cleared; no
    document leaves the page's list, and the counts shown on the cards of
    the other folders do not change. *)
Theorem deleted_folder_documents_move_to_root (perms : PermissionsContextType)
    (uid : option uuid) (db : database) (pg : documents_page) (folderId : uuid) :
  canDeleteFolders perms = true ->
  folderId ∈ f_id <$> pg_folders pg ->
  pg_currentFolderId pg = Some folderId ->
  let pg' := snd (fst (handleDeleteFolder perms uid false db pg folderId)) in
  pg_currentFolderId pg' = None
  /\ currentDocuments pg'
     = clear_folder_id
       <$> filter (fun d => doc_folder_id d = None \/ doc_folder_id d = Some folderId)
                  (pg_documents pg)
  /\ length (pg_documents pg') = length (pg_documents pg)
  /\ (forall d, d ∈ currentDocuments pg -> clear_folder_id d ∈ currentDocuments pg')
  /\ (forall g, f_id g <> folderId -> documentCount pg' g = documentCount pg g).
Proof.
  intros Hcan Hshown Hcur. cbv zeta. unfold handleDeleteFolder. rewrite Hcan. simpl.
  destruct (find_shown_folder pg folderId Hshown) as [f ->]. simpl.
  assert (currentDocuments
            {| pg_documents :=
                 (fun d => if bool_decide (doc_folder_id d = Some folderId)
                           then clear_folder_id d else d) <$> pg_documents pg;
               pg_folders := filter (fun f => f_id f <> folderId) (pg_folders pg);
               pg_currentFolderId :=
                 if bool_decide (pg_currentFolderId pg = Some folderId) then None
                 else pg_currentFolderId pg |}
          = clear_folder_id
            <$> filter (fun d => doc_folder_id d = None \/ doc_folder_id d = Some folderId)
                       (pg_documents pg)) as Hlist.
  { unfold currentDocuments. simpl. rewrite bool_decide_eq_true_2 by done.
    rewrite filter_fmap_commute.
    induction (pg_documents pg) as [|d l IH]; [done|].
    rewrite !filter_cons.
    destruct (doc_folder_id d) as [id|] eqn:Hd.
    - case_bool_decide as Hid.
      + rewrite decide_True by done. rewrite decide_True by (right; done).
        rewrite !fmap_cons, IH. by rewrite bool_decide_eq_true_2 by congruence.
      + rewrite decide_False by (rewrite Hd; done).
        rewrite decide_False by (intros [?|?]; congruence). exact IH.
    - rewrite bool_decide_eq_false_2 by done.
      rewrite decide_True by done. rewrite decide_True by (left; done).
      rewrite !fmap_cons, IH. rewrite bool_decide_eq_false_2 by congruence.
      f_equal. destruct d; simpl in *; by subst. }
  rewrite Hlist. split; [by rewrite bool_decide_eq_true_2|]. split; [done|].
  split; [by rewrite length_fmap|]. split.
  - intros d [Hd Hin]%list_elem_of_filter. apply list_elem_of_fmap_2.
    apply list_elem_of_filter. split; [|done]. right. congruence.
  - intros g Hg. unfold documentCount. simpl.
    rewrite filter_fmap_commute, length_fmap. f_equal.
    apply list_filter_iff. intros d.
    destruct (bool_decide_reflect (doc_folder_id d = Some folderId)) as [Hd|Hd];
      [|done].
    simpl. split; [intros [=]|]. intros E. rewrite Hd in E. congruence.
Qed.

End DocumentsPage.

(** ** The team page *)

Section TeamPage.
Variable db : database.

Lemma role_of_name_role_name (r : app_role) : Team.role_of_name (Team.role_name r) = Some r.
Proof. by destruct r. Qed.

Lemma role_of_name_super_admin (s : string) :
  Team.role_of_name s = Some super_admin -> s = "super_admin".
Proof.
  unfold Team.role_of_name. repeat case_bool_decide; intros [=]; done.
Qed.

Lemma role_name_super_admin (r : app_role) : Team.role_name r = "super_admin" -> r = super_admin.
Proof. by destruct r. Qed.

Lemma with_user_roles_same : with_user_roles db (user_roles db) = db.
Proof. by destruct db. Qed.

(** An update by a requester who is not super_admin changes no row. *)
Lemma update_user_role_refused (uid : option uuid) (id : uuid) (r : app_role) :
  Sql.holds (has_role db uid super_admin) = false ->
  Team.update_user_role db uid id r = db.
Proof.
  intros Hno. unfold Team.update_user_role, user_roles_manage_policy.
  rewrite <- with_user_roles_same at 3. f_equal.
  transitivity ((fun ur => ur) <$> user_roles db); [|apply list_fmap_id].
  apply list_fmap_ext.
  intros _ ur _. rewrite bool_decide_eq_false_2; [done|]. intros [_ ?]. congruence.
Qed.

(** An update by a super_admin rewrites exactly the rows of the target. *)
Lemma update_user_role_allowed (me target : uuid) (r : app_role) :
  holds_role db me super_admin ->
  forall u r0,
    holds_role (Team.update_user_role db (Some me) target r) u r0
    <-> (u <> target /\ holds_role db u r0)
        \/ (u = target /\ r0 = r /\ exists r1, holds_role db u r1).
Proof.
  intros Hsa%has_role_holds u r0.
  unfold holds_role, Team.update_user_role, user_roles_manage_policy.
  cbn [user_roles with_user_roles]. rewrite list_elem_of_fmap, Hsa. split.
  - intros (ur & E & Hin). case_bool_decide as Hc.
    + destruct Hc as [Hid _]. injection E as -> ->. right.
      split; [done|]. split; [done|]. exists (ur_role ur). by destruct ur.
    + subst ur. left. split; [|done]. intros E. apply Hc. done.
  - intros [[Hne Hin] | (-> & -> & r1 & Hin)].
    + eexists; split; [|exact Hin]. cbn [ur_user_id].
      rewrite bool_decide_eq_false_2; [done|]. intros [E _]. done.
    + eexists; split; [|exact Hin]. cbn [ur_user_id].
      by rewrite bool_decide_eq_true_2.
Qed.

Lemma select_user_roles_super_admin (u : uuid) :
  holds_role db u super_admin -> select_user_roles db (Some u) = user_roles db.
Proof.
  intros Hsa%has_role_holds. unfold select_user_roles. apply select_all.
  intros ur. unfold user_roles_select_policy, user_roles_manage_policy.
  by rewrite !holds_or, Hsa.
Qed.

Lemma rolesMap_get_elem (roles : list user_role) (id : uuid) (r : app_role) :
  Team.rolesMap_get roles id = Some r -> {| ur_user_id := id; ur_role := r |} ∈ roles.
Proof.
  unfold Team.rolesMap_get.
  destruct (last _) as [ur|] eqn:Hl; [|done]. intros [= <-].
  apply last_Some_elem_of in Hl. apply list_elem_of_filter in Hl as [<- Hin].
  by destruct ur.
Qed.

Lemma rolesMap_get_none (roles : list user_role) (id : uuid) :
  Team.rolesMap_get roles id = None <-> Forall (fun ur => ur_user_id ur <> id) roles.
Proof.
  unfold Team.rolesMap_get. rewrite fmap_None, last_None. split.
  - intros Hnil. apply Forall_forall. intros ur Hin E.
    assert (ur ∈ filter (fun r => ur_user_id r = id) roles) as Hf
      by (by apply list_elem_of_filter).
    rewrite Hnil in Hf. by apply elem_of_nil in Hf.
  - intros Hall. apply elem_of_nil_inv. intros ur [E Hin]%list_elem_of_filter.
    rewrite Forall_forall in Hall. by apply (Hall ur).
Qed.

Lemma holds_role_unique (u : uuid) (r r' : app_role) :
  unique_user_roles db -> holds_role db u r -> holds_role db u r' -> r = r'.
Proof.
  intros Huniq Hr Hr'. apply holds_role_select in Hr, Hr'.
  pose proof (select_by_user_unique db u Huniq) as Hlen.
  destruct (Sql.select _ (user_roles db)) as [|a [|b l]]; simpl in Hlen; [| |lia].
  - by apply elem_of_nil in Hr.
  - apply list_elem_of_singleton in Hr, Hr'. congruence.
Qed.

(** X20. The role dialog of the team page can neither make nor unmake a
    super_admin, nor touch the requester's own role: with at most one
    role record per user, for a member taken from the freshly loaded list
    whose actions menu is offered, and a role kept or picked in the
    selector, the set of super_admins after [handleChangeRole] is the set
    before, and every role record of the requester is unchanged. *)
Theorem role_dialog_spares_super_admins (me : uuid) (m : Team.TeamMember)
    (choice : option string) (pg : Team.page) :
  unique_user_roles db ->
  m ∈ Team.fetch_members db (Some me) ->
  Team.actions_offered (Some me) m = true ->
  (forall c, choice = Some c -> c ∈ Team.role_options) ->
  let db' := fst (fst (Team.handleChangeRole (Some me) db (Team.edit_dialog pg m choice))) in
  (forall u, holds_role db' u super_admin <-> holds_role db u super_admin)
  /\ (forall r, holds_role db' me r <-> holds_role db me r).
Proof.
  intros Huniq Hm Hoff Hchoice. cbv zeta.
  apply andb_true_iff in Hoff as [Hnotme%bool_decide_eq_true Hnotsa%bool_decide_eq_true].
  destruct (Sql.holds (has_role db (Some me) super_admin)) eqn:Hsa.
  2: { assert (fst (fst (Team.handleChangeRole (Some me) db (Team.edit_dialog pg m choice)))
               = db) as ->; [|done].
       unfold Team.handleChangeRole. simpl.
       destruct (_ || _); [done|]. destruct (Team.role_of_name _); [|done].
       simpl. by apply update_user_role_refused. }
  apply has_role_holds in Hsa.
  (* the requester reads every role record, so the shown role is the stored one *)
  assert (forall r, holds_role db (Team.tm_user_id m) r -> Team.tm_role m = Team.role_name r)
    as Hshown.
  { intros r Hr. unfold Team.fetch_members in Hm.
    apply list_elem_of_fmap in Hm as (p & -> & _). simpl in *.
    rewrite select_user_roles_super_admin by done.
    destruct (Team.rolesMap_get (user_roles db) (p_id p)) as [r'|] eqn:Hget.
    - apply rolesMap_get_elem in Hget. f_equal. by eapply holds_role_unique.
    - apply rolesMap_get_none in Hget. rewrite Forall_forall in Hget.
      by destruct (Hget _ Hr). }
  assert (~ holds_role db (Team.tm_user_id m) super_admin) as Htarget.
  { intros Hr. apply Hnotsa. by rewrite (Hshown _ Hr). }
  unfold Team.handleChangeRole. simpl.
  destruct (_ || _); [done|].
  destruct (Team.role_of_name _) as [r|] eqn:Hparse; [|done]. simpl.
  assert (r <> super_admin) as Hr.
  { intros ->. apply role_of_name_super_admin in Hparse.
    destruct choice as [c|]; simpl in Hparse.
    - specialize (Hchoice c eq_refl). subst c. revert Hchoice. by_evaluation.
    - done. }
  pose proof (update_user_role_allowed me (Team.tm_user_id m) r Hsa) as Hupd.
  split.
  - intros u. rewrite Hupd. split.
    + intros [[_ H] | (_ & E & _)]; [done|congruence].
    + intros H. left. split; [|done]. intros ->. done.
  - intros r0. rewrite Hupd. split.
    + intros [[_ H] | (E & _)]; [done|]. exfalso. apply Hnotme. by rewrite E.
    + intros H. left. split; [|done]. intros E. apply Hnotme. by rewrite E.
Qed.

(** X21. What the team page lists for a super_admin: one member per
    profile; with at most one role record per user, a member with a role
    record is shown with that role, and a member without any role record
    is shown as 'reader', although the resolver grants such a user
    nothing, not even the chat that a reader may use. *)
Theorem members_without_role_shown_as_reader (me : uuid) :
  holds_role db me super_admin -> unique_user_roles db ->
  Team.tm_user_id <$> Team.fetch_members db (Some me) = p_id <$> profiles db
  /\ (forall m, m ∈ Team.fetch_members db (Some me) ->
        (forall r, holds_role db (Team.tm_user_id m) r -> Team.tm_role m = Team.role_name r)
        /\ (no_role db (Team.tm_user_id m) ->
            Team.tm_role m = "reader"
            /\ forall c, granted (capabilities_of db (Team.tm_user_id m)) c = false))
  /\ granted (PermissionsProvider (Some reader)) CanUseChat = true.
Proof.
  intros Hsa Huniq.
  assert (select_profiles db (Some me) = profiles db) as Hprof.
  { unfold select_profiles. apply select_all. intros p. unfold profiles_select_policy.
    apply has_role_holds in Hsa. rewrite !holds_or, Hsa. by rewrite orb_true_r. }
  split; [|split; [|done]].
  - unfold Team.fetch_members. rewrite Hprof, <- list_fmap_compose.
    by apply list_fmap_ext.
  - intros m Hm. unfold Team.fetch_members in Hm.
    apply list_elem_of_fmap in Hm as (p & -> & _). simpl.
    rewrite select_user_roles_super_admin by done. split.
    + intros r Hr.
      destruct (Team.rolesMap_get (user_roles db) (p_id p)) as [r'|] eqn:Hget.
      * apply rolesMap_get_elem in Hget. f_equal. by eapply holds_role_unique.
      * apply rolesMap_get_none in Hget. rewrite Forall_forall in Hget.
        by destruct (Hget _ Hr).
    + intros Hno. split.
      * apply rolesMap_get_none in Hno. by rewrite Hno.
      * intros c. unfold capabilities_of. rewrite fetchRole_no_role by done.
        apply nothing_granted_without_role.
Qed.

End TeamPage.

(** ** The edge functions in front of the n8n webhooks *)

Lemma slice0_short (n : nat) (s : string) :
  (String.length s <= n)%nat -> slice0 n s = s.
Proof.
  unfold slice0. revert n. induction s as [|a s IH]; intros [|n] Hlen; simpl in *;
    try done; try lia.
  f_equal. apply IH. lia.
Qed.

Lemma slice0_length (n : nat) (s : string) :
  String.length (slice0 n s) = Nat.min n (String.length s).
Proof.
  unfold slice0. revert n. induction s as [|a s IH]; intros [|n]; simpl; try done.
  by rewrite IH.
Qed.

Lemma append_length (s t : string) :
  String.length (s +:+ t) = (String.length s + String.length t)%nat.
Proof. induction s as [|a s IH]; simpl; [done|]. by rewrite IH. Qed.

Lemma startsWith_append (p r : string) : startsWith (p +:+ r) p = true.
Proof.
  unfold startsWith. induction p as [|a p IH]; simpl.
  - by destruct r.
  - destruct (Ascii.ascii_dec a a); [exact IH|done].
Qed.

Lemma omap_length_le {A B : Type} (f : A -> option B) (l : list A) :
  (length (omap f l) <= length l)%nat.
Proof.
  induction l as [|a l IH]; csimpl; [done|]. destruct (f a); simpl; lia.
Qed.

Section ChatFunction.
Variable getUser : string -> option uuid.
Variable webhook : N8nChat.payload -> option N8nChat.json.

Lemma validMessage_Some (j : N8nChat.json) (m : N8nChat.message) :
  N8nChat.validMessage j = Some m ->
  N8nChat.member "role" j = Some (N8nChat.JString (N8nChat.msg_role m))
  /\ N8nChat.member "content" j = Some (N8nChat.JString (N8nChat.msg_content m))
  /\ (String.length (N8nChat.msg_content m) <= N8nChat.MAX_MESSAGE_LENGTH)%nat.
Proof.
  unfold N8nChat.validMessage.
  destruct (N8nChat.member "role" j) as [[| | |r| |]|]; try done.
  destruct (N8nChat.member "content" j) as [[| | |c| |]|]; try done.
  case_bool_decide as Hlen; [|done]. intros [= <-]. cbn [N8nChat.msg_role N8nChat.msg_content].
  by rewrite slice0_short.
Qed.

Lemma validatedHistory_spec (h : option N8nChat.json) :
  (length (N8nChat.validatedHistory h) <= N8nChat.MAX_HISTORY_MESSAGES)%nat
  /\ forall m, m ∈ N8nChat.validatedHistory h ->
       (String.length (N8nChat.msg_content m) <= N8nChat.MAX_MESSAGE_LENGTH)%nat
       /\ exists items j,
            h = Some (N8nChat.JArray items)
            /\ j ∈ drop (length items - N8nChat.MAX_HISTORY_MESSAGES) items
            /\ N8nChat.member "role" j = Some (N8nChat.JString (N8nChat.msg_role m))
            /\ N8nChat.member "content" j
               = Some (N8nChat.JString (N8nChat.msg_content m)).
Proof.
  unfold N8nChat.validatedHistory.
  destruct h as [[| | | |items|]|]; try (split; [simpl; lia|by intros m ?%elem_of_nil]).
  split.
  - etrans; [apply omap_length_le|]. rewrite length_drop. lia.
  - intros m (j & Hj & Hv)%list_elem_of_omap.
    apply validMessage_Some in Hv as (Hr & Hc & Hlen). split; [done|].
    by exists items, j.
Qed.

(** X22. What the chat function sends to the webhook: a request is
    forwarded only for a user the auth service found behind the
    Authorization header, and that user, not anything in the body, is the
    user_id sent; the text is not empty and has at most 4000 characters;
    the history has at most 50 messages, each with at most 4000 characters
    of content, and each is the role and the whole content (the final slice
    removes nothing) of an object among the last 50 entries of the array
    received. *)
Theorem chat_forwards_validated_payload (req : N8nChat.request) (p : N8nChat.payload) :
  snd (N8nChat.serve getUser webhook req) = Some p ->
  (exists h, N8nChat.authorization req = Some h /\ h <> ""
             /\ getUser h = Some (N8nChat.user_id p))
  /\ N8nChat.text p <> ""
  /\ (String.length (N8nChat.text p) <= 4000)%nat
  /\ (length (N8nChat.conversation_history p) <= 50)%nat
  /\ forall m, m ∈ N8nChat.conversation_history p ->
       (String.length (N8nChat.msg_content m) <= 4000)%nat
       /\ exists b items j,
            N8nChat.body req = Some b
            /\ N8nChat.member "conversation_history" b = Some (N8nChat.JArray items)
            /\ j ∈ drop (length items - 50) items
            /\ N8nChat.member "role" j = Some (N8nChat.JString (N8nChat.msg_role m))
            /\ N8nChat.member "content" j
               = Some (N8nChat.JString (N8nChat.msg_content m)).
Proof.
  unfold N8nChat.serve. case_bool_decide; [done|].
  destruct (N8nChat.authorization req) as [h|]; [|done].
  case_bool_decide as Hh; [done|].
  destruct (getUser h) as [user|] eqn:Huser; [|done].
  destruct (N8nChat.body req) as [b|]; [|done].
  assert (forall q,
            match N8nChat.member "text" b with
            | Some (N8nChat.JString t) =>
                if bool_decide (t = "") then (N8nChat.Failure 400, None)
                else if bool_decide (N8nChat.MAX_MESSAGE_LENGTH < String.length t)%nat
                then (N8nChat.Failure 400, None)
                else
                  let p := {| N8nChat.text := t; N8nChat.user_id := user;
                              N8nChat.conversation_history :=
                                N8nChat.validatedHistory
                                  (N8nChat.member "conversation_history" b) |} in
                  match webhook p with
                  | None => (N8nChat.Failure 500, Some p)
                  | Some data => (N8nChat.Success data, Some p)
                  end
            | _ => (N8nChat.Failure 400, None)
            end = q ->
            snd q = Some p ->
            N8nChat.text p <> "" /\ (String.length (N8nChat.text p) <= 4000)%nat
            /\ N8nChat.user_id p = user
            /\ N8nChat.conversation_history p
               = N8nChat.validatedHistory (N8nChat.member "conversation_history" b))
    as Hmain.
  { intros q <-. destruct (N8nChat.member "text" b) as [[| | |t| |]|]; try done.
    case_bool_decide as Ht; [done|]. case_bool_decide as Hlen; [done|].
    cbv zeta. unfold N8nChat.MAX_MESSAGE_LENGTH in Hlen.
    destruct (webhook _); intros [= <-]; simpl; repeat split; try done; lia. }
  intros Hp.
  assert (N8nChat.text p <> "" /\ (String.length (N8nChat.text p) <= 4000)%nat
          /\ N8nChat.user_id p = user
          /\ N8nChat.conversation_history p
             = N8nChat.validatedHistory (N8nChat.member "conversation_history" b))
    as (Ht & Hlen & Hu & Hhist).
  { destruct b; try done; by eapply Hmain. }
  pose proof (validatedHistory_spec (N8nChat.member "conversation_history" b))
    as [Hcount Hmsgs].
  rewrite <- Hhist in Hcount, Hmsgs.
  split; [exists h; by rewrite Hu|]. do 3 (split; [done|]).
  intros m Hm. destruct (Hmsgs m Hm) as (Hc & items & j & Harr & Hj & Hr & Hco).
  split; [done|]. by exists b, items, j.
Qed.

End ChatFunction.

Section UploadFunction.
Variable getUser : string -> option uuid.
Variable webhook : N8nUpload.payload -> option Z.

(** X23. What the upload function sends to the webhook: a form is
    forwarded only for a user the auth service found behind the
    Authorization header, with that user as user_id, with a path that
    starts with that user's id, and, when the data is a file, with a file
    of at most 50 MiB. *)
Theorem upload_forwards_own_paths (req : N8nUpload.request) (p : N8nUpload.payload) :
  snd (N8nUpload.serve getUser webhook req) = Some p ->
  (exists h, N8nUpload.authorization req = Some h /\ h <> ""
             /\ getUser h = Some (N8nUpload.user_id p))
  /\ startsWith (N8nUpload.file_path p) (N8nUpload.user_id p) = true
  /\ (forall f, N8nUpload.data p = N8nUpload.EFile f ->
        N8nUpload.size f <= 50 * 1024 * 1024)
  /\ exists fd, N8nUpload.formData req = Some fd
       /\ N8nUpload.get "data" fd = Some (N8nUpload.data p)
       /\ N8nUpload.get "file_path" fd = Some (N8nUpload.EString (N8nUpload.file_path p))
       /\ N8nUpload.get "file_name" fd = Some (N8nUpload.file_name p).
Proof.
  unfold N8nUpload.serve. case_bool_decide; [done|].
  destruct (N8nUpload.authorization req) as [h|]; [|done].
  case_bool_decide as Hh; [done|].
  destruct (getUser h) as [user|] eqn:Huser; [|done].
  destruct (N8nUpload.formData req) as [fd|]; [|done].
  destruct (N8nUpload.get "data" fd) as [file|] eqn:Hdata; [|done].
  destruct (N8nUpload.get "file_path" fd) as [[?|path]|] eqn:Hfp; [| |done].
  { destruct (N8nUpload.get "file_name" fd); [|done].
    destruct (negb _); [done|]. destruct file; [destruct (bool_decide _)|]; done. }
  destruct (N8nUpload.get "file_name" fd) as [fileName|] eqn:Hfn; [|done].
  destruct (negb _); [done|].
  destruct (match file with N8nUpload.EFile _ => _ | _ => _ end) eqn:Hsize; [done|].
  destruct (startsWith path user) eqn:Hpath; [|done]. cbv zeta.
  intros Hp.
  assert (Some {| N8nUpload.data := file; N8nUpload.user_id := user;
                  N8nUpload.file_path := path; N8nUpload.file_name := fileName |}
          = Some p) as [= <-].
  { rewrite <- Hp. cbn [negb]. by destruct (webhook _). }
  cbn [N8nUpload.data N8nUpload.user_id N8nUpload.file_path N8nUpload.file_name].
  split; [by exists h|]. split; [done|]. split; [|by exists fd].
  intros f ->. apply bool_decide_eq_false in Hsize.
  unfold N8nUpload.MAX_FILE_SIZE in Hsize. lia.
Qed.

(** X24. The request the upload button sends for a signed-in user passes
    the function's path check: for a named file of at most 50 MiB the form
    is forwarded with the user's id and the storage path, and success is
    answered whatever status the webhook returns; a larger file is answered
    400 and nothing is forwarded. *)
Theorem upload_button_request_accepted (h : string) (user : uuid) (now : N)
    (f : N8nUpload.file) :
  h <> "" -> getUser h = Some user -> N8nUpload.name f <> "" ->
  let req := {| N8nUpload.method := "POST"; N8nUpload.authorization := Some h;
                N8nUpload.formData := Some (N8nUpload.upload_form user now f) |} in
  let p := {| N8nUpload.data := N8nUpload.EFile f; N8nUpload.user_id := user;
              N8nUpload.file_path := N8nUpload.filePath user now f;
              N8nUpload.file_name := N8nUpload.EString (N8nUpload.name f) |} in
  (N8nUpload.size f <= 50 * 1024 * 1024 ->
     snd (N8nUpload.serve getUser webhook req) = Some p
     /\ forall st, webhook p = Some st ->
          fst (N8nUpload.serve getUser webhook req) = N8nUpload.Success)
  /\ (50 * 1024 * 1024 < N8nUpload.size f ->
        N8nUpload.serve getUser webhook req = (N8nUpload.Failure 400, None)).
Proof.
  intros Hh Huser Hname. cbv zeta. unfold N8nUpload.serve.
  cbn [N8nUpload.method N8nUpload.authorization N8nUpload.formData].
  rewrite (bool_decide_eq_false_2 ("POST" = "OPTIONS")) by done.
  rewrite (bool_decide_eq_false_2 (h = "")) by done. rewrite Huser.
  assert (N8nUpload.get "data" (N8nUpload.upload_form user now f)
          = Some (N8nUpload.EFile f)) as -> by done.
  assert (N8nUpload.get "file_path" (N8nUpload.upload_form user now f)
          = Some (N8nUpload.EString (N8nUpload.filePath user now f))) as -> by done.
  assert (N8nUpload.get "file_name" (N8nUpload.upload_form user now f)
          = Some (N8nUpload.EString (N8nUpload.name f))) as -> by done.
  assert (N8nUpload.filePath user now f <> "") as Hpath.
  { unfold N8nUpload.filePath. intros E%(f_equal String.length).
    rewrite !append_length in E. simpl in E. lia. }
  assert (N8nUpload.truthy (N8nUpload.EFile f)
          && N8nUpload.truthy (N8nUpload.EString (N8nUpload.filePath user now f))
          && N8nUpload.truthy (N8nUpload.EString (N8nUpload.name f)) = true) as ->.
  { simpl. by rewrite !bool_decide_eq_false_2. }
  cbn [negb].
  assert (startsWith (N8nUpload.filePath user now f) user = true) as ->
    by apply startsWith_append.
  cbn [negb]. unfold N8nUpload.MAX_FILE_SIZE. split.
  - intros Hsize. rewrite bool_decide_eq_false_2 by lia.
    split; [by destruct (webhook _)|]. by intros st ->.
  - intros Hsize. by rewrite bool_decide_eq_true_2 by lia.
Qed.

End UploadFunction.

(** X25. The title of a new conversation has at most 53 characters; it is
    the first message itself when that has at most 50 characters, and
    otherwise the first 50 characters followed by three dots. *)
Theorem conversation_title_bounded (firstMessage : string) :
  (String.length (conversation_title firstMessage) <= 53)%nat
  /\ ((String.length firstMessage <= 50)%nat ->
        conversation_title firstMessage = firstMessage)
  /\ ((50 < String.length firstMessage)%nat ->
        String.length (conversation_title firstMessage) = 53%nat
        /\ startsWith firstMessage (slice0 50 firstMessage) = true
        /\ conversation_title firstMessage = slice0 50 firstMessage +:+ "...").
Proof.
  unfold conversation_title. split; [|split].
  - rewrite append_length, slice0_length.
    case_bool_decide; cbn [String.length]; lia.
  - intros Hlen. rewrite bool_decide_eq_false_2 by lia.
    rewrite slice0_short by done. clear.
    induction firstMessage as [|a s IH]; [done|].
    change (String a s +:+ "") with (String a (s +:+ "")). by rewrite IH.
  - intros Hlen. rewrite bool_decide_eq_true_2 by done.
    rewrite append_length, slice0_length. split; [cbn [String.length]; lia|].
    split; [|done].
    clear. unfold startsWith, slice0. generalize 50%nat.
    induction firstMessage as [|a s IH]; intros [|n]; simpl; try done.
    destruct (Ascii.ascii_dec a a); [apply IH|done].
Qed.

(** * The properties on the demonstration store *)

Lemma demo_unique_tokens : unique_tokens Demo.db.
Proof. unfold unique_tokens. by_evaluation. Defined.

Lemma demo_bob_may_manage_grants : may_manage_grants Demo.db (Some "bob") "f-erin".
Proof.
  exists "bob". split; [done|]. right; left. unfold holds_role. by_evaluation.
Defined.

Lemma demo_bob_entitled : entitled_at_every_level Demo.db (Some "bob") "f-erin".
Proof.
  exists "bob". split; [done|]. right; left. unfold holds_role. by_evaluation.
Defined.

Lemma demo_rick_may_not_manage_grants : ~ may_manage_grants Demo.db (Some "rick") "f-erin".
Proof.
  intros (u & [= <-] & H). revert H. unfold holds_role, created_folder. by_evaluation.
Defined.

Lemma demo_grants_only_for_custom : grants_only_for_custom Demo.db.
Proof.
  assert (Forall (fun fp =>
            Forall (fun f => f_id f = fp_folder_id fp -> f_access_level f = custom)
                   (folders Demo.db))
            (folder_permissions Demo.db)) as H by by_evaluation.
  intros fp f Hfp Hf. rewrite Forall_forall in H. specialize (H fp Hfp).
  rewrite Forall_forall in H. exact (H f Hf).
Defined.

Lemma fetchInvitation_outcomes_demo :
  (AcceptInvite.fetchInvitation Demo.db None "t-zoe" Demo.day1 = AcceptInvite.Introuvable
   <-> forall i, i ∈ invitations Demo.db -> inv_token i <> "t-zoe")
  /\ (AcceptInvite.fetchInvitation Demo.db None "t-zoe" Demo.day1
      = AcceptInvite.DejaUtilisee
      <-> exists i, i ∈ invitations Demo.db /\ inv_token i = "t-zoe"
                    /\ inv_accepted_at i <> None)
  /\ (AcceptInvite.fetchInvitation Demo.db None "t-zoe" Demo.day1 = AcceptInvite.Expiree
      <-> exists i, i ∈ invitations Demo.db /\ inv_token i = "t-zoe"
                    /\ inv_accepted_at i = None /\ inv_expires_at i < Demo.day1)
  /\ (forall i, AcceptInvite.fetchInvitation Demo.db None "t-zoe" Demo.day1
                = AcceptInvite.Loaded i
                <-> i ∈ invitations Demo.db /\ inv_token i = "t-zoe"
                    /\ inv_accepted_at i = None /\ Demo.day1 <= inv_expires_at i)
  /\ (forall i, i ∈ invitations Demo.db -> inv_accepted_at i = None ->
        AcceptInvite.fetchInvitation Demo.db None (inv_token i) (inv_expires_at i)
        = AcceptInvite.Loaded i
        /\ AcceptInvite.fetchInvitation Demo.db None (inv_token i) (inv_expires_at i + 1)
           = AcceptInvite.Expiree).
Proof.
  apply (fetchInvitation_outcomes Demo.db None "t-zoe" Demo.day1).
  exact demo_unique_tokens.
Defined.

Lemma accepted_invitation_is_used_up_demo :
  let run := AcceptInvite.handleSubmit (Some Demo.zoe_invitation) "Zoe Zed"
               "correct horse" "correct horse"
               {| AcceptInvite.signUp := AcceptInvite.SignUpUser "zoe";
                  AcceptInvite.roleError := false;
                  AcceptInvite.stamp_applied := true |} Demo.day1 Demo.db in
  snd run = AcceptInvite.CompteCree
  /\ AcceptInvite.fetchInvitation (fst run) None (inv_token Demo.zoe_invitation) Demo.day1
     = AcceptInvite.DejaUtilisee
  /\ AcceptInvite.form_invitation
       (AcceptInvite.load (fst run) None (Some (inv_token Demo.zoe_invitation)) Demo.day1)
     = None.
Proof.
  apply (accepted_invitation_is_used_up Demo.db Demo.zoe_invitation "Zoe Zed"
           "correct horse" "zoe" Demo.day1 None Demo.day1).
  - exact demo_unique_tokens.
  - by_evaluation.
  - reflexivity.
Defined.

Lemma refused_invitation_writes_demo :
  fst (InviteUserDialog.handleSubmit Demo.is_email (Some "bob") "amy@example.com" "admin"
         1000 "i-amy" "t-amy" Demo.db) = Demo.db
  /\ handleDeleteInvitation (Some "bob") false Demo.db [Demo.zoe_invitation] "i-zoe"
     = (Demo.db, filter (fun i => inv_id i <> "i-zoe") [Demo.zoe_invitation], true).
Proof.
  apply (refused_invitation_writes Demo.is_email Demo.db (Some "bob") "amy@example.com"
           "admin" 1000 "i-amy" "t-amy" [Demo.zoe_invitation] "i-zoe").
  reflexivity.
Defined.

Lemma revoked_invitation_not_found_demo :
  let '(db', shown', announced) :=
    handleDeleteInvitation (Some "root") false Demo.db [Demo.zoe_invitation]
      (inv_id Demo.zoe_invitation) in
  announced = true
  /\ Forall (fun j => inv_id j <> inv_id Demo.zoe_invitation) (invitations db')
  /\ Forall (fun j => inv_id j <> inv_id Demo.zoe_invitation) shown'
  /\ (forall j, j ∈ invitations Demo.db -> inv_id j <> inv_id Demo.zoe_invitation ->
        j ∈ invitations db')
  /\ AcceptInvite.fetchInvitation db' None (inv_token Demo.zoe_invitation) Demo.day1
     = AcceptInvite.Introuvable.
Proof.
  apply (revoked_invitation_not_found Demo.is_email Demo.db "root" Demo.zoe_invitation
           [Demo.zoe_invitation] None Demo.day1).
  - unfold holds_role. by_evaluation.
  - exact demo_unique_tokens.
  - by_evaluation.
Defined.

Lemma tokens_stay_unique_demo :
  unique_tokens (w_db Demo.accepted) /\ unique_invitation_ids (w_db Demo.accepted).
Proof.
  apply (tokens_stay_unique Demo.is_email Demo.db0 Demo.accepted).
  exact demo_accepted_reachable.
Defined.

Lemma dialog_save_sets_grants_demo :
  let run := FolderAccessDialog.handleSave (Some "bob") "f-erin" custom ["dave"; "rick"]
               Demo2.save_ok Demo.db in
  let kept := filter (fun fp => fp_folder_id fp <> "f-erin") (folder_permissions Demo.db) in
  snd run = FolderAccessDialog.AccesMisAJour
  /\ folder_permissions (fst run)
     = kept ++ FolderAccessDialog.grant_rows "f-erin" ["dave"; "rick"]
  /\ folders (fst run) = folders (after_level Demo.db "f-erin" Demo2.save_ok custom)
  /\ (forall f, f ∈ folders (fst run) -> f_id f = "f-erin" ->
        FolderAccessDialog.fetch_selectedUsers (fst run) (Some "bob") "f-erin"
          (f_access_level f)
        = match f_access_level f, custom with
          | custom, custom => ["dave"; "rick"]
          | _, _ => []
          end).
Proof.
  apply (dialog_save_sets_grants Demo.db (Some "bob") "f-erin" custom ["dave"; "rick"]
           Demo2.save_ok).
  - exact demo_bob_entitled.
  - reflexivity.
  - by_evaluation.
  - by_evaluation.
  - by_evaluation.
  - by_evaluation.
Defined.

Lemma dialog_save_keeps_grants_on_custom_demo :
  grants_only_for_custom
    (fst (FolderAccessDialog.handleSave (Some "bob") "f-erin" team ["dave"]
            Demo2.save_ok Demo.db)).
Proof.
  apply (dialog_save_keeps_grants_on_custom Demo.db (Some "bob") "f-erin" team ["dave"]
           Demo2.save_ok).
  - exact demo_bob_may_manage_grants.
  - reflexivity.
  - reflexivity.
  - by_evaluation.
  - by_evaluation.
  - exact demo_grants_only_for_custom.
Defined.

Lemma refused_save_changes_level_only_demo :
  let run := FolderAccessDialog.handleSave (Some "rick") "f-erin" team []
               Demo2.save_ok Demo.db in
  folder_permissions (fst run) = folder_permissions Demo.db
  /\ folders (fst run) = folders (after_level Demo.db "f-erin" Demo2.save_ok team)
  /\ (snd run = FolderAccessDialog.Erreur <-> team = custom /\ @nil uuid <> []).
Proof.
  apply (refused_save_changes_level_only Demo.db (Some "rick") "f-erin" team []
           Demo2.save_ok).
  - exact demo_rick_may_not_manage_grants.
  - reflexivity.
Defined.

Lemma deleted_folder_documents_move_to_root_demo :
  let pg' := snd (fst (handleDeleteFolder (capabilities_of Demo.db "bob") (Some "bob")
                         false Demo.db Demo.page "f-erin")) in
  pg_currentFolderId pg' = None
  /\ currentDocuments pg'
     = clear_folder_id
       <$> filter (fun d => doc_folder_id d = None \/ doc_folder_id d = Some "f-erin")
                  (pg_documents Demo.page)
  /\ length (pg_documents pg') = length (pg_documents Demo.page)
  /\ (forall d, d ∈ currentDocuments Demo.page -> clear_folder_id d ∈ currentDocuments pg')
  /\ (forall g, f_id g <> "f-erin" -> documentCount pg' g = documentCount Demo.page g).
Proof.
  apply (deleted_folder_documents_move_to_root (capabilities_of Demo.db "bob")
           (Some "bob") Demo.db Demo.page "f-erin").
  - reflexivity.
  - by_evaluation.
  - reflexivity.
Defined.

Lemma role_dialog_spares_super_admins_demo :
  let db' := fst (fst (Team.handleChangeRole (Some "root") Demo.db
                         (Team.edit_dialog Demo2.team_page Demo2.erin_member
                            (Some "admin")))) in
  (forall u, holds_role db' u super_admin <-> holds_role Demo.db u super_admin)
  /\ (forall r, holds_role db' "root" r <-> holds_role Demo.db "root" r).
Proof.
  apply (role_dialog_spares_super_admins Demo.db "root" Demo2.erin_member (Some "admin")
           Demo2.team_page).
  - unfold unique_user_roles. by_evaluation.
  - by_evaluation.
  - reflexivity.
  - intros c [= <-]. by_evaluation.
Defined.

Lemma members_without_role_shown_as_reader_demo :
  Team.tm_user_id <$> Team.fetch_members Demo.db (Some "root") = p_id <$> profiles Demo.db
  /\ (forall m, m ∈ Team.fetch_members Demo.db (Some "root") ->
        (forall r, holds_role Demo.db (Team.tm_user_id m) r ->
                   Team.tm_role m = Team.role_name r)
        /\ (no_role Demo.db (Team.tm_user_id m) ->
            Team.tm_role m = "reader"
            /\ forall c, granted (capabilities_of Demo.db (Team.tm_user_id m)) c = false))
  /\ granted (PermissionsProvider (Some reader)) CanUseChat = true.
Proof.
  apply (members_without_role_shown_as_reader Demo.db "root").
  - unfold holds_role. by_evaluation.
  - unfold unique_user_roles. by_evaluation.
Defined.

Lemma chat_forwards_validated_payload_demo :
  (exists h, N8nChat.authorization Demo2.chat_request = Some h /\ h <> ""
             /\ Demo2.getUser h = Some (N8nChat.user_id Demo2.chat_payload))
  /\ N8nChat.text Demo2.chat_payload <> ""
  /\ (String.length (N8nChat.text Demo2.chat_payload) <= 4000)%nat
  /\ (length (N8nChat.conversation_history Demo2.chat_payload) <= 50)%nat
  /\ forall m, m ∈ N8nChat.conversation_history Demo2.chat_payload ->
       (String.length (N8nChat.msg_content m) <= 4000)%nat
       /\ exists b items j,
            N8nChat.body Demo2.chat_request = Some b
            /\ N8nChat.member "conversation_history" b = Some (N8nChat.JArray items)
            /\ j ∈ drop (length items - 50) items
            /\ N8nChat.member "role" j = Some (N8nChat.JString (N8nChat.msg_role m))
            /\ N8nChat.member "content" j
               = Some (N8nChat.JString (N8nChat.msg_content m)).
Proof.
  apply (chat_forwards_validated_payload Demo2.getUser Demo2.chat_webhook
           Demo2.chat_request Demo2.chat_payload).
  vm_compute. reflexivity.
Defined.

Lemma upload_forwards_own_paths_demo :
  (exists h, N8nUpload.authorization Demo2.upload_request = Some h /\ h <> ""
             /\ Demo2.getUser h = Some (N8nUpload.user_id Demo2.upload_payload))
  /\ startsWith (N8nUpload.file_path Demo2.upload_payload)
                (N8nUpload.user_id Demo2.upload_payload) = true
  /\ (forall f, N8nUpload.data Demo2.upload_payload = N8nUpload.EFile f ->
        N8nUpload.size f <= 50 * 1024 * 1024)
  /\ exists fd, N8nUpload.formData Demo2.upload_request = Some fd
       /\ N8nUpload.get "data" fd = Some (N8nUpload.data Demo2.upload_payload)
       /\ N8nUpload.get "file_path" fd
          = Some (N8nUpload.EString (N8nUpload.file_path Demo2.upload_payload))
       /\ N8nUpload.get "file_name" fd = Some (N8nUpload.file_name Demo2.upload_payload).
Proof.
  apply (upload_forwards_own_paths Demo2.getUser Demo2.upload_webhook
           Demo2.upload_request Demo2.upload_payload).
  vm_compute. reflexivity.
Defined.

Lemma upload_button_request_accepted_demo :
  (N8nUpload.size Demo2.rules_pdf <= 50 * 1024 * 1024 ->
     snd (N8nUpload.serve Demo2.getUser Demo2.upload_webhook Demo2.upload_request)
     = Some Demo2.upload_payload
     /\ forall st, Demo2.upload_webhook Demo2.upload_payload = Some st ->
          fst (N8nUpload.serve Demo2.getUser Demo2.upload_webhook Demo2.upload_request)
          = N8nUpload.Success)
  /\ (50 * 1024 * 1024 < N8nUpload.size Demo2.rules_pdf ->
        N8nUpload.serve Demo2.getUser Demo2.upload_webhook Demo2.upload_request
        = (N8nUpload.Failure 400, None)).
Proof.
  apply (upload_button_request_accepted Demo2.getUser Demo2.upload_webhook
           "Bearer erin-session" "erin" 1700000000000 Demo2.rules_pdf).
  - done.
  - reflexivity.
  - done.
Defined.

Lemma role_failure_leaves_account_demo :
  AcceptInvite.handleSubmit (Some Demo.zoe_invitation) "Zoe Zed" "correct horse"
    "correct horse"
    {| AcceptInvite.signUp := AcceptInvite.SignUpUser "zoe";
       AcceptInvite.roleError := true;
       AcceptInvite.stamp_applied := true |} Demo.day1 Demo.db
  = (with_auth_users Demo.db
       (auth_users Demo.db ++ [{| au_id := "zoe"; au_email := inv_email Demo.zoe_invitation;
                                  au_full_name := "Zoe Zed" |}]),
     AcceptInvite.RoleFailed).
Proof.
  apply (role_failure_leaves_account Demo.zoe_invitation Demo.db "Zoe Zed"
           "correct horse" "zoe" Demo.day1 true).
  reflexivity.
Defined.
